(** * The mod reconciliation engine of the server updater

    A shallow embedding of [server_updater/main.py] (class [ServerUpdater])
    and of the constants of [server_updater/config.py] it uses.

    The methods of [ServerUpdater] act on the disk, on the console, on the
    network and on the external fetch tool.  They are embedded in a monad
    [M] that threads a [World] (the directory tree and the chronological
    record of every externally visible action) and propagates Python
    exceptions.  Loops whose bound is not syntactic take fuel; running out
    of fuel is an outcome of its own, never a result.

    Conventions of the embedding
    - a path is the list of its components; [os.path.join root name] is
      [root ++ [name]] (names returned by a directory scan have no
      separator) and the f-strings [f"{DIR}/{x}"] are [DIR ++ [x]]: mod
      names and mod ids are taken to be single path components;
    - [str.lower] is its restriction to ASCII; it acts on each character
      and leaves the separator alone, so lower-casing a joined path is
      lower-casing each component;
    - the disk is case sensitive (the configured roots are Linux paths);
    - symbolic links are leaves of the tree and are never followed;
    - [ctime] is what [os.path.getctime] answers for a directory, rounded
      to the microsecond as [datetime] does: on the configured Linux roots
      the time of the last change of the directory's inode, which is not
      the time of its creation.  The model has no clock: whoever puts a
      directory on the disk sets the value and the operations of the model
      leave it as they find it, so a statement about the staleness check
      speaks of the value that is on the disk when the check is made;
    - the time zone of the host is a parameter, the offset of its local
      time from UTC at each instant: [datetime.fromtimestamp] gives naive
      local datetimes and the updater compares those;
    - transport and device failures (a network error, a full disk) are
      outside the model: an operation fails only for a reason that can be
      read off the directory tree. *)

From Stdlib Require Import String Ascii List ZArith Bool Arith Lia.
From Stdlib Require Import DecimalString.
Import ListNotations.
Local Open Scope string_scope.
Local Open Scope list_scope.

(** ** Strings *)

Module Str.

(** The double quote, for the messages that quote a name. *)
Definition dq : string := String (ascii_of_nat 34) EmptyString.

(** The line feed. *)
Definition nl : string := String (ascii_of_nat 10) EmptyString.

Definition lower_ascii (c : ascii) : ascii :=
  let n := nat_of_ascii c in
  if (65 <=? n)%nat && (n <=? 90)%nat then ascii_of_nat (n + 32) else c.

(** [str.lower], on ASCII. *)
Fixpoint lower (s : string) : string :=
  match s with
  | EmptyString => EmptyString
  | String c s' => String (lower_ascii c) (lower s')
  end.

Fixpoint rev_onto (s acc : string) : string :=
  match s with
  | EmptyString => acc
  | String c s' => rev_onto s' (String c acc)
  end.

Definition rev (s : string) : string := rev_onto s EmptyString.

(** [str.endswith]. *)
Definition endswith (s suffix : string) : bool :=
  String.prefix (rev suffix) (rev s).

Fixpoint drop (n : nat) (s : string) : string :=
  match n, s with
  | O, _ => s
  | S n', String _ s' => drop n' s'
  | S _, EmptyString => EmptyString
  end.

Definition is_digit (c : ascii) : bool :=
  let n := nat_of_ascii c in (48 <=? n)%nat && (n <=? 57)%nat.

Definition digit_val (c : ascii) : Z := Z.of_nat (nat_of_ascii c - 48).

(** The longest run of decimal digits at the head of [s], and the rest. *)
Fixpoint span_digits (s : string) : string * string :=
  match s with
  | String c s' =>
      if is_digit c
      then let (ds, rest) := span_digits s' in (String c ds, rest)
      else (EmptyString, s)
  | EmptyString => (EmptyString, EmptyString)
  end.

Definition is_space (c : ascii) : bool :=
  let n := nat_of_ascii c in
  ((9 <=? n)%nat && (n <=? 13)%nat) || (n =? 32)%nat.

Fixpoint lstrip (s : string) : string :=
  match s with
  | String c s' => if is_space c then lstrip s' else s
  | EmptyString => EmptyString
  end.

Definition strip (s : string) : string := rev (lstrip (rev (lstrip s))).

(** Digits with single underscores between them, as [int] accepts them:
    [after_digit] tells whether the previous character was a digit. *)
Fixpoint int_digits (after_digit : bool) (acc : Z) (s : string) : option Z :=
  match s with
  | EmptyString => if after_digit then Some acc else None
  | String c s' =>
      if is_digit c then int_digits true (10 * acc + digit_val c) s'
      else if (nat_of_ascii c =? 95)%nat && after_digit
           then int_digits false acc s'
           else None
  end.

(** [int(s)] for a [str] in base 10: surrounding white space, an optional
    sign, decimal digits.  [None] stands for [ValueError]. *)
Definition int (s : string) : option Z :=
  match strip s with
  | String c s' =>
      if Ascii.eqb c "-" then option_map Z.opp (int_digits false 0 s')
      else if Ascii.eqb c "+" then int_digits false 0 s'
      else int_digits false 0 (String c s')
  | EmptyString => None
  end.

Fixpoint all_digits (s : string) : bool :=
  match s with
  | EmptyString => true
  | String c s' => is_digit c && all_digits s'
  end.

(** [str(n)] for an [int]. *)
Definition of_Z (z : Z) : string := NilZero.string_of_int (Z.to_int z).

End Str.

(** ** Configuration ([server_updater/config.py]) *)

Definition path := list string.

Definition path_str (p : path) : string := "/" ++ String.concat "/" p.

Definition WORKSHOP_CHANGELOG_URL : string :=
  "https://steamcommunity.com/sharedfiles/filedetails/changelog".

Definition A3_SERVER_DIR : path := ["home"; "arma"; "steamcmd"; "arma3"].
Definition A3_WORKSHOP_ID : string := "107410".
Definition A3_WORKSHOP_DIR : path :=
  A3_SERVER_DIR ++ ["steamapps"; "workshop"; "content"; A3_WORKSHOP_ID].
Definition A3_MODS_DIR : path := A3_SERVER_DIR.
Definition A3_MOD_KEYS_SOURCE_DIRECTORY : path :=
  A3_SERVER_DIR ++ ["steamapps"; "workshop"; "content"; A3_WORKSHOP_ID].
Definition A3_MOD_KEYS_DESTINATION_DIRECTORY : path := A3_SERVER_DIR ++ ["keys"].

(** [PATTERN = re.compile(r"workshopAnnouncement.*?<p id=\"(\d+)\">",
    re.DOTALL)].  [p_tag s] matches [<p id="(\d+)">] at the head of [s]
    and returns group 1: the digits are taken greedily, and giving one
    back cannot help since the next character would still be a digit. *)
Definition p_open : string := "<p id=" ++ Str.dq.
Definition p_close : string := Str.dq ++ ">".

Definition p_tag (s : string) : option string :=
  if String.prefix p_open s then
    let (ds, rest) := Str.span_digits (Str.drop (String.length p_open) s) in
    match ds with
    | EmptyString => None
    | _ => if String.prefix p_close rest then Some ds else None
    end
  else None.

(** The lazy [.*?] (with DOTALL every character is allowed): the first
    position at which the tag matches. *)
Fixpoint lazy_p_tag (s : string) : option string :=
  match p_tag s with
  | Some ds => Some ds
  | None => match s with
            | EmptyString => None
            | String _ s' => lazy_p_tag s'
            end
  end.

Definition marker : string := "workshopAnnouncement".

(** [PATTERN.search]: the leftmost start position with a match; the value
    is group 1. *)
Fixpoint PATTERN_search (s : string) : option string :=
  match (if String.prefix marker s
         then lazy_p_tag (Str.drop (String.length marker) s) else None) with
  | Some ds => Some ds
  | None => match s with
            | EmptyString => None
            | String _ s' => PATTERN_search s'
            end
  end.

(** ** The directory tree *)

(** A directory keeps its entries in the order in which a scan returns
    them. *)
#[local] Set Warnings "-register-all".
Inductive node : Type :=
| File (data : string)
| Symlink (target : path)
| Dir (ctime : Z) (entries : list (string * node)).
#[local] Set Warnings "register-all".

Module FS.

Fixpoint assoc (n : string) (es : list (string * node)) : option node :=
  match es with
  | [] => None
  | (m, c) :: es' => if String.eqb m n then Some c else assoc n es'
  end.

(** [set_entry n (Some c) es] binds [n] to [c] (in place when [n] is
    bound, at the end otherwise); [set_entry n None es] unbinds [n]. *)
Fixpoint set_entry (n : string) (v : option node) (es : list (string * node))
  : list (string * node) :=
  match es with
  | [] => match v with Some c => [(n, c)] | None => [] end
  | (m, c) :: es' =>
      if String.eqb m n
      then match v with Some c' => (m, c') :: es' | None => es' end
      else (m, c) :: set_entry n v es'
  end.

(** What is at [p], links not followed ([lstat]). *)
Fixpoint lookup (p : path) (t : node) : option node :=
  match p with
  | [] => Some t
  | n :: p' =>
      match t with
      | Dir _ es => match assoc n es with
                    | Some c => lookup p' c
                    | None => None
                    end
      | _ => None
      end
  end.

(** Bind or unbind the last component of [p]; [None] when the parent of
    [p] is not a directory (or [p] is the root). *)
Fixpoint update (p : path) (v : option node) (t : node) : option node :=
  match p with
  | [] => None
  | n :: p' =>
      match t with
      | Dir c es =>
          match p' with
          | [] => Some (Dir c (set_entry n v es))
          | _ :: _ =>
              match assoc n es with
              | Some child =>
                  match update p' v child with
                  | Some child' => Some (Dir c (set_entry n (Some child') es))
                  | None => None
                  end
              | None => None
              end
          end
      | _ => None
      end
  end.

Definition is_dir_node (t : node) : bool :=
  match t with Dir _ _ => true | _ => false end.

Definition isdir (p : path) (t : node) : bool :=
  match lookup p t with Some (Dir _ _) => true | _ => false end.

Definition islink (p : path) (t : node) : bool :=
  match lookup p t with Some (Symlink _) => true | _ => false end.

(** The names of a directory, split as [os.walk] splits them. *)
Definition scandir (p : path) (t : node)
  : option (list string * list string) :=
  match lookup p t with
  | Some (Dir _ es) =>
      Some (map fst (filter (fun e => is_dir_node (snd e)) es),
            map fst (filter (fun e => negb (is_dir_node (snd e))) es))
  | _ => None
  end.

Fixpoint is_prefix (p q : path) : bool :=
  match p, q with
  | [], _ => true
  | a :: p', b :: q' => String.eqb a b && is_prefix p' q'
  | _ :: _, [] => false
  end.

Definition path_eqb (p q : path) : bool := is_prefix p q && is_prefix q p.

Inductive errno : Type :=
| ENOENT | EEXIST | ENOTDIR | EISDIR | ENOTEMPTY | EINVAL.

(** The text of an [OSError], reduced to the message of its error
    number. *)
Definition errno_str (e : errno) : string :=
  match e with
  | ENOENT => "No such file or directory"
  | EEXIST => "File exists"
  | ENOTDIR => "Not a directory"
  | EISDIR => "Is a directory"
  | ENOTEMPTY => "Directory not empty"
  | EINVAL => "Invalid argument"
  end.

Inductive outcome : Type := Done (t : node) | Failed (e : errno).

Definition commit (e : errno) (r : option node) : outcome :=
  match r with Some t => Done t | None => Failed e end.

(** [rename(2)]: the entry at [src] moves to [dst]; an entry already at
    [dst] is replaced when it is an empty directory (and [src] is a
    directory) or not a directory (and [src] is not one either). *)
Definition rename (src dst : path) (t : node) : outcome :=
  match lookup src t with
  | None => Failed ENOENT
  | Some s =>
      if path_eqb src dst then Done t
      else if is_prefix src dst
      then Failed (if is_dir_node s then EINVAL else ENOTDIR)
      else
        let move :=
          match update src None t with
          | Some t1 => commit ENOENT (update dst (Some s) t1)
          | None => Failed EINVAL
          end in
        match lookup dst t, s with
        | None, _ => move
        | Some (Dir _ []), Dir _ _ => move
        | Some (Dir _ (_ :: _)), Dir _ _ => Failed ENOTEMPTY
        | Some (Dir _ _), _ => Failed EISDIR
        | Some _, Dir _ _ => Failed ENOTDIR
        | Some _, _ => move
        end
  end.

(** [shutil.rmtree]: the directory at [p] goes, with all it holds. *)
Definition rmtree (p : path) (t : node) : outcome :=
  match lookup p t with
  | Some (Dir _ _) => commit EINVAL (update p None t)
  | Some _ => Failed ENOTDIR
  | None => Failed ENOENT
  end.

(** [os.symlink target link]. *)
Definition symlink (target link : path) (t : node) : outcome :=
  match lookup link t with
  | Some _ => Failed EEXIST
  | None => commit ENOENT (update link (Some (Symlink target)) t)
  end.

(** [shutil.copy src dst]: into [dst] when [dst] is a directory, onto
    [dst] otherwise; the bytes of a regular file are copied, an existing
    regular file is overwritten.  A link at either end would have to be
    followed and is reported as missing. *)
Definition copy (src dst : path) (t : node) : outcome :=
  let dst := if isdir dst t then dst ++ [last src ""] else dst in
  if path_eqb src dst then Failed EINVAL
  else
    match lookup src t with
    | Some (File data) =>
        match lookup dst t with
        | Some (Dir _ _) => Failed EISDIR
        | Some (Symlink _) => Failed ENOENT
        | Some (File _) | None => commit ENOENT (update dst (Some (File data)) t)
        end
    | Some (Dir _ _) => Failed EISDIR
    | Some (Symlink _) | None => Failed ENOENT
    end.

End FS.

(** ** Worlds, exceptions and the monad *)

(** Modelled from the spec: [UpdateType] of [server_updater.constants],
    the two kinds of fetch, of the whole server and of one mod. *)
Inductive UpdateType : Type := SERVER | MOD.

Inductive exn : Type :=
| OSError (e : FS.errno)
| ValueError (msg : string).

(** Everything a run does that can be observed from outside, in order. *)
Inductive event : Type :=
| Stdout (line : string)
| Log (line : string)
| SteamCmdRun (update_type : UpdateType) (mod_id : option Z)
| Sleep (seconds : Z)
| UrlOpen (url : string)
| Rename (src dst : path)
| MkSymlink (target link : path)
| Rmtree (p : path)
| Copy (src dst : path).

Record World : Type := mkWorld { disk : node; trace : list event }.

(** Modelled from the spec: the collaborators of the reconciliation
    engine, [SteamCmd.run] of [server_updater.steamcmd] and the remote
    changelog endpoint.  A run of the fetch tool has no result beyond what
    it leaves on the disk; the endpoint answers a body for a URL.  Both
    are parameters and may depend on everything that happened so far.
    With them comes the time zone of the host: [utcoffset us] is what
    local time is ahead of UTC at the instant [us], both in
    microseconds. *)
Record Env : Type := mkEnv {
  steamcmd_effect : UpdateType -> option Z -> World -> node;
  changelog_body : string -> World -> string;
  utcoffset : Z -> Z
}.

Inductive result (A : Type) : Type :=
| Ok (a : A) (w : World)
| Raised (e : exn) (w : World)
| OutOfFuel.

Arguments Ok {A} a w.
Arguments Raised {A} e w.
Arguments OutOfFuel {A}.

Definition M (A : Type) : Type := World -> result A.

Definition ret {A} (a : A) : M A := fun w => Ok a w.

Definition bind {A B} (m : M A) (k : A -> M B) : M B :=
  fun w => match m w with
           | Ok a w' => k a w'
           | Raised e w' => Raised e w'
           | OutOfFuel => OutOfFuel
           end.

Definition raise {A} (e : exn) : M A := fun w => Raised e w.

(** [try: body except OSError as e: handler e]. *)
Definition try_except_OSError (body : M unit) (handler : FS.errno -> M unit)
  : M unit :=
  fun w => match body w with
           | Raised (OSError e) w' => handler e w'
           | r => r
           end.

Declare Scope m_scope.
Delimit Scope m_scope with M.
Notation "x <- m ;; k" := (bind m (fun x => k))
  (at level 61, m at next level, right associativity) : m_scope.
Notation "' pat <- m ;; k" := (bind m (fun x => match x with pat => k end))
  (at level 61, pat pattern, m at next level, right associativity) : m_scope.
Notation "m ;; k" := (bind m (fun _ => k))
  (at level 61, right associativity) : m_scope.
Local Open Scope m_scope.

(** [for x in xs: body x]. *)
Fixpoint for_ {A} (xs : list A) (body : A -> M unit) : M unit :=
  match xs with
  | [] => ret tt
  | x :: xs' => body x ;; for_ xs' body
  end.

(** A [for] loop that carries the local variables [s] it assigns. *)
Fixpoint for_fold {A S} (xs : list A) (body : A -> S -> M S) (s : S) : M S :=
  match xs with
  | [] => ret s
  | x :: xs' => s' <- body x s ;; for_fold xs' body s'
  end.

(** [while cond: body], on the local variables [s]. *)
Fixpoint while_ {S} (fuel : nat) (cond : S -> bool) (body : S -> M S) (s : S)
  : M S :=
  if cond s then
    match fuel with
    | O => fun _ => OutOfFuel
    | Datatypes.S fuel' => s' <- body s ;; while_ fuel' cond body s'
    end
  else ret s.

Definition emit (e : event) : M unit :=
  fun w => Ok tt (mkWorld (disk w) (trace w ++ [e])).

Definition print (line : string) : M unit := emit (Stdout line).

(** ** The operating system, the network and the fetch tool *)

Definition os_path_isdir (p : path) : M bool :=
  fun w => Ok (FS.isdir p (disk w)) w.

Definition os_path_islink (p : path) : M bool :=
  fun w => Ok (FS.islink p (disk w)) w.

(** [os.path.getctime], in microseconds: on the Linux roots the updater
    is configured for, the time of the last change of the inode.  Only
    directories carry the attribute: the updater asks it of nothing
    else. *)
Definition os_path_getctime (p : path) : M Z :=
  fun w => match FS.lookup p (disk w) with
           | Some (Dir c _) => Ok c w
           | Some _ => Raised (OSError FS.ENOTDIR) w
           | None => Raised (OSError FS.ENOENT) w
           end.

(** A change of the tree: recorded when attempted, then done or raised. *)
Definition syscall (e : event) (op : node -> FS.outcome) : M unit :=
  emit e ;;
  fun w => match op (disk w) with
           | FS.Done t => Ok tt (mkWorld t (trace w))
           | FS.Failed err => Raised (OSError err) w
           end.

Definition os_rename (src dst : path) : M unit :=
  syscall (Rename src dst) (FS.rename src dst).

Definition os_symlink (target link : path) : M unit :=
  syscall (MkSymlink target link) (FS.symlink target link).

Definition shutil_rmtree (p : path) : M unit :=
  syscall (Rmtree p) (FS.rmtree p).

Definition shutil_copy (src dst : path) : M unit :=
  syscall (Copy src dst) (FS.copy src dst).

Definition time_sleep (seconds : Z) : M unit := emit (Sleep seconds).

(** [int(s)]. *)
Definition int_ (s : string) : M Z :=
  match Str.int s with
  | Some n => ret n
  | None => raise (ValueError "invalid literal for int() with base 10")
  end.

(** A naive [datetime] is the reading of a wall clock: here the number
    of microseconds the reading is from 1970-01-01 00:00:00.
    [datetime.fromtimestamp] gives the reading of the clock of the host at
    an instant, which is the instant moved by the offset of the zone; two
    instants less than an hour apart can have their readings in the other
    order where the zone sets its clock back.  It raises outside years 1
    to 9999. *)
Definition datetime_min : Z := -62135596800000000.
Definition datetime_max : Z := 253402300799999999.

Definition naive_local (utcoffset : Z -> Z) (us : Z) : Z := (us + utcoffset us)%Z.

Definition datetime_fromtimestamp (utcoffset : Z -> Z) (us : Z) : M Z :=
  let local := naive_local utcoffset us in
  if (datetime_min <=? local)%Z && (local <=? datetime_max)%Z then ret local
  else raise (ValueError "year is out of range").

(** ** [ServerUpdater] *)

(** A [Dict[str, str]]: insertion ordered, keys bound once. *)
Definition dict := list (string * string).

Fixpoint dict_set (k v : string) (d : dict) : dict :=
  match d with
  | [] => [(k, v)]
  | (k', v') :: d' =>
      if String.eqb k' k then (k', v) :: d' else (k', v') :: dict_set k v d'
  end.

Definition values (d : dict) : list string := map snd d.

Section ServerUpdater.

Variable env : Env.

(** Fuel of every loop without a syntactic bound: the [while] of the
    retry loop and the depth of a directory walk. *)
Variable fuel : nat.

(** Modelled from the spec: [self._logger.log] of [server_updater.log],
    a line of console output. *)
Definition logger_log (line : string) : M unit := emit (Log line).

(** [self._steamcmd.run]: one run of the fetch tool, known by what it
    leaves on the disk. *)
Definition steamcmd_run (update_type : UpdateType) (mod_id : option Z)
  : M unit :=
  emit (SteamCmdRun update_type mod_id) ;;
  fun w => Ok tt (mkWorld (steamcmd_effect env update_type mod_id w) (trace w)).

(** [request.urlopen(url).read().decode("utf-8")]. *)
Definition urlopen_read (url : string) : M string :=
  emit (UrlOpen url) ;;
  fun w => Ok (changelog_body env url w) w.

(** [os.walk top] driving the body of a [for root, dirs, files in ...]
    loop: top down, the body runs on a directory before the walk goes
    into its sub-directories, each of which is looked up again, by the
    name it had when its parent was scanned, only when its turn comes.
    A directory that cannot be scanned is passed over silently. *)
Fixpoint os_walk {St} (depth : nat) (top : path)
  (body : path -> list string -> list string -> St -> M St) (s : St) : M St :=
  fun w =>
    match FS.scandir top (disk w) with
    | None => Ok s w
    | Some (dirs, files) =>
        match depth with
        | O => OutOfFuel
        | S depth' =>
            (s1 <- body top dirs files s ;;
             for_fold dirs (fun dirname s =>
               let new_path := top ++ [dirname] in
               is_link <- os_path_islink new_path ;;
               if is_link then ret s else os_walk depth' new_path body s) s1) w
        end
    end.

(** One turn of the [for] loop of [_create_mod_symlinks]. *)
Definition _create_mod_symlink (mod_name mod_id : string) : M unit :=
  let link_path := A3_MODS_DIR ++ [mod_name] in
  let real_path := A3_WORKSHOP_DIR ++ [mod_id] in
  is_dir <- os_path_isdir real_path ;;
  if negb is_dir then
    print ("Mod '" ++ mod_name ++ "' does not exist! ("
           ++ path_str real_path ++ ")")
  else
    is_link <- os_path_islink link_path ;;
    if is_link then ret tt
    else
      os_symlink real_path link_path ;;
      print ("Creating symlink '" ++ path_str link_path ++ "'...").

Definition _create_mod_symlinks (updated_mods : dict) : M unit :=
  logger_log "Creating symlinks..." ;;
  for_ updated_mods (fun '(mod_name, mod_id) =>
    _create_mod_symlink mod_name mod_id) ;;
  print "".

Definition lower_path (p : path) : path := map Str.lower p.

(** One turn of the inner [for] loop of [_lower_case_mods]. *)
Definition _lower_case_entry (root : path) (filename : string) : M unit :=
  let new_name := lower_path (root ++ [filename]) in
  if FS.path_eqb new_name (root ++ [filename]) then ret tt
  else
    try_except_OSError
      (os_rename (root ++ [filename]) new_name ;;
       print ("Renamed: " ++ filename ++ " -> " ++ path_str new_name))
      (fun e =>
         print ("Error renaming " ++ filename ++ ": " ++ FS.errno_str e)).

Definition _lower_case_mods (updated_mods : dict) : M unit :=
  logger_log "Converting uppercase files/folders to lowercase..." ;;
  for_ (values updated_mods) (fun value =>
    let directory_path := A3_WORKSHOP_DIR ++ [value] in
    os_walk fuel directory_path (fun root dirs files _ =>
      for_ (files ++ dirs) (_lower_case_entry root)) tt).

Definition _mod_needs_update (mod_id : string) (p : path) : M bool :=
  is_dir <- os_path_isdir p ;;
  if negb is_dir then ret false
  else
    response <- urlopen_read (WORKSHOP_CHANGELOG_URL ++ "/" ++ mod_id) ;;
    match PATTERN_search response with
    | None => ret false
    | Some group1 =>
        seconds <- int_ group1 ;;
        updated_at <- datetime_fromtimestamp (utcoffset env)
                        (1000000 * seconds) ;;
        ctime <- os_path_getctime p ;;
        created_at <- datetime_fromtimestamp (utcoffset env) ctime ;;
        ret (updated_at >=? created_at)%Z
    end.

(** The console lines that tell how a mod ended: skipped, or failed. *)
Definition skipping_line (mod_name mod_id : string) : string :=
  "No update required for " ++ Str.dq ++ mod_name ++ Str.dq
  ++ " (" ++ mod_id ++ ")... SKIPPING".

Definition failed_line (mod_name : string) (tries : Z) : string :=
  "!! Updating " ++ mod_name ++ " failed after " ++ Str.of_Z tries
  ++ " tries !!".

Definition updating_line (mod_name mod_id : string) (attempt : Z) : string :=
  "Updating " ++ Str.dq ++ mod_name ++ Str.dq ++ " (" ++ mod_id ++ ") | "
  ++ Str.of_Z attempt.

(** One turn of the [while] loop of [_try_to_update_mod]. *)
Definition _try_once (mod_id mod_name : string) (tries : Z) : M Z :=
  logger_log (updating_line mod_name mod_id (tries + 1)) ;;
  id <- int_ mod_id ;;
  steamcmd_run MOD (Some id) ;;
  time_sleep 5 ;;
  ret (tries + 1)%Z.

Definition _try_to_update_mod (mod_id mod_name : string) (is_dir : bool)
  : M bool :=
  let max_tries := 10%Z in
  tries <- while_ fuel (fun tries => negb is_dir && (tries <? 10)%Z)
             (_try_once mod_id mod_name) 0%Z ;;
  if (tries >=? max_tries)%Z then
    logger_log (failed_line mod_name tries) ;;
    ret false
  else ret true.

Definition _delete_mod_if_needed (mod_id : string) (mod_path : path)
  : M (bool * bool) :=
  is_dir <- os_path_isdir mod_path ;;
  mod_needs_update <- _mod_needs_update mod_id mod_path ;;
  if negb is_dir then ret (false, false)
  else
    again <- _mod_needs_update mod_id mod_path ;;
    if negb again then ret (true, false)
    else
      shutil_rmtree mod_path ;;
      ret (true, true).

(** One turn of the [for] loop of [_update_mods], on its local
    [updated_mods]. *)
Definition _update_mod (mod_name mod_id : string) (updated_mods : dict)
  : M dict :=
  let mod_path := A3_WORKSHOP_DIR ++ [mod_id] in
  '(is_dir, mod_needs_update) <- _delete_mod_if_needed mod_id mod_path ;;
  if is_dir && negb mod_needs_update then
    print (skipping_line mod_name mod_id) ;;
    ret updated_mods
  else
    updated <- _try_to_update_mod mod_id mod_name is_dir ;;
    if updated then ret (dict_set mod_name mod_id updated_mods)
    else ret updated_mods.

(** The [for] loop of [_update_mods], from a given [updated_mods]. *)
Definition _update_mods_loop (mods_to_update : dict) (updated_mods : dict)
  : M dict :=
  for_fold mods_to_update (fun '(mod_name, mod_id) updated_mods =>
    _update_mod mod_name mod_id updated_mods) updated_mods.

Definition _update_mods (mods_to_update : dict) : M (option dict) :=
  updated_mods <- _update_mods_loop mods_to_update [] ;;
  ret (match updated_mods with [] => None | _ => Some updated_mods end).

(** One turn of the inner [for] loop of [_copy_key_files], on its local
    [was_copied]. *)
Definition _copy_key_file (root_dir : path) (file : string)
  (was_copied : bool) : M bool :=
  if negb (Str.endswith file ".bikey") then ret was_copied
  else
    let source_file_path := root_dir ++ [file] in
    let destination_file_path := A3_MOD_KEYS_DESTINATION_DIRECTORY ++ [file] in
    print ("Copy " ++ file ++ " file") ;;
    shutil_copy source_file_path destination_file_path ;;
    ret true.

Definition nothing_to_copy_line : string :=
  "There are no MODs sign key files to copy" ++ Str.nl.

Definition copied_line : string :=
  "MODs sign key files was successfully copied." ++ Str.nl.

Definition _copy_key_files (updated_mods : dict) : M unit :=
  logger_log "Start copy of Mods sign key files..." ;;
  was_copied <-
    for_fold (values updated_mods) (fun value was_copied =>
      let directory_path := A3_MOD_KEYS_SOURCE_DIRECTORY ++ [value] in
      os_walk fuel directory_path (fun root_dir _ files was_copied =>
        for_fold files (_copy_key_file root_dir) was_copied) was_copied)
      false ;;
  if negb was_copied then print nothing_to_copy_line
  else print copied_line.

(** [mods_to_update] is what [_get_mods] loads from the mods list. *)
Definition _update_mods_only (mods_to_update : dict) : M unit :=
  updated_mods <- _update_mods mods_to_update ;;
  match updated_mods with
  | None => logger_log "All MODs are updated" ;; print ""
  | Some updated_mods =>
      _lower_case_mods updated_mods ;;
      _create_mod_symlinks updated_mods ;;
      _copy_key_files updated_mods
  end.

End ServerUpdater.

(** ** What a run is observed to do *)

Definition is_fetch (mod_id : Z) (e : event) : bool :=
  match e with
  | SteamCmdRun MOD (Some n) => Z.eqb n mod_id
  | _ => false
  end.

(** The fetch attempts made for a mod. *)
Definition fetches (mod_id : Z) (evs : list event) : nat :=
  length (filter (is_fetch mod_id) evs).

Definition is_read (mod_id : string) (e : event) : bool :=
  match e with
  | UrlOpen url => String.eqb url (WORKSHOP_CHANGELOG_URL ++ "/" ++ mod_id)
  | _ => false
  end.

(** The reads of the remote changelog of a mod. *)
Definition network_reads (mod_id : string) (evs : list event) : nat :=
  length (filter (is_read mod_id) evs).

Definition is_rename (e : event) : bool :=
  match e with Rename _ _ => true | _ => false end.

(** The calls of [os.rename]. *)
Definition renames (evs : list event) : nat :=
  length (filter is_rename evs).



(** The events of one fetch attempt, as the retry loop leaves them. *)
Definition attempt_events (mod_name mod_id : string) (id : Z) (attempt : Z)
  : list event :=
  [Log (updating_line mod_name mod_id attempt); SteamCmdRun MOD (Some id);
   Sleep 5].

(** ** Properties of a directory tree *)

Definition is_lower (name : string) : bool :=
  String.eqb (Str.lower name) name.

(** Every name in the tree is lower case. *)
Fixpoint names_lower (t : node) : bool :=
  match t with
  | Dir _ es =>
      forallb (fun e => is_lower (fst e) && names_lower (snd e)) es
  | _ => true
  end.

(** The number of directory levels of the tree. *)
Fixpoint height (t : node) : nat :=
  match t with
  | Dir _ es => S (fold_right (fun e h => Nat.max (height (snd e)) h) 0 es)
  | _ => 0
  end.

(** Names are bound once in every directory of the tree. *)
Fixpoint unique (names : list string) : bool :=
  match names with
  | [] => true
  | n :: names' => negb (existsb (String.eqb n) names') && unique names'
  end.

Fixpoint well_formed (t : node) : bool :=
  match t with
  | Dir _ es =>
      unique (map fst es) && forallb (fun e => well_formed (snd e)) es
  | _ => true
  end.

(** ** Signing keys *)

Definition is_key (file : string) : bool := Str.endswith file ".bikey".

Definition file_names (es : list (string * node)) : list string :=
  map fst (filter (fun e => negb (FS.is_dir_node (snd e))) es).

Definition dir_names (es : list (string * node)) : list string :=
  map fst (filter (fun e => FS.is_dir_node (snd e)) es).

(** The key files of the tree [t] found at [here], each as its directory
    and its name: those of the directory itself, then those of its
    sub-directories in turn. *)
Fixpoint key_files (here : path) (t : node) : list (path * string) :=
  match t with
  | Dir _ es =>
      map (pair here) (filter is_key (file_names es))
      ++ flat_map (fun e => key_files (here ++ [fst e]) (snd e)) es
  | _ => []
  end.

(** The key files of the content trees of the mods. *)
Definition mods_key_files (updated_mods : dict) (t : node)
  : list (path * string) :=
  flat_map (fun value =>
              let directory_path := A3_MOD_KEYS_SOURCE_DIRECTORY ++ [value] in
              match FS.lookup directory_path t with
              | Some sub => key_files directory_path sub
              | None => []
              end) (values updated_mods).

(** Every entry with a key file name that is not a directory is a regular
    file. *)
Fixpoint keys_regular (t : node) : bool :=
  match t with
  | Dir _ es =>
      forallb (fun e => match snd e with
                        | Dir _ _ => keys_regular (snd e)
                        | File _ => true
                        | Symlink _ => negb (is_key (fst e))
                        end) es
  | _ => true
  end.

Definition is_file (t : node) : bool :=
  match t with File _ => true | _ => false end.

(** The destination of the keys is a directory of regular files. *)
Definition flat_destination (t : node) : bool :=
  match FS.lookup A3_MOD_KEYS_DESTINATION_DIRECTORY t with
  | Some (Dir _ es) => forallb (fun e => is_file (snd e)) es
  | _ => false
  end.

(** The content trees of the mods are well formed, hold their key files
    as regular files, and are no higher than [fuel]. *)
Definition trees_ok (fuel : nat) (updated_mods : dict) (d : node) : Prop :=
  forall value t,
    In value (values updated_mods) ->
    FS.lookup (A3_MOD_KEYS_SOURCE_DIRECTORY ++ [value]) d = Some t ->
    well_formed t = true /\ keys_regular t = true /\ (height t <= fuel)%nat.

Definition copy_events (ks : list (path * string)) : list event :=
  flat_map (fun k =>
              [Stdout ("Copy " ++ snd k ++ " file");
               Copy (fst k ++ [snd k])
                    (A3_MOD_KEYS_DESTINATION_DIRECTORY ++ [snd k])]) ks.

(** A path below the server directory and outside its keys directory. *)
Definition outside_keys (p : path) : Prop :=
  exists x r, p = A3_SERVER_DIR ++ x :: r /\ x <> "keys".

Definition same_store (d d' : node) : Prop :=
  forall p, outside_keys p -> FS.lookup p d' = FS.lookup p d.

(** [w'] is [w] after the key files [ks] were copied in this order: the
    content store is as it was, the destination holds for each name the
    bytes of a key file of that name, and is as it was at every other
    name. *)
Record copied (w w' : World) (ks : list (path * string)) : Prop := mkCopied {
  copied_store : same_store (disk w) (disk w');
  copied_flat : flat_destination (disk w') = true;
  copied_trace : trace w' = trace w ++ copy_events ks;
  copied_others :
    forall m, ~ In m (map snd ks) ->
      FS.lookup (A3_MOD_KEYS_DESTINATION_DIRECTORY ++ [m]) (disk w')
      = FS.lookup (A3_MOD_KEYS_DESTINATION_DIRECTORY ++ [m]) (disk w);
  copied_keys :
    forall d n, In (d, n) ks ->
      exists d' data,
        In (d', n) ks /\
        FS.lookup (d' ++ [n]) (disk w) = Some (File data) /\
        FS.lookup (A3_MOD_KEYS_DESTINATION_DIRECTORY ++ [n]) (disk w')
        = Some (File data)
}.

Definition nonempty {A} (l : list A) : bool :=
  match l with [] => false | _ => true end.

(** The world an outcome ends in. *)
Definition final_world {A} (r : result A) : option World :=
  match r with
  | Ok _ w | Raised _ w => Some w
  | OutOfFuel => None
  end.

(** ** The staleness oracle as the specification words it *)

(** The creation time of the local content, when the path is a
    directory. *)
Definition local_created_at (p : path) (t : node) : option Z :=
  match FS.lookup p t with
  | Some (Dir ctime _) => Some ctime
  | _ => None
  end.

(** The time stamp the marker pattern finds in the response, in
    microseconds. *)
Definition remote_updated_at (response : string) : option Z :=
  match PATTERN_search response with
  | Some group1 => option_map (Z.mul 1000000) (Str.int group1)
  | None => None
  end.

(** No decision without a local directory, not stale without a marker,
    [remote_updated_at >= local_created_at] otherwise. *)
Definition is_stale (created updated : option Z) : bool :=
  match created, updated with
  | Some c, Some u => (u >=? c)%Z
  | _, _ => false
  end.

Definition in_datetime_range (us : Z) : Prop :=
  (datetime_min <= us <= datetime_max)%Z.

(** ** The staleness check as the code computes it *)

(** On a directory with the time [ctime] the check answers whether the
    remote time stamp, read on the clock of the host, is at or after
    [ctime] read on the same clock; false without a marker. *)
Definition local_stale (utcoffset : Z -> Z) (ctime : Z) (updated : option Z)
  : bool :=
  match updated with
  | Some u => (naive_local utcoffset u >=? naive_local utcoffset ctime)%Z
  | None => false
  end.

(** ** Scenarios *)

Module Scenario.

(** The configured roots, with the given content store and entries of the
    server root. *)
Definition disk_with (store : list (string * node))
  (server_root : list (string * node)) : node :=
  Dir 0 [("home", Dir 0 [("arma", Dir 0 [("steamcmd", Dir 0 [("arma3",
    Dir 0 (("keys", Dir 0 [])
           :: ("steamapps", Dir 0 [("workshop", Dir 0 [("content",
                 Dir 0 [("107410", Dir 0 store)])])])
           :: server_root))])])])].

Definition desired : dict := [("@cba", "450814997")].

Definition mod_path : path := A3_WORKSHOP_DIR ++ ["450814997"].

(** The remote changelog: last update at 1700000000 s. *)
Definition changelog : string :=
  "<div class=" ++ Str.dq ++ "workshopAnnouncement" ++ Str.dq ++ "><p id="
  ++ Str.dq ++ "1700000000" ++ Str.dq ++ ">Update notes</p></div>".

(** What the fetch tool downloads, created after the last remote update. *)
Definition fetched : node :=
  Dir 1800000000000000
    [("addons", Dir 1800000000000000 [("cba_main.pbo", File "pbo")]);
     ("keys", Dir 1800000000000000 [("cba.bikey", File "key")])].

(** A fetch tool that works at every call: the content directory of the
    mod is there when it returns. *)
Definition working_fetch (_ : UpdateType) (mod_id : option Z) (w : World)
  : node :=
  match mod_id with
  | Some n =>
      match FS.update (A3_WORKSHOP_DIR ++ [Str.of_Z n]) (Some fetched)
              (disk w) with
      | Some t => t
      | None => disk w
      end
  | None => disk w
  end.

(** The host keeps UTC. *)
Definition utc (_ : Z) : Z := 0%Z.

Definition env : Env := mkEnv working_fetch (fun _ _ => changelog) utc.

(** The mod was never fetched. *)
Definition absent : World := mkWorld (disk_with [] []) [].

(** The mod is installed, from before the last remote update. *)
Definition stale : World :=
  mkWorld
    (disk_with
       [("450814997",
         Dir 1600000000000000
           [("addons", Dir 1600000000000000 [("cba_main.pbo", File "old")])])]
       []) [].

(** The mod is installed, from after the last remote update. *)
Definition fresh : World :=
  mkWorld (disk_with [("450814997", fetched)] []) [].


(** The mod as the fetch tool delivers it, with upper case names. *)
Definition mixed_case : World :=
  mkWorld
    (disk_with
       [("450814997",
         Dir 1800000000000000
           [("UPPER_DIR",
             Dir 1800000000000000 [("MixedCase.PBO", File "pbo")])])]
       []) [].

End Scenario.

(** A host in the zone Europe/Berlin on 29 October 2023, when its clock
    went back from 03:00 to 02:00 at 01:00:00 UTC. *)
Module Fold.

Definition berlin (us : Z) : Z :=
  if (us <? 1698541200000000)%Z then 7200000000%Z else 3600000000%Z.

(** The remote changelog: last update at 01:00:00 UTC, which is 02:00:00
    on the clock of the host. *)
Definition changelog : string :=
  "<div class=" ++ Str.dq ++ "workshopAnnouncement" ++ Str.dq ++ "><p id="
  ++ Str.dq ++ "1698541200" ++ Str.dq ++ ">Update notes</p></div>".

Definition env : Env :=
  mkEnv Scenario.working_fetch (fun _ _ => changelog) berlin.

(** The mod is installed; its directory was made at 00:30:00 UTC, thirty
    minutes before the remote update, and was not changed since: it
    bears that time, which is 02:30:00 on the clock of the host. *)
Definition world : World :=
  mkWorld
    (Scenario.disk_with
       [("450814997",
         Dir 1698539400000000
           [("addons", Dir 1698539400000000 [("cba_main.pbo", File "old")])])]
       []) [].

(** The mirror image: the directory bears 01:00:00 UTC, which reads
    02:00:00, and the changelog reports an update at 00:30:00 UTC, thirty
    minutes earlier, which reads 02:30:00. *)
Definition earlier_changelog : string :=
  "<div class=" ++ Str.dq ++ "workshopAnnouncement" ++ Str.dq ++ "><p id="
  ++ Str.dq ++ "1698539400" ++ Str.dq ++ ">Update notes</p></div>".

Definition mirror_env : Env :=
  mkEnv Scenario.working_fetch (fun _ _ => earlier_changelog) berlin.

Definition mirror_world : World :=
  mkWorld
    (Scenario.disk_with
       [("450814997",
         Dir 1698541200000000
           [("addons", Dir 1698541200000000 [("cba_main.pbo", File "new")])])]
       []) [].

End Fold.

(** ** What a computation may add to the record *)

Definition is_any_fetch (e : event) : bool :=
  match e with SteamCmdRun _ _ => true | _ => false end.

(** The runs of the fetch tool. *)
Definition fetches_any (evs : list event) : nat :=
  length (filter is_any_fetch evs).

(** [m] adds to the record of a run only events that satisfy [P],
    however it ends. *)
Definition emits (P : event -> Prop) {A} (m : M A) : Prop :=
  forall w w',
    final_world (m w) = Some w' ->
    exists evs, trace w' = trace w ++ evs /\ Forall P evs.

(** [m] ends without an exception, or runs out of fuel. *)
Definition never_raises {A} (m : M A) : Prop :=
  forall w e w', m w <> Raised e w'.

(** The events a reconciliation pass over [mods] may add: it reads the
    changelog of a desired mod, removes the content directory of one,
    fetches one, and writes to the console; it renames, links and copies
    nothing. *)
Definition pass_event (mods : dict) (e : event) : Prop :=
  match e with
  | UrlOpen url =>
      exists name id,
        In (name, id) mods /\ url = (WORKSHOP_CHANGELOG_URL ++ "/" ++ id)%string
  | Rmtree p => exists name id, In (name, id) mods /\ p = A3_WORKSHOP_DIR ++ [id]
  | SteamCmdRun update_type n =>
      update_type = MOD /\
      exists name id m, In (name, id) mods /\ Str.int id = Some m /\ n = Some m
  | Sleep seconds => seconds = 5%Z
  | Rename _ _ | MkSymlink _ _ | Copy _ _ => False
  | Stdout _ | Log _ => True
  end.

(** The events the layout normalizer may add for [mods]: it renames an
    entry below the content directory of a mod to its lower-cased path,
    and writes to the console. *)
Definition normalizer_event (mods : dict) (e : event) : Prop :=
  match e with
  | Rename src dst =>
      dst = lower_path src /\ dst <> src /\
      exists name id rest,
        In (name, id) mods /\ rest <> [] /\
        src = A3_WORKSHOP_DIR ++ id :: rest
  | Stdout _ | Log _ => True
  | _ => False
  end.

(** The events the link manager may add for [mods]. *)
Definition link_event (mods : dict) (e : event) : Prop :=
  match e with
  | MkSymlink target link =>
      exists name id,
        In (name, id) mods /\
        target = A3_WORKSHOP_DIR ++ [id] /\ link = A3_MODS_DIR ++ [name]
  | Stdout _ | Log _ => True
  | _ => False
  end.

(** The events the key propagator may add for [mods]. *)
Definition key_event (mods : dict) (e : event) : Prop :=
  match e with
  | Copy src dst =>
      exists name id rest file,
        In (name, id) mods /\ is_key file = true /\
        src = A3_MOD_KEYS_SOURCE_DIRECTORY ++ id :: rest ++ [file] /\
        dst = A3_MOD_KEYS_DESTINATION_DIRECTORY ++ [file]
  | Stdout _ | Log _ => True
  | _ => False
  end.

(** The events the mods-only operation may add for the desired [mods]. *)
Definition operation_event (mods : dict) (e : event) : Prop :=
  pass_event mods e \/ normalizer_event mods e \/ link_event mods e
  \/ key_event mods e.

(** The content directory of the mod is installed and the staleness check
    finds it fresh: the changelog always answers the same body, which
    holds no marker or reports an update that, on the clock of the host,
    reads before the time [os.path.getctime] gives for the directory;
    both readings are dates [datetime] can hold. *)
Definition installed_fresh (env : Env) (d : node) (mod_id : string) : Prop :=
  exists c es body,
    (forall w, changelog_body env (WORKSHOP_CHANGELOG_URL ++ "/" ++ mod_id) w
               = body) /\
    FS.lookup (A3_WORKSHOP_DIR ++ [mod_id]) d = Some (Dir c es) /\
    in_datetime_range (naive_local (utcoffset env) c) /\
    (forall u, remote_updated_at body = Some u ->
     in_datetime_range (naive_local (utcoffset env) u)) /\
    local_stale (utcoffset env) c (remote_updated_at body) = false.

(** What a pass adds to the record when it skips every mod. *)
Definition skipped_events (mods : dict) : list event :=
  flat_map (fun m =>
              [UrlOpen (WORKSHOP_CHANGELOG_URL ++ "/" ++ snd m);
               UrlOpen (WORKSHOP_CHANGELOG_URL ++ "/" ++ snd m);
               Stdout (skipping_line (fst m) (snd m))]) mods.

(** The outcome of the key propagator on the key files [ks] when the keys
    directory is missing: the first copy raises. *)
Definition first_key_raise (wc : bool) (w : World)
  (ks : list (path * string)) : result bool :=
  match ks with
  | [] => Ok wc w
  | (d, n) :: _ =>
      Raised (OSError FS.ENOENT)
        (mkWorld (disk w)
           (trace w ++ [Stdout ("Copy " ++ n ++ " file");
                        Copy (d ++ [n])
                             (A3_MOD_KEYS_DESTINATION_DIRECTORY ++ [n])]))
  end.

(** ** Trees the layout normalizer can cope with *)

(** [graft p s t]: the tree [t] with [s] in the place of what is at [p];
    [t] itself when nothing is at [p]. *)
Fixpoint graft (p : path) (s : node) (t : node) : node :=
  match p with
  | [] => s
  | n :: p' =>
      match t with
      | Dir c es =>
          match FS.assoc n es with
          | Some child => Dir c (FS.set_entry n (Some (graft p' s child)) es)
          | None => t
          end
      | _ => t
      end
  end.

(** A tree the layout normalizer can cope with: names are bound once, the
    directories have lower case names already, and no other entry would
    take the name of a directory beside it when lower-cased. *)
Fixpoint tidy (t : node) : bool :=
  match t with
  | Dir _ es =>
      unique (map fst es)
      && forallb (fun e =>
                    match snd e with
                    | Dir _ _ => is_lower (fst e) && tidy (snd e)
                    | _ => negb (existsb (String.eqb (Str.lower (fst e)))
                                   (dir_names es))
                    end) es
  | _ => true
  end.

(** ** The menu *)

(** Modelled from the spec: [Server] of [server_updater.constants], the
    two games the updater serves. *)
Inductive Server : Type := A3 | REFORGER.

(** Modelled from the spec: [ServerConfig] of [server_updater.dtos], built
    by [_set_config] from its one keyword argument. *)
Record ServerConfig : Type := mkServerConfig { server_id : string }.

Definition A3_SERVER_ID : string := "233780".
Definition A3_MODS_LIST_PATH : path :=
  ["home"; "arma"; "scripts"; "arga-server-updater"; "server_updater";
   "arma3_mods_list"].
Definition A3_MOD_DEFAULT : string := "arga".

Definition REFORGER_SERVER_ID : string := "1874900".
Definition REFORGER_SERVER_DIR : string := "/home/arma/steamcmd/reforger".
Definition REFORGER_ARMA_BINARY : string := "./ArmaReforgerServer".
Definition REFORGER_CONFIG_FILE : string := "reforger_server_config.json".
Definition REFORGER_ARMA_MAX_FPS : Z := 60.
Definition REFORGER_ARMA_PROFILE : string := REFORGER_SERVER_DIR ++ "/profile".
Definition REFORGER_ARMA_CONFIG : string :=
  REFORGER_SERVER_DIR ++ "/config/" ++ REFORGER_CONFIG_FILE.
Definition REFORGER_ARMA_ARMA_PARAMS : string := EmptyString.

(** [str.upper], restricted to ASCII as [str.lower] is. *)
Definition upper_ascii (c : ascii) : ascii :=
  let n := nat_of_ascii c in
  if (97 <=? n)%nat && (n <=? 122)%nat then ascii_of_nat (n - 32) else c.

Fixpoint upper (s : string) : string :=
  match s with
  | EmptyString => EmptyString
  | String c s' => String (upper_ascii c) (upper s')
  end.

(** [open(p).read()]: the text of the regular file at [p].  A link, which
    would have to be followed, is reported as missing. *)
Fixpoint read_text (p : path) (t : node) : string + FS.errno :=
  match p with
  | [] => match t with
          | File data => inl data
          | Dir _ _ => inr FS.EISDIR
          | Symlink _ => inr FS.ENOENT
          end
  | n :: p' =>
      match t with
      | Dir _ es => match FS.assoc n es with
                    | Some c => read_text p' c
                    | None => inr FS.ENOENT
                    end
      | _ => inr FS.ENOTDIR
      end
  end.

(** What ends a call that the engine's own exceptions do not cover. *)
Inductive error : Type :=
| Exn (e : exn)
| KeyError (key : string)
| TypeError (msg : string)
| AttributeError (msg : string)
| SystemExit
| EOFError.

Inductive reply : Type :=
| Returned (w : World)
| Uncaught (e : error) (w : World)
| NoFuel.

(** A call of an engine method from the menu. *)
Definition lift (m : M unit) : World -> reply :=
  fun w => match m w with
           | Ok _ w' => Returned w'
           | Raised e w' => Uncaught (Exn e) w'
           | OutOfFuel => NoFuel
           end.

(** [first(); second()]. *)
Definition and_then (first second : World -> reply) : World -> reply :=
  fun w => match first w with
           | Returned w' => second w'
           | r => r
           end.

(** A bound method as the menu stores it: one that takes no argument, or
    one of the three that take [updated_mods]. *)
Inductive method : Type :=
| Method (call : World -> reply)
| Method_of_updated_mods (name : string) (call : dict -> M unit).

Definition missing_argument (name : string) : string :=
  "ServerUpdater." ++ name
  ++ "() missing 1 required positional argument: 'updated_mods'".

(** [method()], with no argument. *)
Definition call_ (m : method) : World -> reply :=
  match m with
  | Method call => call
  | Method_of_updated_mods name _ =>
      fun w => Uncaught (TypeError (missing_argument name)) w
  end.

(** [d[key]] on a dict of methods. *)
Fixpoint getitem (key : string) (d : list (string * method)) : option method :=
  match d with
  | [] => None
  | (k, m) :: d' => if String.eqb k key then Some m else getitem key d'
  end.

(** Modelled from the spec: what the menu needs of its surroundings.
    [Server.value] of [server_updater.constants]; [json.load] on the text
    of a mods list, [None] when the text is not JSON (the document is
    taken to be an object of strings when it is); what [os.system] leaves
    of the world when the command it runs returns. *)
Record Host : Type := mkHost {
  server_value : Server -> string;
  json_load : string -> option dict;
  os_system : string -> World -> World
}.

Module Menu.
Section Menu.

Variable env : Env.
Variable host : Host.

(** Fuel of the engine's loops. *)
Variable fuel : nat.

(** The arguments of [__init__]. *)
Variable server : Server.
Variable mods_list_name : option string.

Definition _set_config : ServerConfig :=
  match server with
  | A3 => mkServerConfig A3_SERVER_ID
  | REFORGER => mkServerConfig REFORGER_SERVER_ID
  end.

Definition indent : string := "                      ".

(** The prompts: each line of the triple-quoted strings starts on a new
    line, indented as the source is. *)
Definition _get_input_choices : string :=
  match server with
  | A3 =>
      Str.nl ++ indent ++ "A: Update server and Mods"
      ++ Str.nl ++ indent ++ "B: Update Mods only"
      ++ Str.nl ++ indent ++ "C: Update Server only"
      ++ Str.nl ++ indent ++ "D: Create mod symlinks"
      ++ Str.nl ++ indent ++ "E: Lower case mods"
      ++ Str.nl ++ indent ++ "F: Copy key files"
      ++ Str.nl ++ indent ++ "Q: Quit/Log Out"
      ++ Str.nl ++ indent ++ "Please enter your choice: "
  | REFORGER =>
      Str.nl ++ indent ++ "A: Update Server and run Reforger"
      ++ Str.nl ++ indent ++ "B: Run Reforger server"
      ++ Str.nl ++ indent ++ "C: Update Server only"
      ++ Str.nl ++ indent ++ "Q: Quit/Log Out"
      ++ Str.nl ++ indent ++ "Please enter your choice: "
  end.

(** The file of the mods list [_get_mods] opens; the list name is taken
    to be a single path component. *)
Definition mods_list_file (mods_list_name : option string) : path :=
  let mods_list_name :=
    match mods_list_name with
    | None => A3_MOD_DEFAULT
    | Some name => name
    end in
  A3_MODS_LIST_PATH ++ [(mods_list_name ++ ".json")%string].

(** [json.JSONDecodeError] is a [ValueError]. *)
Definition _get_mods (mods_list_name : option string) : M (option dict) :=
  match server with
  | REFORGER => ret None
  | A3 =>
      fun w =>
        match read_text (mods_list_file mods_list_name) (disk w) with
        | inl text =>
            match json_load host text with
            | Some mods => Ok (Some mods) w
            | None => Raised (ValueError "Expecting value") w
            end
        | inr e => Raised (OSError e) w
        end
  end.

Definition _update_server : M unit :=
  logger_log ("Updating " ++ server_value host server ++ " server ("
              ++ server_id _set_config ++ ")") ;;
  steamcmd_run env SERVER None.

(** [_update_mods] iterates over [mods_to_update.items()] first of all:
    [None] has no such attribute. *)
Definition _update_mods_only : World -> reply :=
  fun w =>
    match _get_mods mods_list_name w with
    | Ok (Some mods_to_update) w' =>
        lift (_update_mods_only env fuel mods_to_update) w'
    | Ok None w' =>
        Uncaught (AttributeError "'NoneType' object has no attribute 'items'")
          w'
    | Raised e w' => Uncaught (Exn e) w'
    | OutOfFuel => NoFuel
    end.

Definition _update_server_and_mods : World -> reply :=
  and_then (lift _update_server) _update_mods_only.

Definition launch : string :=
  String.concat " "
    [REFORGER_ARMA_BINARY;
     ("-config " ++ REFORGER_ARMA_CONFIG)%string;
     "-backendlog";
     "-nothrow";
     ("-maxFPS " ++ Str.of_Z REFORGER_ARMA_MAX_FPS)%string;
     ("-profile " ++ REFORGER_ARMA_PROFILE)%string;
     REFORGER_ARMA_ARMA_PARAMS].

(** [os.system] reports a failure of the command in its return value,
    which is not looked at; the handler of [OSError] has nothing to
    catch. *)
Definition _run_reforger_server : M unit :=
  print launch ;;
  fun w =>
    Ok tt (os_system host ("(cd " ++ REFORGER_SERVER_DIR ++ " && " ++ launch
                           ++ ")") w).

Definition _update_server_and_run_reforger : M unit :=
  _update_server ;;
  _run_reforger_server.

Definition _quit : World -> reply :=
  and_then (lift (print (Str.nl ++ "Closing Program now" ++ Str.nl)))
    (fun w => Uncaught SystemExit w).

(** The inner dict of [_get_choices] for the server at hand. *)
Definition _get_choices : list (string * method) :=
  match server with
  | A3 =>
      [("a", Method _update_server_and_mods);
       ("b", Method _update_mods_only);
       ("c", Method (lift _update_server));
       ("d", Method_of_updated_mods "_create_mod_symlinks"
               _create_mod_symlinks);
       ("e", Method_of_updated_mods "_lower_case_mods"
               (_lower_case_mods fuel));
       ("f", Method_of_updated_mods "_copy_key_files"
               (_copy_key_files fuel));
       ("q", Method _quit)]
  | REFORGER =>
      [("a", Method (lift _update_server_and_run_reforger));
       ("b", Method (lift _run_reforger_server));
       ("c", Method (lift _update_server));
       ("q", Method _quit)]
  end.

Definition run_choice (selected : string) : World -> reply :=
  fun w =>
    match getitem (Str.lower selected) _get_choices with
    | Some m => call_ m w
    | None => Uncaught (KeyError (Str.lower selected)) w
    end.

(** [options[-1]] of a list that is never empty. *)
Definition _get_options_to_print : string :=
  let options := map (fun o => upper (fst o)) _get_choices in
  String.concat ", " (removelast options) ++ " or " ++ last options EmptyString.

Definition _default : M unit :=
  let options := _get_options_to_print in
  print EmptyString ;;
  print ("You must only select either " ++ options ++ " to quit.") ;;
  print "Please try again" ;;
  time_sleep 1.

(** [input(prompt)]: the prompt goes to the console (recorded as console
    output, though no line break follows it), then a line of [stdin] is
    read; at the end of the input it raises [EOFError]. *)
Definition _input (stdin : list string) (w : World)
  : World * option (string * list string) :=
  (mkWorld (disk w) (trace w ++ [Stdout _get_input_choices]),
   match stdin with
   | [] => None
   | selected :: stdin' => Some (selected, stdin')
   end).

(** [run]: the loop has no exit but an exception; the result is the
    exception that ends it, the world then and the lines of [stdin] left
    unread.  [turns] bounds the number of prompts. *)
Fixpoint run (turns : nat) (stdin : list string) (w : World)
  : option (error * World * list string) :=
  match turns with
  | O => None
  | S turns' =>
      match _input stdin w with
      | (w1, None) => Some (EOFError, w1, [])
      | (w1, Some (selected, stdin')) =>
          match run_choice selected w1 with
          | Returned w2 => run turns' stdin' w2
          | Uncaught (KeyError _) w2 =>
              match _default w2 with
              | Ok _ w3 => run turns' stdin' w3
              | Raised e w3 => Some (Exn e, w3, stdin')
              | OutOfFuel => None
              end
          | Uncaught e w2 => Some (e, w2, stdin')
          | NoFuel => None
          end
      end
  end.

End Menu.
End Menu.

(** What the menu adds to the record when it rejects a choice: the prompt
    that was answered, then the lines of [_default] and its pause. *)
Definition rejection (server : Server) : list event :=
  [Stdout (Menu._get_input_choices server);
   Stdout EmptyString;
   Stdout ("You must only select either "
           ++ match server with
              | A3 => "A, B, C, D, E, F or Q"
              | REFORGER => "A, B, C or Q"
              end
           ++ " to quit.");
   Stdout "Please try again";
   Sleep 1].

(** ** More scenarios *)

Module Cases.

(** The mod is installed and a directory stands where its link is to be
    made. *)
Definition link_path_taken : World :=
  mkWorld
    (Scenario.disk_with [("450814997", Scenario.fetched)]
       [("@cba", Dir 0 [])]) [].

(** The mod is installed on a server that has no keys directory. *)
Definition no_keys_directory : World :=
  mkWorld
    (Dir 0 [("home", Dir 0 [("arma", Dir 0 [("steamcmd", Dir 0 [("arma3",
       Dir 0 [("steamapps", Dir 0 [("workshop", Dir 0 [("content",
         Dir 0 [("107410",
           Dir 0 [("450814997", Scenario.fetched)])])])])])])])])]) [].

(** The mod as delivered with lower case directories and upper case
    files. *)
Definition upper_case_files : World :=
  mkWorld
    (Scenario.disk_with
       [("450814997",
         Dir 1800000000000000
           [("addons",
             Dir 1800000000000000
               [("CBA_Main.PBO", File "pbo"); ("readme.txt", File "text")]);
            ("keys", Dir 1800000000000000 [("CBA.bikey", File "key")]);
            ("Mod.cpp", File "cpp")])]
       []) [].

(** A mod whose id is not a number. *)
Definition misspelled : dict := [("@cba", "45o814997")].

(** The mods list [arga.json]. *)
Definition mods_list_text : string :=
  "{" ++ Str.dq ++ "@cba" ++ Str.dq ++ ": " ++ Str.dq ++ "450814997"
  ++ Str.dq ++ "}".

(** A host that reads this one mods list and whose commands leave the
    world as it is. *)
Definition host : Host :=
  mkHost
    (fun server => match server with A3 => "arma3" | REFORGER => "reforger" end)
    (fun text =>
       if String.eqb text mods_list_text then Some Scenario.desired else None)
    (fun _ w => w).

(** The stale mod of [Scenario.stale], with the mods list in its place. *)
Definition with_mods_list : World :=
  mkWorld
    (Dir 0 [("home", Dir 0 [("arma", Dir 0
       [("scripts", Dir 0 [("arga-server-updater", Dir 0 [("server_updater",
           Dir 0 [("arma3_mods_list",
             Dir 0 [("arga.json", File mods_list_text)])])])]);
        ("steamcmd", Dir 0 [("arma3",
           Dir 0 [("keys", Dir 0 []);
                  ("steamapps", Dir 0 [("workshop", Dir 0 [("content",
                     Dir 0 [("107410",
                       Dir 0 [("450814997",
                         Dir 1600000000000000
                           [("addons",
                             Dir 1600000000000000
                               [("cba_main.pbo", File "old")])])])])])])])])])])])
    [].

End Cases.

(** * Theorems *)

(** C1 (the code departs from the claim).  The mod is absent and the fetch
    tool delivers its directory at the first attempt.  The retry loop tests
    the [is_dir] it was called with and never looks at the disk again: it
    makes all 10 attempts and the pass returns no updated mod, although the
    directory exists after each attempt. *)
Theorem update_mods_ignores_fetched_directory :
  exists w',
    _update_mods Scenario.env 10 Scenario.desired Scenario.absent
      = Ok None w' /\
    FS.isdir Scenario.mod_path (disk Scenario.absent) = false /\
    FS.isdir Scenario.mod_path
      (steamcmd_effect Scenario.env MOD (Some 450814997%Z) Scenario.absent)
      = true /\
    FS.isdir Scenario.mod_path (disk w') = true /\
    fetches 450814997 (trace w') = 10 /\
    In (Log (failed_line "@cba" 10)) (trace w').
Proof.
  eexists. split; [vm_compute; reflexivity|].
  repeat split; try (vm_compute; reflexivity).
  vm_compute. intuition.
Qed.

(** C2 (the code departs from the claim).  The mod is installed and stale.
    The pass reads the changelog, removes the directory and then passes the
    [is_dir] read before the removal to the retry loop, which makes no
    fetch attempt; the mod is returned as updated while its directory is
    gone.  For the same mod absent from the start the pass makes 10
    attempts. *)
Theorem stale_mod_deleted_never_fetched :
  exists w',
    _update_mods Scenario.env 10 Scenario.desired Scenario.stale
      = Ok (Some Scenario.desired) w' /\
    FS.isdir Scenario.mod_path (disk Scenario.stale) = true /\
    In (Rmtree Scenario.mod_path) (trace w') /\
    fetches 450814997 (trace w') = 0 /\
    FS.lookup Scenario.mod_path (disk w') = None /\
    (exists w'',
       _update_mods Scenario.env 10 Scenario.desired Scenario.absent
         = Ok None w'' /\
       fetches 450814997 (trace w'') = 10).
Proof.
  eexists. split; [vm_compute; reflexivity|].
  repeat split; try (vm_compute; reflexivity).
  - vm_compute. intuition.
  - eexists. split; vm_compute; reflexivity.
Qed.

(** C3 (the code departs from the claim).  [os.walk] goes top down: the
    directory [UPPER_DIR] is renamed while the walk stands on its parent,
    before anything below it was visited, and the walk then looks for it
    under its old name, finds nothing and passes on.  The file below it
    keeps its mixed case name and is not reachable at the lower case
    path. *)
Theorem lower_case_mods_leaves_nested_upper_case :
  exists w',
    _lower_case_mods 10 Scenario.desired Scenario.mixed_case = Ok tt w' /\
    trace w' =
      [Log "Converting uppercase files/folders to lowercase...";
       Rename (Scenario.mod_path ++ ["UPPER_DIR"])
              (Scenario.mod_path ++ ["upper_dir"]);
       Stdout ("Renamed: UPPER_DIR -> "
              ++ path_str (Scenario.mod_path ++ ["upper_dir"]))] /\
    FS.lookup (Scenario.mod_path ++ ["upper_dir"; "MixedCase.PBO"]) (disk w')
      = Some (File "pbo") /\
    FS.lookup (Scenario.mod_path ++ ["upper_dir"; "mixedcase.pbo"]) (disk w')
      = None /\
    option_map names_lower (FS.lookup Scenario.mod_path (disk w'))
      = Some false.
Proof.
  eexists. split; [vm_compute; reflexivity|].
  repeat split; vm_compute; reflexivity.
Qed.

(** C4 (the code departs from the claim).  [_delete_mod_if_needed] asks the
    staleness oracle, drops the answer and asks again: for a mod whose
    directory exists the changelog is read twice in one pass, whether the
    mod turns out fresh or stale. *)
Theorem staleness_oracle_called_twice :
  (exists w',
     _update_mods Scenario.env 10 Scenario.desired Scenario.fresh
       = Ok None w' /\
     trace w' =
       [UrlOpen (WORKSHOP_CHANGELOG_URL ++ "/450814997");
        UrlOpen (WORKSHOP_CHANGELOG_URL ++ "/450814997");
        Stdout (skipping_line "@cba" "450814997")] /\
     network_reads "450814997" (trace w') = 2) /\
  (exists w',
     _update_mods Scenario.env 10 Scenario.desired Scenario.stale
       = Ok (Some Scenario.desired) w' /\
     network_reads "450814997" (trace w') = 2).
Proof.
  split; eexists; (split; [vm_compute; reflexivity|]);
    repeat split; vm_compute; reflexivity.
Qed.

(** C7 (the code departs from the claim).  The mod is installed and stale,
    the remote does not change and the fetch tool works at every call.  The
    first run removes the directory and fetches nothing; the second run
    finds the mod absent, makes 10 fetch attempts and reports it failed: it
    returns no updated mod, but the mod is not skipped.  Only the third run
    skips it. *)
Theorem second_run_is_not_all_skipped :
  exists w1 w2 w3,
    _update_mods_only Scenario.env 10 Scenario.desired Scenario.stale
      = Ok tt w1 /\
    FS.lookup Scenario.mod_path (disk w1) = None /\
    _update_mods_only Scenario.env 10 Scenario.desired w1 = Ok tt w2 /\
    trace w2 =
      trace w1
      ++ flat_map (attempt_events "@cba" "450814997" 450814997)
           (map Z.of_nat (seq 1 10))
      ++ [Log (failed_line "@cba" 10); Log "All MODs are updated"; Stdout ""] /\
    _update_mods Scenario.env 10 Scenario.desired w1
      = Ok None (mkWorld (disk w2)
                   (trace w1
                    ++ flat_map (attempt_events "@cba" "450814997" 450814997)
                         (map Z.of_nat (seq 1 10))
                    ++ [Log (failed_line "@cba" 10)])) /\
    _update_mods_only Scenario.env 10 Scenario.desired w2 = Ok tt w3 /\
    trace w3 =
      trace w2
      ++ [UrlOpen (WORKSHOP_CHANGELOG_URL ++ "/450814997");
          UrlOpen (WORKSHOP_CHANGELOG_URL ++ "/450814997");
          Stdout (skipping_line "@cba" "450814997");
          Log "All MODs are updated"; Stdout ""].
Proof.
  do 3 eexists. split; [vm_compute; reflexivity|].
  split; [vm_compute; reflexivity|].
  split; [vm_compute; reflexivity|].
  split; [vm_compute; reflexivity|].
  split; [vm_compute; reflexivity|].
  split; vm_compute; reflexivity.
Qed.
(** ** The marker pattern yields a number *)

Lemma span_digits_all s ds rest :
  Str.span_digits s = (ds, rest) -> Str.all_digits ds = true.
Proof.
  revert ds rest. induction s as [|c s IH]; simpl; intros ds rest H.
  - inversion H; reflexivity.
  - destruct (Str.is_digit c) eqn:Hc.
    + destruct (Str.span_digits s) as [ds' rest'] eqn:Hs.
      inversion H; subst. simpl. rewrite Hc. simpl. eapply IH; reflexivity.
    + inversion H; reflexivity.
Qed.

Lemma p_tag_digits s ds :
  p_tag s = Some ds -> ds <> EmptyString /\ Str.all_digits ds = true.
Proof.
  unfold p_tag. destruct (String.prefix p_open s); [|discriminate].
  destruct (Str.span_digits _) as [ds' rest] eqn:Hs.
  destruct ds' as [|c ds']; [discriminate|].
  destruct (String.prefix p_close rest); [|discriminate].
  intros H; inversion H; subst. split; [discriminate|].
  eapply span_digits_all; eassumption.
Qed.

Lemma lazy_p_tag_digits s ds :
  lazy_p_tag s = Some ds -> ds <> EmptyString /\ Str.all_digits ds = true.
Proof.
  induction s as [|c s IH].
  - vm_compute. discriminate.
  - cbn [lazy_p_tag]. destruct (p_tag (String c s)) eqn:H.
    + intros E; inversion E; subst. now apply p_tag_digits in H.
    + exact IH.
Qed.

Lemma PATTERN_search_digits s ds :
  PATTERN_search s = Some ds -> ds <> EmptyString /\ Str.all_digits ds = true.
Proof.
  induction s as [|c s IH]; intros H.
  - vm_compute in H. discriminate.
  - cbn [PATTERN_search] in H.
    destruct (String.prefix marker (String c s)).
    + destruct (lazy_p_tag _) eqn:Hl.
      * inversion H; subst. now apply lazy_p_tag_digits in Hl.
      * now apply IH.
    + now apply IH.
Qed.

Lemma rev_onto_involutive s a b :
  Str.rev_onto (Str.rev_onto s a) b = Str.rev_onto a (s ++ b)%string.
Proof.
  revert a b. induction s as [|c s IH]; simpl; intros a b; [reflexivity|].
  rewrite IH. reflexivity.
Qed.

Lemma rev_involutive s : Str.rev (Str.rev s) = s.
Proof.
  unfold Str.rev. rewrite rev_onto_involutive. simpl.
  induction s as [|c s IH]; simpl; congruence.
Qed.

Lemma all_digits_rev_onto s acc :
  Str.all_digits s = true -> Str.all_digits acc = true ->
  Str.all_digits (Str.rev_onto s acc) = true.
Proof.
  revert acc. induction s as [|c s IH]; simpl; intros acc Hs Ha; [exact Ha|].
  apply andb_true_iff in Hs as [Hc Hs]. apply IH; [exact Hs|].
  simpl. now rewrite Hc.
Qed.

Lemma digit_not_space c : Str.is_digit c = true -> Str.is_space c = false.
Proof.
  unfold Str.is_digit, Str.is_space. intros H.
  apply andb_true_iff in H as [H1 H2].
  apply Nat.leb_le in H1. apply Nat.leb_le in H2.
  apply orb_false_iff; split.
  - apply andb_false_iff. right. apply Nat.leb_gt. lia.
  - apply Nat.eqb_neq. lia.
Qed.

Lemma lstrip_digits s : Str.all_digits s = true -> Str.lstrip s = s.
Proof.
  destruct s as [|c s]; simpl; [reflexivity|]. intros H.
  apply andb_true_iff in H as [Hc _].
  now rewrite (digit_not_space _ Hc).
Qed.

Lemma strip_digits s : Str.all_digits s = true -> Str.strip s = s.
Proof.
  intros H. unfold Str.strip. rewrite (lstrip_digits _ H).
  rewrite lstrip_digits; [apply rev_involutive|].
  now apply all_digits_rev_onto.
Qed.

Lemma int_digits_total b acc s :
  Str.all_digits s = true -> (b = true \/ s <> EmptyString) ->
  exists n, Str.int_digits b acc s = Some n.
Proof.
  revert b acc. induction s as [|c s IH]; simpl; intros b acc Hs Hb.
  - destruct Hb as [-> | Hb]; [eauto | congruence].
  - apply andb_true_iff in Hs as [Hc Hs]. rewrite Hc. apply IH; auto.
Qed.

Lemma digit_not_sign c :
  Str.is_digit c = true -> Ascii.eqb c "-" = false /\ Ascii.eqb c "+" = false.
Proof.
  intros H. split; apply Ascii.eqb_neq; intros ->; vm_compute in H; discriminate.
Qed.

(** Group 1 of a match of [PATTERN] is never refused by [int]. *)
Lemma int_of_digits s :
  s <> EmptyString -> Str.all_digits s = true -> exists n, Str.int s = Some n.
Proof.
  intros Hne Hs. unfold Str.int. rewrite (strip_digits _ Hs).
  destruct s as [|c s]; [congruence|].
  pose proof Hs as Hs'. simpl in Hs'. apply andb_true_iff in Hs' as [Hc _].
  destruct (digit_not_sign _ Hc) as [-> ->].
  apply int_digits_total; [exact Hs | right; discriminate].
Qed.

Lemma remote_updated_at_found response group1 :
  PATTERN_search response = Some group1 ->
  exists seconds, Str.int group1 = Some seconds /\
                  remote_updated_at response = Some (1000000 * seconds)%Z.
Proof.
  intros H. destruct (PATTERN_search_digits _ _ H) as [Hne Hd].
  destruct (int_of_digits _ Hne Hd) as [n Hn].
  exists n. split; [exact Hn|]. unfold remote_updated_at. rewrite H, Hn. reflexivity.
Qed.

(** C6.  The staleness check compares the two times as naive local
    datetimes, not as time stamps.  On a host in the zone Europe/Berlin,
    for a content directory that bears the time 2023-10-29 00:30:00 UTC
    and a changelog that reports an update at 01:00:00 UTC, thirty minutes
    later, the clock of the host reads 02:30:00 for the first and, set
    back in between, 02:00:00 for the second: the check reads the
    changelog and answers false, where
    [remote_updated_at >= local_created_at] is true. *)
Theorem mod_needs_update_wrong_across_fold :
  local_created_at Scenario.mod_path (disk Fold.world)
    = Some 1698539400000000%Z /\
  remote_updated_at Fold.changelog = Some 1698541200000000%Z /\
  is_stale (local_created_at Scenario.mod_path (disk Fold.world))
    (remote_updated_at Fold.changelog) = true /\
  _mod_needs_update Fold.env "450814997" Scenario.mod_path Fold.world
    = Ok false
        (mkWorld (disk Fold.world)
           [UrlOpen (WORKSHOP_CHANGELOG_URL ++ "/450814997")]) /\
  _update_mods Fold.env 10 Scenario.desired Fold.world
    = Ok None
        (mkWorld (disk Fold.world)
           [UrlOpen (WORKSHOP_CHANGELOG_URL ++ "/450814997");
            UrlOpen (WORKSHOP_CHANGELOG_URL ++ "/450814997");
            Stdout (skipping_line "@cba" "450814997")]).
Proof.
  split; [reflexivity|]. split; [reflexivity|]. split; [reflexivity|].
  split; vm_compute; reflexivity.
Qed.

(** ** The retry loop *)

Lemma fetches_app id evs1 evs2 :
  fetches id (evs1 ++ evs2) = (fetches id evs1 + fetches id evs2)%nat.
Proof. unfold fetches. now rewrite filter_app, length_app. Qed.

Lemma fetches_attempts mod_name mod_id id ks :
  fetches id (flat_map (attempt_events mod_name mod_id id) ks) = length ks.
Proof.
  induction ks as [|k ks IH]; [reflexivity|].
  cbn [flat_map]. rewrite fetches_app, IH.
  unfold fetches, attempt_events. cbn [filter is_fetch].
  now rewrite Z.eqb_refl.
Qed.

(** With the directory absent at the call, the loop makes every attempt
    that is left, whatever the fetch tool does to the disk. *)
Lemma retry_loop_exhausts env mod_id mod_name id :
  Str.int mod_id = Some id ->
  forall k fuel t w,
    (t + k = 10)%nat -> (k <= fuel)%nat ->
    exists w',
      while_ fuel (fun tries => negb false && (tries <? 10)%Z)
        (_try_once env mod_id mod_name) (Z.of_nat t) w = Ok 10%Z w' /\
      trace w' =
        trace w ++ flat_map (attempt_events mod_name mod_id id)
                     (map Z.of_nat (seq (S t) k)).
Proof.
  intros Hid. induction k as [|k IH]; intros fuel t w Ht Hf.
  - assert (t = 10)%nat by lia. subst t. exists w.
    destruct fuel; cbn; now rewrite app_nil_r.
  - destruct fuel as [|fuel]; [lia|].
    cbn [while_]. replace (Z.of_nat t <? 10)%Z with true
      by (symmetry; apply Z.ltb_lt; lia).
    cbv beta iota delta [negb andb].
    unfold bind at 1. unfold _try_once at 1.
    unfold bind, logger_log, emit, int_, steamcmd_run, time_sleep, ret.
    rewrite Hid. cbv beta iota. unfold ret, bind, emit. cbv beta iota.
    cbn [disk trace].
    replace (Z.of_nat t + 1)%Z with (Z.of_nat (S t)) by lia.
    match goal with
    | |- exists w', while_ _ _ _ _ ?w1 = _ /\ _ =>
        destruct (IH fuel (S t) w1) as [w' [Hrun Htr]]; [lia | lia |]
    end.
    exists w'. split; [exact Hrun|]. rewrite Htr. cbn [trace].
    cbn [seq map flat_map]. unfold attempt_events at 2.
    rewrite <- !app_assoc. reflexivity.
Qed.

Lemma try_to_update_mod_absent env fuel mod_id mod_name id w :
  Str.int mod_id = Some id -> (10 <= fuel)%nat ->
  exists w',
    _try_to_update_mod env fuel mod_id mod_name false w = Ok false w' /\
    trace w' =
      trace w
      ++ flat_map (attempt_events mod_name mod_id id) (map Z.of_nat (seq 1 10))
      ++ [Log (failed_line mod_name 10)].
Proof.
  intros Hid Hf.
  destruct (retry_loop_exhausts env mod_id mod_name id Hid 10 fuel 0 w
              eq_refl Hf) as [w1 [Hrun Htr]].
  unfold _try_to_update_mod, bind. change (Z.of_nat 0) with 0%Z in Hrun.
  rewrite Hrun. cbv beta iota.
  change (10 >=? 10)%Z with true. cbv beta iota.
  unfold logger_log, emit, ret. eexists. split; [reflexivity|].
  cbn [trace]. rewrite Htr. now rewrite <- app_assoc.
Qed.

(** C5.  A mod whose content directory is absent when its turn comes (as
    it is throughout the pass when the fetch tool never produces it) gets
    exactly 10 fetch attempts, whatever the tool leaves on the disk; the
    failure is logged, the mod is not added to the updated mods, and the
    pass goes on with the remaining mods.  Fuel for 10 turns of the loop is
    enough: the retry loop ends. *)
Theorem absent_mod_fails_after_ten_attempts
  env fuel mod_name mod_id id w :
  FS.isdir (A3_WORKSHOP_DIR ++ [mod_id]) (disk w) = false ->
  Str.int mod_id = Some id ->
  (10 <= fuel)%nat ->
  exists w',
    trace w' =
      trace w
      ++ flat_map (attempt_events mod_name mod_id id) (map Z.of_nat (seq 1 10))
      ++ [Log (failed_line mod_name 10)] /\
    fetches id (trace w') = (fetches id (trace w) + 10)%nat /\
    (forall updated_mods,
       _update_mod env fuel mod_name mod_id updated_mods w
         = Ok updated_mods w' /\
       forall rest,
         _update_mods_loop env fuel ((mod_name, mod_id) :: rest) updated_mods w
           = _update_mods_loop env fuel rest updated_mods w') /\
    (forall rest,
       _update_mods env fuel ((mod_name, mod_id) :: rest) w
         = _update_mods env fuel rest w').
Proof.
  intros Hdir Hid Hf.
  destruct (try_to_update_mod_absent env fuel mod_id mod_name id w Hid Hf)
    as [w' [Hrun Htr]].
  assert (Hstep : forall updated_mods,
             _update_mod env fuel mod_name mod_id updated_mods w
               = Ok updated_mods w').
  { intros updated_mods.
    unfold _update_mod, _delete_mod_if_needed, _mod_needs_update, bind,
      os_path_isdir, ret.
    rewrite Hdir. cbv beta iota delta [negb andb]. rewrite Hrun. reflexivity. }
  exists w'. split; [exact Htr|]. split; [|split].
  - rewrite Htr, !fetches_app, fetches_attempts, length_map, length_seq.
    change (fetches id [Log (failed_line mod_name 10)]) with 0%nat. lia.
  - intros updated_mods. split; [apply Hstep|].
    intros rest. unfold _update_mods_loop. cbn [for_fold]. unfold bind at 1.
    now rewrite Hstep.
  - intros rest. unfold _update_mods, _update_mods_loop. cbn [for_fold].
    unfold bind at 1 3. unfold bind at 1. now rewrite Hstep.
Qed.

Lemma absent_mod_fails_after_ten_attempts_witness :
  FS.isdir (A3_WORKSHOP_DIR ++ ["450814997"]) (disk Scenario.absent) = false /\
  Str.int "450814997" = Some 450814997%Z /\
  (10 <= 10)%nat /\
  exists w',
    trace w' =
      trace Scenario.absent
      ++ flat_map (attempt_events "@cba" "450814997" 450814997)
           (map Z.of_nat (seq 1 10))
      ++ [Log (failed_line "@cba" 10)] /\
    fetches 450814997 (trace w')
      = (fetches 450814997 (trace Scenario.absent) + 10)%nat /\
    (forall updated_mods,
       _update_mod Scenario.env 10 "@cba" "450814997" updated_mods
         Scenario.absent = Ok updated_mods w' /\
       forall rest,
         _update_mods_loop Scenario.env 10 (("@cba", "450814997") :: rest)
           updated_mods Scenario.absent
           = _update_mods_loop Scenario.env 10 rest updated_mods w') /\
    (forall rest,
       _update_mods Scenario.env 10 (("@cba", "450814997") :: rest)
         Scenario.absent
         = _update_mods Scenario.env 10 rest w').
Proof.
  split; [reflexivity|]. split; [reflexivity|]. split; [apply le_n|].
  apply (absent_mod_fails_after_ten_attempts Scenario.env 10 "@cba"
           "450814997" 450814997 Scenario.absent);
    [reflexivity | reflexivity | apply le_n].
Defined.

(** ** Paths and directory trees *)

Lemma is_prefix_refl p : FS.is_prefix p p = true.
Proof. induction p as [|a p IH]; simpl; [reflexivity|]. now rewrite String.eqb_refl. Qed.

Lemma path_eqb_refl p : FS.path_eqb p p = true.
Proof. unfold FS.path_eqb. now rewrite is_prefix_refl. Qed.

Lemma path_eqb_eq p q : FS.path_eqb p q = true -> p = q.
Proof.
  unfold FS.path_eqb. revert q.
  induction p as [|a p IH]; intros [|b q]; simpl; try reflexivity;
    try discriminate.
  intros H. apply andb_true_iff in H as [H1 H2].
  apply andb_true_iff in H1 as [Hab H1]. apply andb_true_iff in H2 as [_ H2].
  apply String.eqb_eq in Hab. subst b. f_equal. apply IH.
  now rewrite H1, H2.
Qed.

Lemma lookup_app p q t :
  FS.lookup (p ++ q) t =
  match FS.lookup p t with Some t' => FS.lookup q t' | None => None end.
Proof.
  revert t. induction p as [|n p IH]; intros t; simpl; [reflexivity|].
  destruct t as [| |c es]; try reflexivity.
  destruct (FS.assoc n es); [apply IH | reflexivity].
Qed.

Lemma assoc_In n es c : FS.assoc n es = Some c -> In (n, c) es.
Proof.
  induction es as [|[m d] es IH]; simpl; [discriminate|].
  destruct (String.eqb m n) eqn:E.
  - apply String.eqb_eq in E. subst m. intros H; inversion H; subst. now left.
  - intros H. right. now apply IH.
Qed.

Lemma lookup_child top t c es n :
  FS.lookup top t = Some (Dir c es) ->
  FS.lookup (top ++ [n]) t = FS.assoc n es.
Proof.
  intros H. rewrite lookup_app, H. simpl. now destruct (FS.assoc n es).
Qed.

Lemma names_lower_child c es n t :
  names_lower (Dir c es) = true -> In (n, t) es ->
  is_lower n = true /\ names_lower t = true.
Proof.
  simpl. intros H Hin. rewrite forallb_forall in H.
  specialize (H _ Hin). now apply andb_true_iff in H.
Qed.

Lemma height_child c es n t :
  In (n, t) es -> (height t < height (Dir c es))%nat.
Proof.
  simpl. induction es as [|[m d] es IH]; simpl; [contradiction|].
  intros [H|H].
  - inversion H; subst. lia.
  - specialize (IH H). lia.
Qed.

Lemma scandir_names top t dirs files :
  FS.scandir top t = Some (dirs, files) ->
  exists c es,
    FS.lookup top t = Some (Dir c es) /\
    dirs = map fst (filter (fun e => FS.is_dir_node (snd e)) es) /\
    files = map fst (filter (fun e => negb (FS.is_dir_node (snd e))) es).
Proof.
  unfold FS.scandir. destruct (FS.lookup top t) as [[| |c es]|]; try discriminate.
  intros H; inversion H; subst. now exists c, es.
Qed.

Lemma In_filtered_name (f : string * node -> bool) es n :
  In n (map fst (filter f es)) -> exists t, In (n, t) es /\ f (n, t) = true.
Proof.
  intros H. apply in_map_iff in H as [[m t] [Hm Hin]]. simpl in Hm. subst m.
  apply filter_In in Hin as [Hin Hf]. now exists t.
Qed.

(** ** Loops that change nothing *)

Lemma for_unchanged {A} (xs : list A) (body : A -> M unit) w :
  (forall x, In x xs -> body x w = Ok tt w) -> for_ xs body w = Ok tt w.
Proof.
  induction xs as [|x xs IH]; intros H; [reflexivity|].
  cbn [for_]. unfold bind. rewrite (H x (or_introl eq_refl)).
  apply IH. intros y Hy. apply H. now right.
Qed.

Lemma for_fold_unchanged {A St} (xs : list A) (body : A -> St -> M St) s w :
  (forall x, In x xs -> body x s w = Ok s w) ->
  for_fold xs body s w = Ok s w.
Proof.
  induction xs as [|x xs IH]; intros H; [reflexivity|].
  cbn [for_fold]. unfold bind. rewrite (H x (or_introl eq_refl)).
  apply IH. intros y Hy. apply H. now right.
Qed.

(** ** Changing one entry of the tree *)

Lemma assoc_set_entry_same n c es :
  FS.assoc n (FS.set_entry n (Some c) es) = Some c.
Proof.
  induction es as [|[m d] es IH]; simpl.
  - now rewrite String.eqb_refl.
  - destruct (String.eqb m n) eqn:E; simpl; rewrite E; [reflexivity | exact IH].
Qed.

Lemma assoc_set_entry_other m n v es :
  m <> n -> FS.assoc m (FS.set_entry n v es) = FS.assoc m es.
Proof.
  intros Hmn. induction es as [|[k d] es IH]; simpl.
  - destruct v; simpl; [|reflexivity].
    destruct (String.eqb n m) eqn:E; [|reflexivity].
    apply String.eqb_eq in E. congruence.
  - destruct (String.eqb k n) eqn:E.
    + apply String.eqb_eq in E. subst k.
      destruct (String.eqb n m) eqn:E'.
      * apply String.eqb_eq in E'. congruence.
      * destruct v; simpl; [now rewrite E' | reflexivity].
    + simpl. now rewrite IH.
Qed.

Lemma update_cons n a p v t :
  FS.update (n :: a :: p) v t =
  match t with
  | Dir c es =>
      match FS.assoc n es with
      | Some child =>
          match FS.update (a :: p) v child with
          | Some child' => Some (Dir c (FS.set_entry n (Some child') es))
          | None => None
          end
      | None => None
      end
  | _ => None
  end.
Proof. destruct t; reflexivity. Qed.

Lemma update_child p : forall t c es n v,
  FS.lookup p t = Some (Dir c es) ->
  exists t',
    FS.update (p ++ [n]) v t = Some t' /\
    FS.lookup p t' = Some (Dir c (FS.set_entry n v es)).
Proof.
  induction p as [|m p IH]; intros t c es n v H.
  - simpl in H. injection H as ->. simpl. eauto.
  - simpl in H. destruct t as [| |c0 es0]; try discriminate.
    destruct (FS.assoc m es0) as [child|] eqn:Hm; [|discriminate].
    destruct (IH child c es n v H) as [child' [Hu Hl]].
    exists (Dir c0 (FS.set_entry m (Some child') es0)). split.
    + destruct (p ++ [n]) as [|a q] eqn:Hq; [now destruct p|].
      change ((m :: p) ++ [n]) with (m :: (p ++ [n])). rewrite Hq.
      rewrite update_cons, Hm, Hu. reflexivity.
    + simpl. now rewrite assoc_set_entry_same.
Qed.

(** A change below one entry of a directory is not seen below another. *)
Lemma lookup_update_other pre : forall a b r1 r2 v t t',
  a <> b ->
  FS.update (pre ++ a :: r1) v t = Some t' ->
  FS.lookup (pre ++ b :: r2) t' = FS.lookup (pre ++ b :: r2) t.
Proof.
  induction pre as [|x pre IH]; intros a b r1 r2 v t t' Hab Hu.
  - simpl in Hu. destruct t as [| |c es]; try discriminate.
    destruct r1 as [|a' r1].
    + injection Hu as <-. simpl. rewrite assoc_set_entry_other; congruence.
    + destruct (FS.assoc a es) as [child|]; [|discriminate].
      destruct (FS.update (a' :: r1) v child); [|discriminate].
      injection Hu as <-. simpl. rewrite assoc_set_entry_other; congruence.
  - change ((x :: pre) ++ a :: r1) with (x :: (pre ++ a :: r1)) in Hu.
    destruct (pre ++ a :: r1) as [|y q] eqn:Hq; [now destruct pre|].
    rewrite update_cons in Hu. destruct t as [| |c es]; try discriminate.
    destruct (FS.assoc x es) as [child|] eqn:Hx; [|discriminate].
    destruct (FS.update (y :: q) v child) as [child'|] eqn:Hc; [|discriminate].
    injection Hu as <-. rewrite <- Hq in Hc.
    simpl. rewrite assoc_set_entry_same, Hx.
    eapply IH; eassumption.
Qed.

Lemma lookup_below_dir p n q t x :
  FS.lookup (p ++ n :: q) t = Some x ->
  exists c es, FS.lookup p t = Some (Dir c es).
Proof.
  rewrite lookup_app. destruct (FS.lookup p t) as [[| |c es]|]; try discriminate.
  eauto.
Qed.

(** ** The layout normalizer on lower case trees *)

Lemma lower_path_app p q : lower_path (p ++ q) = lower_path p ++ lower_path q.
Proof. apply map_app. Qed.

Lemma lower_case_entry_skips root filename w :
  lower_path root = root -> is_lower filename = true ->
  _lower_case_entry root filename w = Ok tt w.
Proof.
  intros Hroot Hname. unfold _lower_case_entry.
  rewrite lower_path_app, Hroot. cbn [lower_path map].
  apply String.eqb_eq in Hname. rewrite Hname.
  now rewrite path_eqb_refl.
Qed.

Lemma lower_case_walk_unchanged depth : forall top w,
  lower_path top = top ->
  (forall t, FS.lookup top (disk w) = Some t ->
             names_lower t = true /\ (height t <= depth)%nat) ->
  os_walk depth top
    (fun root dirs files _ => for_ (files ++ dirs) (_lower_case_entry root))
    tt w = Ok tt w.
Proof.
  induction depth as [|depth IH]; intros top w Htop Ht.
  - cbn [os_walk]. destruct (FS.scandir top (disk w)) as [[dirs files]|] eqn:Hs;
      [|reflexivity].
    destruct (scandir_names _ _ _ _ Hs) as [c [es [Hl _]]].
    destruct (Ht _ Hl) as [_ Hh]. simpl in Hh. lia.
  - cbn [os_walk]. destruct (FS.scandir top (disk w)) as [[dirs files]|] eqn:Hs;
      [|reflexivity].
    destruct (scandir_names _ _ _ _ Hs) as [c [es [Hl [Hdirs Hfiles]]]].
    destruct (Ht _ Hl) as [Hlow Hh].
    unfold bind at 1. rewrite for_unchanged.
    + apply for_fold_unchanged. intros d Hd. cbv beta zeta.
      unfold bind, os_path_islink.
      destruct (FS.islink (top ++ [d]) (disk w)); [reflexivity|].
      rewrite Hdirs in Hd. apply In_filtered_name in Hd as [t [Hin _]].
      destruct (names_lower_child _ _ _ _ Hlow Hin) as [Hn _].
      apply IH.
      * rewrite lower_path_app, Htop. cbn [lower_path map].
        apply String.eqb_eq in Hn. now rewrite Hn.
      * intros t' Ht'. rewrite (lookup_child _ _ _ _ d Hl) in Ht'.
        apply assoc_In in Ht'.
        destruct (names_lower_child _ _ _ _ Hlow Ht') as [_ Hlow'].
        split; [exact Hlow'|].
        pose proof (height_child c _ _ _ Ht'). lia.
    + intros n Hn. apply lower_case_entry_skips; [exact Htop|].
      apply in_app_or in Hn. rewrite Hdirs, Hfiles in Hn.
      destruct Hn as [Hn|Hn]; apply In_filtered_name in Hn as [t [Hin _]];
        now destruct (names_lower_child _ _ _ _ Hlow Hin).
Qed.

(** C10.  On content trees in which every name, that of the mod's own
    directory included, is lower case, the layout normalizer calls
    [os.rename] not once: each entry is skipped because its lower-cased
    path is its path, the disk is left as it was and only the opening line
    is logged.  So a second application to trees that a first one has
    fully normalized renames nothing.  The walk needs fuel for the height
    of the trees. *)
Theorem lower_case_mods_renames_nothing fuel updated_mods w :
  (forall value, In value (values updated_mods) ->
     is_lower value = true /\
     forall t, FS.lookup (A3_WORKSHOP_DIR ++ [value]) (disk w) = Some t ->
               names_lower t = true /\ (height t <= fuel)%nat) ->
  exists w',
    _lower_case_mods fuel updated_mods w = Ok tt w' /\
    disk w' = disk w /\
    trace w' =
      trace w ++ [Log "Converting uppercase files/folders to lowercase..."] /\
    renames (trace w') = renames (trace w).
Proof.
  intros H. eexists. split; [|split; [|split]].
  - unfold _lower_case_mods, bind, logger_log, emit.
    apply for_unchanged. intros value Hv. cbv beta zeta.
    destruct (H value Hv) as [Hlow Ht].
    apply lower_case_walk_unchanged.
    + rewrite lower_path_app. cbn [lower_path map].
      apply String.eqb_eq in Hlow. rewrite Hlow. reflexivity.
    + exact Ht.
  - reflexivity.
  - reflexivity.
  - cbn [trace]. unfold renames. rewrite filter_app, length_app. simpl. lia.
Qed.

Lemma lower_case_mods_renames_nothing_witness :
  (forall value, In value (values Scenario.desired) ->
     is_lower value = true /\
     forall t,
       FS.lookup (A3_WORKSHOP_DIR ++ [value]) (disk Scenario.fresh) = Some t ->
       names_lower t = true /\ (height t <= 3)%nat) /\
  exists w',
    _lower_case_mods 3 Scenario.desired Scenario.fresh = Ok tt w' /\
    disk w' = disk Scenario.fresh /\
    trace w' =
      trace Scenario.fresh
      ++ [Log "Converting uppercase files/folders to lowercase..."] /\
    renames (trace w') = renames (trace Scenario.fresh).
Proof.
  assert (H : forall value, In value (values Scenario.desired) ->
     is_lower value = true /\
     forall t,
       FS.lookup (A3_WORKSHOP_DIR ++ [value]) (disk Scenario.fresh) = Some t ->
       names_lower t = true /\ (height t <= 3)%nat).
  { intros value [<-|[]]. split; [reflexivity|].
    intros t Ht. vm_compute in Ht. injection Ht as <-.
    split; [reflexivity|]. vm_compute. repeat constructor. }
  split; [exact H|].
  exact (lower_case_mods_renames_nothing 3 Scenario.desired Scenario.fresh H).
Defined.

(** ** The link manager *)


(** The three ways one turn of the loop can go. *)
Lemma create_mod_symlink_cases mod_name mod_id w :
  let link_path := A3_MODS_DIR ++ [mod_name] in
  let real_path := A3_WORKSHOP_DIR ++ [mod_id] in
  (FS.isdir real_path (disk w) = false /\
   exists line,
     _create_mod_symlink mod_name mod_id w
       = Ok tt (mkWorld (disk w) (trace w ++ [Stdout line]))) \/
  (FS.isdir real_path (disk w) = true /\
   FS.islink link_path (disk w) = true /\
   _create_mod_symlink mod_name mod_id w = Ok tt w) \/
  (FS.isdir real_path (disk w) = true /\
   FS.islink link_path (disk w) = false /\
   ((exists t' line,
       FS.lookup link_path (disk w) = None /\
       FS.update link_path (Some (Symlink real_path)) (disk w) = Some t' /\
       FS.lookup link_path t' = Some (Symlink real_path) /\
       _create_mod_symlink mod_name mod_id w
         = Ok tt (mkWorld t' ((trace w ++ [MkSymlink real_path link_path])
                              ++ [Stdout line]))) \/
    (FS.lookup link_path (disk w) <> None /\
     _create_mod_symlink mod_name mod_id w
       = Raised (OSError FS.EEXIST)
           (mkWorld (disk w) (trace w ++ [MkSymlink real_path link_path]))))).
Proof.
  intros link_path real_path.
  unfold _create_mod_symlink, bind, os_path_isdir, os_path_islink.
  fold link_path. fold real_path.
  destruct (FS.isdir real_path (disk w)) eqn:Hdir; cbv beta iota delta [negb].
  - right. destruct (FS.islink link_path (disk w)) eqn:Hlink.
    + left. auto.
    + right. split; [reflexivity|]. split; [reflexivity|].
      unfold os_symlink, syscall, bind, emit, print. cbv beta iota.
      cbn [disk trace]. unfold FS.symlink.
      destruct (FS.lookup link_path (disk w)) as [x|] eqn:Hl.
      * right. split; [discriminate | reflexivity].
      * left. unfold FS.isdir in Hdir.
        destruct (FS.lookup real_path (disk w)) as [x|] eqn:Hr; [|discriminate].
        unfold real_path, A3_WORKSHOP_DIR in Hr. rewrite <- app_assoc in Hr.
        destruct (lookup_below_dir _ _ _ _ _ Hr) as [c [es Hroot]].
        destruct (update_child _ _ _ _ mod_name (Some (Symlink real_path)) Hroot)
          as [t' [Hu Hl']].
        fold A3_MODS_DIR in Hu. fold link_path in Hu.
        exists t'. eexists. split; [reflexivity|]. split; [exact Hu|].
        split.
        -- unfold link_path, A3_MODS_DIR.
           rewrite (lookup_child _ _ _ _ mod_name Hl').
           apply assoc_set_entry_same.
        -- rewrite Hu. reflexivity.
  - left. split; [reflexivity|]. eexists. reflexivity.
Qed.










(** ** Copying one key file *)

Lemma unique_assoc n c es :
  unique (map fst es) = true -> In (n, c) es -> FS.assoc n es = Some c.
Proof.
  induction es as [|[m d] es IH]; simpl; [contradiction|].
  intros Hu Hin. apply andb_true_iff in Hu as [Hm Hu].
  destruct Hin as [Hin|Hin].
  - injection Hin as -> ->. now rewrite String.eqb_refl.
  - destruct (String.eqb m n) eqn:E; [|now apply IH].
    apply String.eqb_eq in E. subst m. exfalso.
    apply negb_true_iff in Hm.
    assert (existsb (String.eqb n) (map fst es) = true); [|congruence].
    apply existsb_exists. exists n. split; [|apply String.eqb_refl].
    apply in_map_iff. now exists (n, c).
Qed.

Lemma flat_destination_dir d :
  flat_destination d = true ->
  exists c es,
    FS.lookup A3_MOD_KEYS_DESTINATION_DIRECTORY d = Some (Dir c es) /\
    forallb (fun e => is_file (snd e)) es = true.
Proof.
  unfold flat_destination.
  destruct (FS.lookup _ d) as [[| |c es]|]; try discriminate. eauto.
Qed.

Lemma forallb_set_entry (f : string * node -> bool) n c es :
  (forall m, f (m, c) = true) ->
  forallb f es = true ->
  forallb f (FS.set_entry n (Some c) es) = true.
Proof.
  intros Hc. induction es as [|[m d] es IH]; simpl; intros H.
  - now rewrite Hc.
  - apply andb_true_iff in H as [H1 H2].
    destruct (String.eqb m n); simpl.
    + now rewrite Hc, H2.
    + now rewrite H1, IH.
Qed.

Lemma flat_entry_not_dir es n :
  forallb (fun e => is_file (snd e)) es = true ->
  match FS.assoc n es with
  | Some (File _) | None => True
  | Some _ => False
  end.
Proof.
  intros H. destruct (FS.assoc n es) as [x|] eqn:E; [|exact I].
  apply assoc_In in E. rewrite forallb_forall in H. specialize (H _ E).
  destruct x; simpl in H; try discriminate. exact I.
Qed.

Lemma outside_keys_app p q : outside_keys p -> outside_keys (p ++ q).
Proof.
  intros [x [r [-> Hx]]]. exists x, (r ++ q). split; [|exact Hx].
  now rewrite <- app_assoc.
Qed.

Lemma outside_keys_not_destination p file :
  outside_keys p ->
  FS.path_eqb p (A3_MOD_KEYS_DESTINATION_DIRECTORY ++ [file]) = false.
Proof.
  intros [x [r [-> Hx]]].
  destruct (FS.path_eqb _ _) eqn:E; [|reflexivity].
  apply path_eqb_eq in E. unfold A3_MOD_KEYS_DESTINATION_DIRECTORY in E.
  rewrite <- app_assoc in E. apply app_inv_head in E.
  injection E as E _. congruence.
Qed.

Lemma source_outside_keys value :
  outside_keys (A3_MOD_KEYS_SOURCE_DIRECTORY ++ [value]).
Proof.
  exists "steamapps", ["workshop"; "content"; A3_WORKSHOP_ID; value].
  split; [reflexivity | discriminate].
Qed.

Lemma copied_refl w : flat_destination (disk w) = true -> copied w w [].
Proof.
  intros H. constructor; try reflexivity; try exact H.
  - intros p _. reflexivity.
  - now rewrite app_nil_r.
  - intros d n [].
Qed.

Lemma copy_key_file_copies root file wc w data :
  outside_keys root ->
  flat_destination (disk w) = true ->
  is_key file = true ->
  FS.lookup (root ++ [file]) (disk w) = Some (File data) ->
  exists w',
    _copy_key_file root file wc w = Ok true w' /\ copied w w' [(root, file)].
Proof.
  intros Hout Hflat Hkey Hsrc.
  destruct (flat_destination_dir _ Hflat) as [c [es [Hdst Hes]]].
  pose proof (flat_entry_not_dir es file Hes) as Hentry.
  destruct (update_child _ _ _ _ file (Some (File data)) Hdst)
    as [t' [Hupd Hdst']].
  pose proof (lookup_child _ _ _ _ file Hdst) as Hold.
  assert (Hcopy : FS.copy (root ++ [file])
                    (A3_MOD_KEYS_DESTINATION_DIRECTORY ++ [file]) (disk w)
                  = FS.Done t').
  { unfold FS.copy, FS.isdir. rewrite Hold.
    destruct (FS.assoc file es) as [[| |]|]; try contradiction;
      rewrite (outside_keys_not_destination _ file (outside_keys_app _ [file] Hout)),
        Hsrc, Hold, Hupd; reflexivity. }
  exists (mkWorld t'
            ((trace w ++ [Stdout ("Copy " ++ file ++ " file")])
             ++ [Copy (root ++ [file])
                   (A3_MOD_KEYS_DESTINATION_DIRECTORY ++ [file])])).
  split.
  - unfold _copy_key_file. fold (is_key file). rewrite Hkey.
    cbv beta iota delta [negb].
    unfold bind, print, shutil_copy, syscall, bind, emit, ret.
    cbn [disk trace]. rewrite Hcopy. reflexivity.
  - constructor; cbn [disk trace].
    + intros p [x [r [-> Hx]]].
      eapply (lookup_update_other A3_SERVER_DIR "keys" x [file] r).
      * congruence.
      * exact Hupd.
    + unfold flat_destination. rewrite Hdst'.
      apply forallb_set_entry; [reflexivity | exact Hes].
    + unfold copy_events. cbn [flat_map fst snd app].
      now rewrite <- app_assoc.
    + intros m Hm. rewrite (lookup_child _ _ _ _ m Hdst'), (lookup_child _ _ _ _ m Hdst).
      apply assoc_set_entry_other. intros ->. apply Hm. now left.
    + intros d n [E|[]]. injection E as <- <-.
      exists root, data. split; [now left|]. split; [exact Hsrc|].
      rewrite (lookup_child _ _ _ _ file Hdst'). apply assoc_set_entry_same.
Qed.

Lemma copy_key_file_skips root file wc w :
  is_key file = false -> _copy_key_file root file wc w = Ok wc w.
Proof.
  intros H. unfold _copy_key_file. fold (is_key file). now rewrite H.
Qed.

(** ** Copying the key files of a tree *)

Lemma copy_events_app ks1 ks2 :
  copy_events (ks1 ++ ks2) = copy_events ks1 ++ copy_events ks2.
Proof. apply flat_map_app. Qed.

Lemma nonempty_app {A} (l1 l2 : list A) :
  nonempty (l1 ++ l2) = nonempty l1 || nonempty l2.
Proof. destruct l1; reflexivity. Qed.

Lemma nonempty_map {A B} (f : A -> B) l : nonempty (map f l) = nonempty l.
Proof. destruct l; reflexivity. Qed.

Lemma copied_trans w w1 w2 ks1 ks2 :
  copied w w1 ks1 -> copied w1 w2 ks2 ->
  (forall d n, In (d, n) ks2 -> outside_keys d) ->
  copied w w2 (ks1 ++ ks2).
Proof.
  intros [S1 F1 T1 O1 K1] [S2 F2 T2 O2 K2] Hout. constructor.
  - intros p Hp. rewrite (S2 p Hp). apply S1, Hp.
  - exact F2.
  - rewrite T2, T1, copy_events_app. now rewrite app_assoc.
  - intros m Hm. rewrite map_app, in_app_iff in Hm.
    rewrite O2 by tauto. apply O1. tauto.
  - intros d n Hin.
    destruct (in_dec string_dec n (map snd ks2)) as [Hn|Hn].
    + apply in_map_iff in Hn as [[d2 n2] [E Hin2]]. simpl in E. subst n2.
      destruct (K2 _ _ Hin2) as [d' [data [Hin' [Hsrc Hdst]]]].
      exists d', data. split; [apply in_or_app; now right|].
      split; [|exact Hdst].
      rewrite <- Hsrc. symmetry. apply S1.
      apply outside_keys_app. eapply Hout; eassumption.
    + apply in_app_or in Hin. destruct Hin as [Hin|Hin].
      * destruct (K1 _ _ Hin) as [d' [data [Hin' [Hsrc Hdst]]]].
        exists d', data. split; [apply in_or_app; now left|].
        split; [exact Hsrc|]. rewrite O2 by exact Hn. exact Hdst.
      * exfalso. apply Hn. apply in_map_iff. now exists (d, n).
Qed.

Lemma copy_files_loop root : forall files wc w,
  outside_keys root ->
  flat_destination (disk w) = true ->
  (forall f, In f files -> is_key f = true ->
     exists data, FS.lookup (root ++ [f]) (disk w) = Some (File data)) ->
  exists w',
    for_fold files (_copy_key_file root) wc w
      = Ok (wc || nonempty (filter is_key files)) w' /\
    copied w w' (map (pair root) (filter is_key files)).
Proof.
  induction files as [|f files IH]; intros wc w Hout Hflat Hsrc.
  - exists w. split; [cbn; now rewrite orb_false_r | now apply copied_refl].
  - cbn [for_fold filter]. unfold bind at 1.
    destruct (is_key f) eqn:Hk.
    + destruct (Hsrc f (or_introl eq_refl) Hk) as [data Hdata].
      destruct (copy_key_file_copies root f wc w data Hout Hflat Hk Hdata)
        as [w1 [Hrun Hc1]].
      rewrite Hrun.
      destruct (IH true w1 Hout (copied_flat _ _ _ Hc1)) as [w2 [Hrun2 Hc2]].
      { intros g Hg Hkg. destruct (Hsrc g (or_intror Hg) Hkg) as [dg Hdg].
        exists dg. rewrite <- Hdg. apply (copied_store _ _ _ Hc1).
        now apply outside_keys_app. }
      exists w2. split.
      * rewrite Hrun2. cbn. now rewrite orb_true_r.
      * change (map (pair root) (f :: filter is_key files))
          with ([(root, f)] ++ map (pair root) (filter is_key files)).
        eapply copied_trans; [exact Hc1 | exact Hc2 |].
        intros d n Hin. apply in_map_iff in Hin as [x [E _]].
        injection E as <- _. exact Hout.
    + rewrite (copy_key_file_skips root f wc w Hk).
      apply IH; [exact Hout | exact Hflat |].
      intros g Hg. apply Hsrc. now right.
Qed.

Lemma well_formed_child c es n t :
  well_formed (Dir c es) = true -> In (n, t) es ->
  FS.assoc n es = Some t /\ well_formed t = true.
Proof.
  simpl. intros H Hin. apply andb_true_iff in H as [Hu Hf]. split.
  - now apply unique_assoc.
  - rewrite forallb_forall in Hf. exact (Hf _ Hin).
Qed.

Lemma keys_regular_child c es n t :
  keys_regular (Dir c es) = true -> In (n, t) es ->
  keys_regular t = true /\
  (FS.is_dir_node t = false -> is_key n = true -> exists data, t = File data).
Proof.
  simpl. intros H Hin. rewrite forallb_forall in H. specialize (H _ Hin).
  simpl in H. destruct t as [data|target|c' es']; simpl.
  - split; [reflexivity|]. eauto.
  - split; [reflexivity|]. intros _ Hk. rewrite Hk in H. discriminate.
  - split; [exact H|]. discriminate.
Qed.

Lemma file_names_In es n :
  In n (file_names es) -> exists t, In (n, t) es /\ FS.is_dir_node t = false.
Proof.
  intros H. apply In_filtered_name in H as [t [Hin Hf]]. exists t.
  split; [exact Hin|]. now apply negb_true_iff in Hf.
Qed.

(** Where the key files of a tree are. *)
Lemma key_files_sound h : forall t here d n,
  (height t <= h)%nat -> well_formed t = true -> keys_regular t = true ->
  In (d, n) (key_files here t) ->
  is_key n = true /\
  exists p data, d = here ++ p /\ FS.lookup (p ++ [n]) t = Some (File data).
Proof.
  induction h as [|h IH]; intros t here d n Hh Hwf Hreg Hin;
    destruct t as [| |c es]; try contradiction.
  - simpl in Hh. lia.
  - cbn [key_files] in Hin. apply in_app_or in Hin. destruct Hin as [Hin|Hin].
    + apply in_map_iff in Hin as [m [E Hm]]. injection E as <- ->.
      apply filter_In in Hm as [Hm Hk]. split; [exact Hk|].
      apply file_names_In in Hm as [t [Ht Hnd]].
      destruct (well_formed_child _ _ _ _ Hwf Ht) as [Ha _].
      destruct (keys_regular_child _ _ _ _ Hreg Ht) as [_ Hfile].
      destruct (Hfile Hnd Hk) as [data ->].
      exists [], data. split; [now rewrite app_nil_r|].
      simpl. now rewrite Ha.
    + apply in_flat_map in Hin as [[m child] [Hm Hin]]. cbn [fst snd] in Hin.
      destruct (well_formed_child _ _ _ _ Hwf Hm) as [Ha Hwf'].
      destruct (keys_regular_child _ _ _ _ Hreg Hm) as [Hreg' _].
      pose proof (height_child c _ _ _ Hm) as Hlt.
      destruct (IH child (here ++ [m]) d n) as [Hk [p [data [Hd Hl]]]];
        [lia | exact Hwf' | exact Hreg' | exact Hin |].
      split; [exact Hk|]. exists (m :: p), data.
      split; [now rewrite Hd, <- app_assoc|].
      simpl. now rewrite Ha.
Qed.

Lemma key_files_outside here t d n :
  outside_keys here -> well_formed t = true -> keys_regular t = true ->
  In (d, n) (key_files here t) -> outside_keys d.
Proof.
  intros Hout Hwf Hreg Hin.
  destruct (key_files_sound (height t) t here d n (le_n _) Hwf Hreg Hin)
    as [_ [p [_ [-> _]]]].
  now apply outside_keys_app.
Qed.

Lemma scandir_dir top d c es :
  FS.lookup top d = Some (Dir c es) ->
  FS.scandir top d = Some (dir_names es, file_names es).
Proof. intros H. unfold FS.scandir. now rewrite H. Qed.

Lemma scandir_other top d :
  (forall c es, FS.lookup top d <> Some (Dir c es)) ->
  FS.scandir top d = None.
Proof.
  intros H. unfold FS.scandir.
  destruct (FS.lookup top d) as [[| |c es]|]; try reflexivity.
  now destruct (H c es).
Qed.

(** The walk of a content tree copies its key files, in the order of
    [key_files]. *)
Lemma copy_walk depth : forall top t wc w,
  outside_keys top ->
  FS.lookup top (disk w) = Some t ->
  well_formed t = true -> keys_regular t = true ->
  (height t <= depth)%nat ->
  flat_destination (disk w) = true ->
  exists w',
    os_walk depth top
      (fun root_dir _ files was_copied =>
         for_fold files (_copy_key_file root_dir) was_copied) wc w
      = Ok (wc || nonempty (key_files top t)) w' /\
    copied w w' (key_files top t).
Proof.
  induction depth as [|depth IH]; intros top t wc w Hout Hl Hwf Hreg Hh Hflat.
  - destruct t as [| |c es]; [| |simpl in Hh; lia];
      (exists w; split; [|now apply copied_refl]);
      cbn [os_walk]; rewrite scandir_other;
        try (cbn; now rewrite orb_false_r); intros c es; rewrite Hl; discriminate.
  - destruct t as [data|target|c es].
    1,2: exists w; split; [|now apply copied_refl];
      cbn [os_walk]; rewrite scandir_other;
        try (cbn; now rewrite orb_false_r); intros c es; rewrite Hl; discriminate.
    cbn [os_walk]. rewrite (scandir_dir _ _ _ _ Hl). unfold bind at 1.
    (* the files of the directory *)
    destruct (copy_files_loop top (file_names es) wc w Hout Hflat)
      as [w1 [Hrun1 Hc1]].
    { intros f Hf Hk. apply file_names_In in Hf as [x [Hx Hnd]].
      destruct (well_formed_child _ _ _ _ Hwf Hx) as [Ha _].
      destruct (keys_regular_child _ _ _ _ Hreg Hx) as [_ Hfile].
      destruct (Hfile Hnd Hk) as [data ->]. exists data.
      now rewrite (lookup_child _ _ _ _ f Hl). }
    rewrite Hrun1.
    (* its sub-directories *)
    assert (Hdirs : forall es' wc1 w1,
      (forall e, In e es' -> In e es) ->
      FS.lookup top (disk w1) = Some (Dir c es) ->
      flat_destination (disk w1) = true ->
      exists w2,
        for_fold (dir_names es')
          (fun dirname s =>
             is_link <- os_path_islink (top ++ [dirname]) ;;
             if is_link then ret s
             else os_walk depth (top ++ [dirname])
                    (fun root_dir _ files was_copied =>
                       for_fold files (_copy_key_file root_dir) was_copied) s)
          wc1 w1
        = Ok (wc1 || nonempty (flat_map (fun e => key_files (top ++ [fst e])
                                                   (snd e)) es')) w2 /\
        copied w1 w2 (flat_map (fun e => key_files (top ++ [fst e]) (snd e))
                        es')).
    { clear Hrun1 Hc1 w1. induction es' as [|[m child] es' IHes];
        intros wc1 w1 Hincl Hl1 Hflat1.
      - exists w1. split; [cbn; now rewrite orb_false_r | now apply copied_refl].
      - assert (Hm : In (m, child) es) by (apply Hincl; now left).
        destruct (well_formed_child _ _ _ _ Hwf Hm) as [Ha Hwf'].
        destruct (keys_regular_child _ _ _ _ Hreg Hm) as [Hreg' _].
        pose proof (height_child c _ _ _ Hm) as Hlt.
        assert (Hchild : FS.lookup (top ++ [m]) (disk w1) = Some child)
          by now rewrite (lookup_child _ _ _ _ m Hl1).
        cbn [flat_map fst snd].
        destruct (IH (top ++ [m]) child wc1 w1) as [w2 [Hrun2 Hc2]];
          [now apply outside_keys_app | exact Hchild | exact Hwf' | exact Hreg'
          | lia | exact Hflat1 |].
        assert (Hrest : forall wc2,
          exists w3,
            for_fold (dir_names es')
              (fun dirname s =>
                 is_link <- os_path_islink (top ++ [dirname]) ;;
                 if is_link then ret s
                 else os_walk depth (top ++ [dirname])
                        (fun root_dir _ files was_copied =>
                           for_fold files (_copy_key_file root_dir) was_copied)
                        s) wc2 w2
            = Ok (wc2 || nonempty (flat_map (fun e => key_files
                                     (top ++ [fst e]) (snd e)) es')) w3 /\
            copied w2 w3 (flat_map (fun e => key_files (top ++ [fst e])
                                              (snd e)) es')).
        { intros wc2. apply IHes.
          - intros e He. apply Hincl. now right.
          - rewrite <- Hl1. apply (copied_store _ _ _ Hc2). exact Hout.
          - exact (copied_flat _ _ _ Hc2). }
        assert (Hout' : forall d n,
          In (d, n) (flat_map (fun e => key_files (top ++ [fst e]) (snd e)) es')
          -> outside_keys d).
        { intros d n Hin. apply in_flat_map in Hin as [[m' child'] [He Hin]].
          cbn [fst snd] in Hin.
          assert (Hm' : In (m', child') es) by (apply Hincl; now right).
          destruct (well_formed_child _ _ _ _ Hwf Hm') as [_ Hwf''].
          destruct (keys_regular_child _ _ _ _ Hreg Hm') as [Hreg'' _].
          eapply key_files_outside; [|exact Hwf''|exact Hreg''|exact Hin].
          now apply outside_keys_app. }
        destruct child as [data|target|c' es''].
        + (* a file: not in the list of directories *)
          change (dir_names ((m, File data) :: es')) with (dir_names es').
          cbn [key_files app]. apply IHes; [|exact Hl1|exact Hflat1].
          intros e He. apply Hincl. now right.
        + change (dir_names ((m, Symlink target) :: es')) with (dir_names es').
          cbn [key_files app]. apply IHes; [|exact Hl1|exact Hflat1].
          intros e He. apply Hincl. now right.
        + change (dir_names ((m, Dir c' es'') :: es'))
            with (m :: dir_names es').
          cbn [for_fold]. unfold bind at 1. unfold bind at 1.
          unfold os_path_islink at 1. unfold FS.islink. rewrite Hchild.
          cbv beta iota. rewrite Hrun2.
          destruct (Hrest (wc1 || nonempty (key_files (top ++ [m])
                                              (Dir c' es''))))
            as [w3 [Hrun3 Hc3]].
          exists w3. split.
          * rewrite Hrun3. now rewrite nonempty_app, orb_assoc.
          * exact (copied_trans _ _ _ _ _ Hc2 Hc3 Hout'). }
    destruct (Hdirs es (wc || nonempty (filter is_key (file_names es))) w1)
      as [w2 [Hrun2 Hc2]].
    { auto. }
    { rewrite <- Hl. apply (copied_store _ _ _ Hc1). exact Hout. }
    { exact (copied_flat _ _ _ Hc1). }
    exists w2. split.
    + rewrite Hrun2. cbn [key_files].
      now rewrite nonempty_app, nonempty_map, orb_assoc.
    + cbn [key_files]. eapply copied_trans; [exact Hc1 | exact Hc2 |].
      intros d n Hin. apply in_flat_map in Hin as [[m' child'] [He Hin]].
      cbn [fst snd] in Hin.
      destruct (well_formed_child _ _ _ _ Hwf He) as [_ Hwf''].
      destruct (keys_regular_child _ _ _ _ Hreg He) as [Hreg'' _].
      eapply key_files_outside; [|exact Hwf''|exact Hreg''|exact Hin].
      now apply outside_keys_app.
Qed.

(** Every key file that can be reached in a tree is among its
    [key_files]. *)
Lemma key_files_complete p : forall t here name data,
  FS.lookup (p ++ [name]) t = Some (File data) ->
  is_key name = true ->
  In (here ++ p, name) (key_files here t).
Proof.
  induction p as [|m p IH]; intros t here name data Hl Hk.
  - simpl in Hl. destruct t as [| |c es]; try discriminate.
    destruct (FS.assoc name es) as [x|] eqn:Ha; [|discriminate].
    injection Hl as ->. apply assoc_In in Ha.
    cbn [key_files]. apply in_or_app. left. rewrite app_nil_r.
    apply in_map. apply filter_In. split; [|exact Hk].
    unfold file_names. apply in_map_iff. exists (name, File data).
    split; [reflexivity|]. apply filter_In. split; [exact Ha | reflexivity].
  - change ((m :: p) ++ [name]) with (m :: (p ++ [name])) in Hl.
    cbn [FS.lookup] in Hl. destruct t as [| |c es]; try discriminate.
    destruct (FS.assoc m es) as [child|] eqn:Ha; [|discriminate].
    apply assoc_In in Ha.
    cbn [key_files]. apply in_or_app. right.
    apply in_flat_map. exists (m, child). split; [exact Ha|]. cbn [fst snd].
    replace (here ++ m :: p) with ((here ++ [m]) ++ p)
      by now rewrite <- app_assoc.
    eapply IH; eassumption.
Qed.

Lemma mods_key_files_sound fuel updated_mods d dir n :
  trees_ok fuel updated_mods d ->
  In (dir, n) (mods_key_files updated_mods d) ->
  is_key n = true /\
  exists value p data,
    In value (values updated_mods) /\
    dir = A3_MOD_KEYS_SOURCE_DIRECTORY ++ value :: p /\
    FS.lookup (dir ++ [n]) d = Some (File data).
Proof.
  intros Hok Hin. unfold mods_key_files in Hin.
  apply in_flat_map in Hin as [value [Hv Hin]]. cbv zeta in Hin.
  destruct (FS.lookup (A3_MOD_KEYS_SOURCE_DIRECTORY ++ [value]) d)
    as [sub|] eqn:Hsub; [|contradiction].
  destruct (Hok value sub Hv Hsub) as [Hwf [Hreg Hh]].
  destruct (key_files_sound fuel sub _ dir n Hh Hwf Hreg Hin)
    as [Hk [p [data [-> Hl]]]].
  split; [exact Hk|]. exists value, p, data. split; [exact Hv|].
  split; [now rewrite <- app_assoc|].
  rewrite <- app_assoc, lookup_app, Hsub. exact Hl.
Qed.

Lemma mods_key_files_complete updated_mods d value p name data :
  In value (values updated_mods) ->
  FS.lookup (A3_MOD_KEYS_SOURCE_DIRECTORY ++ value :: p ++ [name]) d
    = Some (File data) ->
  is_key name = true ->
  In (A3_MOD_KEYS_SOURCE_DIRECTORY ++ value :: p, name)
     (mods_key_files updated_mods d).
Proof.
  intros Hv Hl Hk. unfold mods_key_files. apply in_flat_map.
  exists value. split; [exact Hv|]. cbv zeta.
  replace (A3_MOD_KEYS_SOURCE_DIRECTORY ++ value :: p ++ [name])
    with ((A3_MOD_KEYS_SOURCE_DIRECTORY ++ [value]) ++ (p ++ [name])) in Hl
    by now rewrite <- app_assoc.
  rewrite lookup_app in Hl.
  destruct (FS.lookup (A3_MOD_KEYS_SOURCE_DIRECTORY ++ [value]) d)
    as [sub|]; [|discriminate].
  replace (A3_MOD_KEYS_SOURCE_DIRECTORY ++ value :: p)
    with ((A3_MOD_KEYS_SOURCE_DIRECTORY ++ [value]) ++ p)
    by now rewrite <- app_assoc.
  eapply key_files_complete; eassumption.
Qed.

Lemma mods_key_files_same_store updated_mods d d' :
  same_store d d' ->
  mods_key_files updated_mods d' = mods_key_files updated_mods d.
Proof.
  intros Hs. unfold mods_key_files. apply flat_map_ext. intros value.
  cbv zeta. now rewrite (Hs _ (source_outside_keys value)).
Qed.

Lemma copy_mods_loop fuel : forall updated_mods wc w,
  trees_ok fuel updated_mods (disk w) ->
  flat_destination (disk w) = true ->
  exists w',
    for_fold (values updated_mods)
      (fun value was_copied =>
         os_walk fuel (A3_MOD_KEYS_SOURCE_DIRECTORY ++ [value])
           (fun root_dir _ files was_copied =>
              for_fold files (_copy_key_file root_dir) was_copied)
           was_copied) wc w
      = Ok (wc || nonempty (mods_key_files updated_mods (disk w))) w' /\
    copied w w' (mods_key_files updated_mods (disk w)).
Proof.
  induction updated_mods as [|[mod_name value] mods IH]; intros wc w Hok Hflat.
  - exists w. split; [cbn; now rewrite orb_false_r | now apply copied_refl].
  - assert (Hok' : trees_ok fuel mods (disk w)).
    { intros v t Hv. apply Hok. now right. }
    change (values ((mod_name, value) :: mods)) with (value :: values mods).
    change (mods_key_files ((mod_name, value) :: mods) (disk w))
      with ((match FS.lookup (A3_MOD_KEYS_SOURCE_DIRECTORY ++ [value]) (disk w)
             with
             | Some sub => key_files (A3_MOD_KEYS_SOURCE_DIRECTORY ++ [value]) sub
             | None => []
             end) ++ mods_key_files mods (disk w)).
    cbn [for_fold]. unfold bind at 1.
    assert (Hfirst : exists w1,
      os_walk fuel (A3_MOD_KEYS_SOURCE_DIRECTORY ++ [value])
        (fun root_dir _ files was_copied =>
           for_fold files (_copy_key_file root_dir) was_copied) wc w
      = Ok (wc || nonempty
                    (match FS.lookup (A3_MOD_KEYS_SOURCE_DIRECTORY ++ [value])
                             (disk w) with
                     | Some sub =>
                         key_files (A3_MOD_KEYS_SOURCE_DIRECTORY ++ [value]) sub
                     | None => []
                     end)) w1 /\
      copied w w1
        (match FS.lookup (A3_MOD_KEYS_SOURCE_DIRECTORY ++ [value]) (disk w) with
         | Some sub => key_files (A3_MOD_KEYS_SOURCE_DIRECTORY ++ [value]) sub
         | None => []
         end)).
    { destruct (FS.lookup (A3_MOD_KEYS_SOURCE_DIRECTORY ++ [value]) (disk w))
        as [sub|] eqn:Hsub.
      - destruct (Hok value sub (or_introl eq_refl) Hsub) as [Hwf [Hreg Hh]].
        apply copy_walk; auto using source_outside_keys.
      - exists w. split; [|now apply copied_refl].
        destruct fuel; cbn [os_walk]; rewrite scandir_other;
          try (cbn; now rewrite orb_false_r);
          intros c es; rewrite Hsub; discriminate. }
    destruct Hfirst as [w1 [Hrun1 Hc1]]. rewrite Hrun1.
    pose proof (mods_key_files_same_store mods _ _ (copied_store _ _ _ Hc1))
      as Hsame.
    destruct (IH (wc || nonempty
                          (match FS.lookup
                                   (A3_MOD_KEYS_SOURCE_DIRECTORY ++ [value])
                                   (disk w) with
                           | Some sub =>
                               key_files
                                 (A3_MOD_KEYS_SOURCE_DIRECTORY ++ [value]) sub
                           | None => []
                           end)) w1) as [w2 [Hrun2 Hc2]].
    { intros v t Hv Ht. apply (Hok' v t Hv). rewrite <- Ht. symmetry.
      apply (copied_store _ _ _ Hc1). apply source_outside_keys. }
    { exact (copied_flat _ _ _ Hc1). }
    rewrite Hsame in Hrun2, Hc2.
    exists w2. split.
    + rewrite Hrun2. now rewrite nonempty_app, orb_assoc.
    + eapply copied_trans; [exact Hc1 | exact Hc2 |].
      intros d n Hin.
      destruct (mods_key_files_sound fuel mods (disk w) d n Hok' Hin)
        as [_ [v [p [_ [_ [-> _]]]]]].
      exists "steamapps", (["workshop"; "content"; A3_WORKSHOP_ID] ++ v :: p).
      split; [reflexivity | discriminate].
Qed.

Lemma copy_events_In d n ks :
  In (d, n) ks ->
  In (Copy (d ++ [n]) (A3_MOD_KEYS_DESTINATION_DIRECTORY ++ [n]))
     (copy_events ks).
Proof.
  intros H. unfold copy_events. apply in_flat_map. exists (d, n).
  split; [exact H|]. right. now left.
Qed.

(** C9.  With a destination that is a directory of regular files, and
    content trees that are well formed, hold their key files as regular
    files and are no higher than the fuel, the key propagator ends and
    prints one closing line: the nothing-to-copy line if and only if no
    file with the [.bikey] extension is in the content tree of any of the
    updated mods, the success line otherwise.  Every such file was passed
    to [shutil.copy] with the flat destination path of its name, and the
    destination then holds under that name the bytes of a key file of that
    name (the last one copied, over whatever was there); the content store
    is as it was. *)
Theorem copy_key_files_reports fuel updated_mods w :
  flat_destination (disk w) = true ->
  trees_ok fuel updated_mods (disk w) ->
  exists w' evs line,
    _copy_key_files fuel updated_mods w = Ok tt w' /\
    trace w' =
      trace w ++ Log "Start copy of Mods sign key files..." :: evs
      ++ [Stdout line] /\
    (line = nothing_to_copy_line \/ line = copied_line) /\
    (line = nothing_to_copy_line <->
     forall value p name data,
       In value (values updated_mods) ->
       FS.lookup (A3_MOD_KEYS_SOURCE_DIRECTORY ++ value :: p ++ [name])
         (disk w) = Some (File data) ->
       is_key name = false) /\
    (forall value p name data,
       In value (values updated_mods) ->
       FS.lookup (A3_MOD_KEYS_SOURCE_DIRECTORY ++ value :: p ++ [name])
         (disk w) = Some (File data) ->
       is_key name = true ->
       In (Copy (A3_MOD_KEYS_SOURCE_DIRECTORY ++ value :: p ++ [name])
                (A3_MOD_KEYS_DESTINATION_DIRECTORY ++ [name])) evs /\
       exists value' p' data',
         In value' (values updated_mods) /\
         FS.lookup (A3_MOD_KEYS_SOURCE_DIRECTORY ++ value' :: p' ++ [name])
           (disk w) = Some (File data') /\
         FS.lookup (A3_MOD_KEYS_DESTINATION_DIRECTORY ++ [name]) (disk w')
           = Some (File data')) /\
    same_store (disk w) (disk w').
Proof.
  intros Hflat Hok.
  set (w0 := mkWorld (disk w)
               (trace w ++ [Log "Start copy of Mods sign key files..."])).
  destruct (copy_mods_loop fuel updated_mods false w0 Hok Hflat)
    as [w1 [Hrun Hc]].
  set (ks := mods_key_files updated_mods (disk w)) in *.
  change (mods_key_files updated_mods (disk w0)) with ks in Hrun, Hc.
  cbn [orb] in Hrun.
  exists (mkWorld (disk w1)
            (trace w1 ++ [Stdout (if nonempty ks then copied_line
                                 else nothing_to_copy_line)])),
    (copy_events ks),
    (if nonempty ks then copied_line else nothing_to_copy_line).
  split; [|split; [|split; [|split; [|split]]]].
  - unfold _copy_key_files, bind at 1, logger_log, emit. fold w0.
    unfold bind. rewrite Hrun. destruct (nonempty ks); reflexivity.
  - cbn [trace]. rewrite (copied_trace _ _ _ Hc). unfold w0. cbn [trace].
    now rewrite <- !app_assoc.
  - destruct (nonempty ks); auto.
  - split.
    + intros Hline value p name data Hv Hl.
      destruct (is_key name) eqn:Hk; [|reflexivity]. exfalso.
      pose proof (mods_key_files_complete updated_mods (disk w) value p name
                    data Hv Hl Hk) as Hin.
      fold ks in Hin. destruct ks; [contradiction|].
      cbn [nonempty] in Hline. vm_compute in Hline. discriminate.
    + intros Hnone. destruct ks as [|[d n] ks'] eqn:Hks; [reflexivity|].
      exfalso.
      destruct (mods_key_files_sound fuel updated_mods (disk w) d n Hok)
        as [Hk [value [p [data [Hv [-> Hl]]]]]].
      { fold ks. rewrite Hks. now left. }
      rewrite <- app_assoc in Hl. cbn [app] in Hl.
      rewrite (Hnone value p n data Hv Hl) in Hk. discriminate.
  - intros value p name data Hv Hl Hk.
    pose proof (mods_key_files_complete updated_mods (disk w) value p name
                  data Hv Hl Hk) as Hin.
    fold ks in Hin. split.
    + apply copy_events_In in Hin.
      rewrite <- app_assoc in Hin. exact Hin.
    + destruct (copied_keys _ _ _ Hc _ _ Hin) as [d' [data' [Hin' [Hsrc Hdst]]]].
      destruct (mods_key_files_sound fuel updated_mods (disk w) d' name Hok Hin')
        as [_ [value' [p' [data'' [Hv' [-> Hl']]]]]].
      change (disk w0) with (disk w) in Hsrc.
      rewrite Hl' in Hsrc. injection Hsrc as <-.
      exists value', p', data''. split; [exact Hv'|].
      rewrite <- app_assoc in Hl'. cbn [app] in Hl'. split; [exact Hl'|].
      exact Hdst.
  - exact (copied_store _ _ _ Hc).
Qed.

Lemma copy_key_files_reports_witness :
  flat_destination (disk Scenario.fresh) = true /\
  trees_ok 3 Scenario.desired (disk Scenario.fresh) /\
  exists w',
    _copy_key_files 3 Scenario.desired Scenario.fresh = Ok tt w' /\
    trace w' =
      [Log "Start copy of Mods sign key files...";
       Stdout "Copy cba.bikey file";
       Copy (Scenario.mod_path ++ ["keys"; "cba.bikey"])
            (A3_MOD_KEYS_DESTINATION_DIRECTORY ++ ["cba.bikey"]);
       Stdout copied_line] /\
    FS.lookup (A3_MOD_KEYS_DESTINATION_DIRECTORY ++ ["cba.bikey"]) (disk w')
      = Some (File "key").
Proof.
  assert (Hflat : flat_destination (disk Scenario.fresh) = true)
    by reflexivity.
  assert (Hok : trees_ok 3 Scenario.desired (disk Scenario.fresh)).
  { intros value t [<-|[]] Ht. vm_compute in Ht. injection Ht as <-.
    split; [reflexivity|]. split; [reflexivity|].
    apply Nat.leb_le. reflexivity. }
  split; [exact Hflat|]. split; [exact Hok|].
  destruct (copy_key_files_reports 3 Scenario.desired Scenario.fresh Hflat Hok)
    as [w' [evs [line [Hrun _]]]].
  exists w'. split; [exact Hrun|].
  assert (E : Ok tt w'
              = _copy_key_files 3 Scenario.desired Scenario.fresh)
    by (symmetry; exact Hrun).
  vm_compute in E. injection E as ->. split; vm_compute; reflexivity.
Defined.

(** * Further properties *)

(** ** One turn of the reconciler *)

(** The staleness check under the conditions of its use: the changelog
    is answered, and the two times are dates on the clock of the host. *)
Lemma mod_needs_update_run env mod_id p w c es :
  FS.lookup p (disk w) = Some (Dir c es) ->
  let url := (WORKSHOP_CHANGELOG_URL ++ "/" ++ mod_id)%string in
  let asked := mkWorld (disk w) (trace w ++ [UrlOpen url]) in
  let updated := remote_updated_at (changelog_body env url asked) in
  in_datetime_range (naive_local (utcoffset env) c) ->
  (forall u, updated = Some u ->
             in_datetime_range (naive_local (utcoffset env) u)) ->
  _mod_needs_update env mod_id p w
  = Ok (local_stale (utcoffset env) c updated) asked.
Proof.
  intros Hl url asked updated [Hc1 Hc2] Hrange.
  unfold _mod_needs_update, bind, os_path_isdir, FS.isdir. rewrite Hl.
  cbv beta iota delta [negb].
  unfold urlopen_read, bind, emit. fold url. fold asked.
  destruct (PATTERN_search (changelog_body env url asked)) as [g|] eqn:Hg.
  - destruct (remote_updated_at_found _ _ Hg) as [n [Hn Hu]].
    fold updated in Hu. rewrite Hu.
    destruct (Hrange _ Hu) as [Hu1 Hu2].
    unfold int_. rewrite Hn. unfold ret at 1. unfold datetime_fromtimestamp.
    apply Z.leb_le in Hc1, Hc2, Hu1, Hu2. cbv zeta. rewrite Hu1, Hu2.
    cbv beta iota delta [andb]. unfold ret at 1. unfold os_path_getctime.
    change (disk asked) with (disk w). rewrite Hl, Hc1, Hc2. reflexivity.
  - unfold updated, remote_updated_at. rewrite Hg. reflexivity.
Qed.

(** X19.  What the staleness check compares: on a directory, when the two
    times are dates on the clock of the host, [_mod_needs_update] reads the
    changelog once and answers whether the remote time stamp is at or
    after the time [os.path.getctime] gives for the directory, both read
    as naive datetimes on the clock of the host; it answers false when the
    response holds no marker.  Where the zone has the same offset at the
    two instants, this is the order of the two time stamps. *)
Theorem mod_needs_update_compares_local_times env mod_id p w c es :
  FS.lookup p (disk w) = Some (Dir c es) ->
  let url := (WORKSHOP_CHANGELOG_URL ++ "/" ++ mod_id)%string in
  let asked := mkWorld (disk w) (trace w ++ [UrlOpen url]) in
  let updated := remote_updated_at (changelog_body env url asked) in
  in_datetime_range (naive_local (utcoffset env) c) ->
  (forall u, updated = Some u ->
             in_datetime_range (naive_local (utcoffset env) u)) ->
  _mod_needs_update env mod_id p w
  = Ok (local_stale (utcoffset env) c updated) asked /\
  (updated = None -> local_stale (utcoffset env) c updated = false) /\
  (forall u, updated = Some u -> utcoffset env u = utcoffset env c ->
     local_stale (utcoffset env) c updated = (u >=? c)%Z).
Proof.
  intros Hl url asked updated Hc Hu.
  split; [exact (mod_needs_update_run env mod_id p w c es Hl Hc Hu)|].
  split.
  - intros ->. reflexivity.
  - intros u -> Hoff. unfold local_stale, naive_local. rewrite Hoff.
    rewrite !Z.geb_leb. apply Bool.eq_true_iff_eq. rewrite !Z.leb_le. lia.
Qed.

Lemma mod_needs_update_const env mod_id p w c es body :
  (forall w', changelog_body env (WORKSHOP_CHANGELOG_URL ++ "/" ++ mod_id) w'
              = body) ->
  FS.lookup p (disk w) = Some (Dir c es) ->
  in_datetime_range (naive_local (utcoffset env) c) ->
  (forall u, remote_updated_at body = Some u ->
     in_datetime_range (naive_local (utcoffset env) u)) ->
  _mod_needs_update env mod_id p w
  = Ok (local_stale (utcoffset env) c (remote_updated_at body))
      (mkWorld (disk w)
         (trace w ++ [UrlOpen (WORKSHOP_CHANGELOG_URL ++ "/" ++ mod_id)])).
Proof.
  intros Hbody Hl Hc Hu.
  pose proof (mod_needs_update_run env mod_id p w c es Hl) as H.
  cbv zeta in H. rewrite Hbody in H. exact (H Hc Hu).
Qed.

Lemma delete_mod_if_needed_run env mod_id w c es body :
  let mod_path := A3_WORKSHOP_DIR ++ [mod_id] in
  let url := (WORKSHOP_CHANGELOG_URL ++ "/" ++ mod_id)%string in
  (forall w', changelog_body env url w' = body) ->
  FS.lookup mod_path (disk w) = Some (Dir c es) ->
  in_datetime_range (naive_local (utcoffset env) c) ->
  (forall u, remote_updated_at body = Some u ->
     in_datetime_range (naive_local (utcoffset env) u)) ->
  _delete_mod_if_needed env mod_id mod_path w =
  if local_stale (utcoffset env) c (remote_updated_at body) then
    match FS.rmtree mod_path (disk w) with
    | FS.Done t =>
        Ok (true, true)
          (mkWorld t (trace w ++ [UrlOpen url; UrlOpen url; Rmtree mod_path]))
    | FS.Failed e =>
        Raised (OSError e)
          (mkWorld (disk w)
             (trace w ++ [UrlOpen url; UrlOpen url; Rmtree mod_path]))
    end
  else
    Ok (true, false) (mkWorld (disk w) (trace w ++ [UrlOpen url; UrlOpen url])).
Proof.
  intros mod_path url Hbody Hl Hc Hu.
  unfold _delete_mod_if_needed, bind at 1, os_path_isdir, FS.isdir.
  rewrite Hl. unfold bind at 1.
  rewrite (mod_needs_update_const env mod_id mod_path w c es body Hbody Hl Hc Hu).
  cbv beta iota delta [negb]. unfold bind at 1. fold url.
  rewrite (mod_needs_update_const env mod_id mod_path
             (mkWorld (disk w) (trace w ++ [UrlOpen url])) c es body Hbody Hl
             Hc Hu).
  destruct (local_stale (utcoffset env) c (remote_updated_at body)); cbv beta iota delta [negb].
  - unfold bind, shutil_rmtree, syscall, bind, emit, ret. cbn [disk trace].
    destruct (FS.rmtree mod_path (disk w)); rewrite <- !app_assoc; reflexivity.
  - unfold ret. cbn [disk trace]. now rewrite <- app_assoc.
Qed.

(** X1.  A mod that is installed and that the staleness check finds fresh
    is skipped: when the content directory of the mod exists, the changelog
    answers the same body every time and the check, as the code makes it,
    answers false (the body has no marker, or the remote time stamp read
    as a naive datetime on the clock of the host is before the time
    [os.path.getctime] gives for the directory, read the same way; both
    readings being dates [datetime] can hold), one turn of [_update_mods]
    reads the changelog twice, prints the SKIPPING line, makes no fetch
    and leaves the disk and [updated_mods] as they were. *)
Theorem fresh_mod_is_skipped env fuel mod_name mod_id updated_mods w c es body :
  let url := (WORKSHOP_CHANGELOG_URL ++ "/" ++ mod_id)%string in
  (forall w', changelog_body env url w' = body) ->
  FS.lookup (A3_WORKSHOP_DIR ++ [mod_id]) (disk w) = Some (Dir c es) ->
  in_datetime_range (naive_local (utcoffset env) c) ->
  (forall u, remote_updated_at body = Some u ->
     in_datetime_range (naive_local (utcoffset env) u)) ->
  local_stale (utcoffset env) c (remote_updated_at body) = false ->
  _update_mod env fuel mod_name mod_id updated_mods w
  = Ok updated_mods
      (mkWorld (disk w)
         (trace w ++ [UrlOpen url; UrlOpen url;
                      Stdout (skipping_line mod_name mod_id)])).
Proof.
  intros url Hbody Hl Hc Hu Hfresh.
  unfold _update_mod, bind at 1.
  rewrite (delete_mod_if_needed_run env mod_id w c es body Hbody Hl Hc Hu).
  rewrite Hfresh. cbv beta iota delta [negb andb].
  unfold bind, print, emit, ret. cbn [disk trace].
  now rewrite <- app_assoc.
Qed.

Lemma assoc_set_entry_removed n es :
  unique (map fst es) = true -> FS.assoc n (FS.set_entry n None es) = None.
Proof.
  induction es as [|[m d] es IH]; simpl; intros Hu; [reflexivity|].
  apply andb_true_iff in Hu as [Hm Hu].
  destruct (String.eqb m n) eqn:E.
  - apply String.eqb_eq in E. subst m.
    destruct (FS.assoc n es) as [x|] eqn:Ha; [|reflexivity].
    apply assoc_In in Ha. apply negb_true_iff in Hm.
    assert (existsb (String.eqb n) (map fst es) = true); [|congruence].
    apply existsb_exists. exists n. split; [|apply String.eqb_refl].
    apply in_map_iff. now exists (n, x).
  - simpl. rewrite E. now apply IH.
Qed.

(** X2.  A mod that the staleness check finds stale is removed and not
    fetched: when the content directory exists in a content store whose
    names are bound once, the changelog answers the same body every time
    and the check, as the code makes it, answers true (the remote time
    stamp read as a naive datetime on the clock of the host is at or after
    the time [os.path.getctime] gives for the directory, read the same
    way), one turn of [_update_mods] reads the changelog twice, removes
    the content directory with [shutil.rmtree], runs the fetch tool not
    once and records the mod in [updated_mods]; the directory is gone
    afterwards and the other entries of the content store are as they
    were. *)
Theorem stale_mod_is_removed_not_fetched
  env fuel mod_name mod_id updated_mods w c es c0 es0 body :
  let mod_path := A3_WORKSHOP_DIR ++ [mod_id] in
  let url := (WORKSHOP_CHANGELOG_URL ++ "/" ++ mod_id)%string in
  (forall w', changelog_body env url w' = body) ->
  FS.lookup A3_WORKSHOP_DIR (disk w) = Some (Dir c0 es0) ->
  unique (map fst es0) = true ->
  FS.assoc mod_id es0 = Some (Dir c es) ->
  in_datetime_range (naive_local (utcoffset env) c) ->
  (forall u, remote_updated_at body = Some u ->
     in_datetime_range (naive_local (utcoffset env) u)) ->
  local_stale (utcoffset env) c (remote_updated_at body) = true ->
  exists t',
    _update_mod env fuel mod_name mod_id updated_mods w
    = Ok (dict_set mod_name mod_id updated_mods)
        (mkWorld t' (trace w ++ [UrlOpen url; UrlOpen url; Rmtree mod_path])) /\
    FS.lookup mod_path t' = None /\
    (forall other rest, other <> mod_id ->
       FS.lookup (A3_WORKSHOP_DIR ++ other :: rest) t'
       = FS.lookup (A3_WORKSHOP_DIR ++ other :: rest) (disk w)) /\
    fetches_any (trace w ++ [UrlOpen url; UrlOpen url; Rmtree mod_path])
    = fetches_any (trace w).
Proof.
  intros mod_path url Hbody Hstore Hu Hmod Hc Hr Hstale.
  assert (Hl : FS.lookup mod_path (disk w) = Some (Dir c es)).
  { unfold mod_path. now rewrite (lookup_child _ _ _ _ mod_id Hstore). }
  destruct (update_child _ _ _ _ mod_id None Hstore) as [t' [Hupd Hstore']].
  exists t'. split; [|split; [|split]].
  - unfold _update_mod, bind at 1.
    rewrite (delete_mod_if_needed_run env mod_id w c es body Hbody Hl Hc Hr).
    rewrite Hstale. unfold FS.rmtree. fold mod_path. rewrite Hl.
    fold mod_path in Hupd. rewrite Hupd. cbn [FS.commit].
    cbv beta iota delta [negb andb].
    unfold _try_to_update_mod, bind.
    destruct fuel; reflexivity.
  - unfold mod_path. rewrite (lookup_child _ _ _ _ mod_id Hstore').
    now apply assoc_set_entry_removed.
  - intros other rest Hne.
    eapply (lookup_update_other A3_WORKSHOP_DIR mod_id other [] rest);
      [congruence | exact Hupd].
  - unfold fetches_any. rewrite filter_app, length_app. simpl. lia.
Qed.

(** X3.  An id that [int] refuses stops the whole pass: when the first mod
    of the pass has no content directory and its id is not a decimal
    number, [_update_mods] logs the first attempt and raises [ValueError]
    before any fetch, with the disk as it was; the mods after it are not
    looked at. *)
Theorem non_numeric_id_aborts_pass env fuel mod_name mod_id rest w :
  FS.isdir (A3_WORKSHOP_DIR ++ [mod_id]) (disk w) = false ->
  Str.int mod_id = None ->
  (1 <= fuel)%nat ->
  _update_mods env fuel ((mod_name, mod_id) :: rest) w
  = Raised (ValueError "invalid literal for int() with base 10")
      (mkWorld (disk w) (trace w ++ [Log (updating_line mod_name mod_id 1)])).
Proof.
  intros Hdir Hid Hf. destruct fuel as [|fuel]; [lia|].
  unfold _update_mods, _update_mods_loop. cbn [for_fold].
  unfold _update_mod, _delete_mod_if_needed, _mod_needs_update, bind,
    os_path_isdir, ret.
  rewrite Hdir. cbv beta iota delta [negb andb].
  unfold _try_to_update_mod. cbn [while_].
  change (0 <? 10)%Z with true. cbv beta iota delta [negb andb].
  unfold bind, _try_once, bind, logger_log, emit, int_. rewrite Hid.
  reflexivity.
Qed.

(** ** What a pass returns *)

Lemma dict_set_In k v d n i :
  In (n, i) (dict_set k v d) -> (n, i) = (k, v) \/ In (n, i) d.
Proof.
  induction d as [|[k' v'] d IH]; simpl.
  - intros [H|[]]. now left.
  - destruct (String.eqb k' k) eqn:E; simpl.
    + apply String.eqb_eq in E. subst k'. intros [H|H]; [now left | right; now right].
    + intros [H|H]; [right; now left|].
      destruct (IH H) as [H'|H']; [now left | right; now right].
Qed.

Lemma update_mod_result env fuel mod_name mod_id acc w d w' :
  _update_mod env fuel mod_name mod_id acc w = Ok d w' ->
  d = acc \/ d = dict_set mod_name mod_id acc.
Proof.
  unfold _update_mod, bind.
  destruct (_delete_mod_if_needed env mod_id _ w) as [[is_dir needs] w1|e w1|];
    try discriminate.
  destruct (is_dir && negb needs).
  - unfold print, emit, ret. intros H. injection H as <- _. now left.
  - destruct (_try_to_update_mod env fuel mod_id mod_name is_dir w1)
      as [[ | ] w2|e w2| ]; try discriminate; unfold ret; intros H;
      injection H as <- _; auto.
Qed.

Lemma update_mods_loop_subset env fuel : forall mods acc w d w',
  _update_mods_loop env fuel mods acc w = Ok d w' ->
  forall n i, In (n, i) d -> In (n, i) acc \/ In (n, i) mods.
Proof.
  induction mods as [|[name id] mods IH]; intros acc w d w' H n i Hin.
  - cbn in H. injection H as <- _. now left.
  - unfold _update_mods_loop in H. cbn [for_fold] in H. unfold bind at 1 in H.
    destruct (_update_mod env fuel name id acc w) as [d1 w1|e w1|] eqn:Hturn;
      try discriminate.
    destruct (IH d1 w1 d w' H n i Hin) as [H1|H1]; [|right; now right].
    destruct (update_mod_result _ _ _ _ _ _ _ _ Hturn) as [-> | ->];
      [now left|].
    destruct (dict_set_In _ _ _ _ _ H1) as [E|E]; [|now left].
    right. left. now symmetry.
Qed.

(** ** The events of a computation *)

Lemma emits_ret P {A} (a : A) : emits P (ret a).
Proof.
  intros w w' H. cbn in H. injection H as <-. exists []. split; [now rewrite app_nil_r | constructor].
Qed.

Lemma emits_pure P {A} (f : World -> A) : emits P (fun w => Ok (f w) w).
Proof.
  intros w w' H. cbn in H. injection H as <-. exists []. split; [now rewrite app_nil_r | constructor].
Qed.

Lemma emits_raise P {A} (e : exn) : emits P (@raise A e).
Proof.
  intros w w' H. cbn in H. injection H as <-. exists []. split; [now rewrite app_nil_r | constructor].
Qed.

Lemma emits_bind P {A B} (m : M A) (k : A -> M B) :
  emits P m -> (forall a, emits P (k a)) -> emits P (bind m k).
Proof.
  intros Hm Hk w w' H. unfold bind in H.
  destruct (m w) as [a w1|e w1|] eqn:E; [| |discriminate].
  - destruct (Hm w w1) as [evs1 [T1 F1]]; [now rewrite E|].
    destruct (Hk a w1 w' H) as [evs2 [T2 F2]].
    exists (evs1 ++ evs2). split; [now rewrite T2, T1, app_assoc|].
    now apply Forall_app.
  - apply (Hm w w'). now rewrite E.
Qed.

Lemma emits_emit (P : event -> Prop) e : P e -> emits P (emit e).
Proof.
  intros He w w' H. cbn in H. injection H as <-. exists [e].
  split; [reflexivity | now constructor].
Qed.

Lemma emits_syscall (P : event -> Prop) e op : P e -> emits P (syscall e op).
Proof.
  intros He. unfold syscall. apply emits_bind; [now apply emits_emit|].
  intros _ w w' H. destruct (op (disk w)); cbn in H; injection H as <-;
    exists []; (split; [now rewrite app_nil_r | constructor]).
Qed.

Lemma emits_for P {A} (xs : list A) (body : A -> M unit) :
  (forall x, In x xs -> emits P (body x)) -> emits P (for_ xs body).
Proof.
  induction xs as [|x xs IH]; intros H; cbn [for_]; [apply emits_ret|].
  apply emits_bind; [apply H; now left|].
  intros _. apply IH. intros y Hy. apply H. now right.
Qed.

Lemma emits_for_fold P {A St} (xs : list A) (body : A -> St -> M St) :
  (forall x s, In x xs -> emits P (body x s)) ->
  forall s, emits P (for_fold xs body s).
Proof.
  induction xs as [|x xs IH]; intros H s; cbn [for_fold]; [apply emits_ret|].
  apply emits_bind; [apply H; now left|].
  intros s'. apply IH. intros y s'' Hy. apply H. now right.
Qed.

Lemma emits_while P {St} fuel (cond : St -> bool) (body : St -> M St) :
  (forall s, emits P (body s)) -> forall s, emits P (while_ fuel cond body s).
Proof.
  intros H. induction fuel as [|fuel IH]; intros s; cbn [while_];
    destruct (cond s); try apply emits_ret.
  - intros w w' E. discriminate.
  - apply emits_bind; [apply H | exact IH].
Qed.

Lemma emits_try P (body : M unit) handler :
  emits P body -> (forall e, emits P (handler e)) ->
  emits P (try_except_OSError body handler).
Proof.
  intros Hb Hh w w' E. unfold try_except_OSError in E.
  destruct (body w) as [a w1|[err|msg] w1|] eqn:Eb.
  - apply (Hb w w'). now rewrite Eb.
  - destruct (Hb w w1) as [evs1 [T1 F1]]; [now rewrite Eb|].
    destruct (Hh err w1 w' E) as [evs2 [T2 F2]].
    exists (evs1 ++ evs2). split; [now rewrite T2, T1, app_assoc|].
    now apply Forall_app.
  - apply (Hb w w'). now rewrite Eb.
  - discriminate.
Qed.

Lemma emits_weaken (P Q : event -> Prop) {A} (m : M A) :
  (forall e, P e -> Q e) -> emits P m -> emits Q m.
Proof.
  intros HPQ Hm w w' E. destruct (Hm w w' E) as [evs [T F]].
  exists evs. split; [exact T|]. eapply Forall_impl; eassumption.
Qed.

Lemma emits_disk P {A} (a : A) (f : World -> node) :
  emits P (fun w => Ok a (mkWorld (f w) (trace w))).
Proof.
  intros w w' H. cbn in H. injection H as <-. exists [].
  split; [now rewrite app_nil_r | constructor].
Qed.

Lemma emits_walk_below (R : path -> Prop) P {St} depth
  (body : path -> list string -> list string -> St -> M St) :
  (forall p d, R p -> R (p ++ [d])) ->
  (forall root dirs files s, R root -> emits P (body root dirs files s)) ->
  forall top s, R top -> emits P (os_walk depth top body s).
Proof.
  intros HR H. induction depth as [|depth IH]; intros top s Htop w w' E;
    cbn [os_walk] in E;
    destruct (FS.scandir top (disk w)) as [[dirs files]|].
  - discriminate.
  - cbn in E. injection E as <-. exists []. split; [now rewrite app_nil_r | constructor].
  - revert w w' E.
    change (emits P (s1 <- body top dirs files s ;;
                     for_fold dirs (fun dirname s0 =>
                       is_link <- os_path_islink (top ++ [dirname]) ;;
                       if is_link then ret s0
                       else os_walk depth (top ++ [dirname]) body s0) s1)).
    apply emits_bind; [now apply H|]. intros s1. apply emits_for_fold.
    intros d s2 _. apply emits_bind; [apply emits_pure|].
    intros [|]; [apply emits_ret | apply IH; now apply HR].
  - cbn in E. injection E as <-. exists []. split; [now rewrite app_nil_r | constructor].
Qed.

Lemma values_In (mods : dict) value :
  In value (values mods) -> exists name, In (name, value) mods.
Proof.
  intros H. apply in_map_iff in H as [[n v] [E Hin]]. simpl in E. subst v.
  now exists n.
Qed.

(** *** The reconciliation pass *)

Lemma mod_needs_update_emits env mods name mod_id p :
  In (name, mod_id) mods ->
  emits (pass_event mods) (_mod_needs_update env mod_id p).
Proof.
  intros Hin. unfold _mod_needs_update.
  apply emits_bind; [apply emits_pure|]. intros [|]; cbn [negb];
    [|apply emits_ret].
  apply emits_bind.
  - unfold urlopen_read. apply emits_bind; [|intros _; apply emits_pure].
    apply emits_emit. cbn. eauto.
  - intros response. destruct (PATTERN_search response); [|apply emits_ret].
    apply emits_bind.
    { unfold int_. destruct (Str.int s); [apply emits_ret | apply emits_raise]. }
    intros seconds. apply emits_bind.
    { unfold datetime_fromtimestamp.
      destruct (_ && _); [apply emits_ret | apply emits_raise]. }
    intros updated_at. apply emits_bind.
    { intros w w' E. unfold os_path_getctime in E.
      destruct (FS.lookup p (disk w)) as [[| |]|]; cbn in E;
        injection E as <-; exists [];
        (split; [now rewrite app_nil_r | constructor]). }
    intros ctime. apply emits_bind; [|intros; apply emits_ret].
    unfold datetime_fromtimestamp.
    destruct (_ && _); [apply emits_ret | apply emits_raise].
Qed.

Lemma update_mod_emits env fuel mods name mod_id acc :
  In (name, mod_id) mods ->
  emits (pass_event mods) (_update_mod env fuel name mod_id acc).
Proof.
  intros Hin. unfold _update_mod. apply emits_bind.
  - unfold _delete_mod_if_needed.
    apply emits_bind; [apply emits_pure|]. intros is_dir.
    apply emits_bind; [now apply mod_needs_update_emits with name|].
    intros _. destruct is_dir; cbn [negb]; [|apply emits_ret].
    apply emits_bind; [now apply mod_needs_update_emits with name|].
    intros [|]; cbn [negb]; [|apply emits_ret].
    apply emits_bind; [|intros; apply emits_ret].
    apply emits_syscall. cbn. eauto.
  - intros [is_dir needs]. destruct (is_dir && negb needs).
    + apply emits_bind; [now apply emits_emit | intros; apply emits_ret].
    + apply emits_bind.
      * unfold _try_to_update_mod. apply emits_bind.
        -- apply emits_while. intros tries. unfold _try_once.
           apply emits_bind; [now apply emits_emit|]. intros _.
           unfold int_. destruct (Str.int mod_id) as [m|] eqn:Hm.
           ++ assert (Hrun : emits (pass_event mods)
                               (steamcmd_run env MOD (Some m) ;;
                                time_sleep 5 ;; ret (tries + 1)%Z)).
              { apply emits_bind.
                - unfold steamcmd_run.
                  apply emits_bind; [|intros _; apply emits_disk].
                  apply emits_emit. cbn. split; [reflexivity|]. eauto 7.
                - intros _. apply emits_bind; [|intros; apply emits_ret].
                  now apply emits_emit. }
              exact Hrun.
           ++ exact (emits_raise _ _).
        -- intros tries. destruct (tries >=? 10)%Z; [|apply emits_ret].
           apply emits_bind; [now apply emits_emit | intros; apply emits_ret].
      * intros [|]; apply emits_ret.
Qed.

Lemma update_mods_emits env fuel mods :
  emits (pass_event mods) (_update_mods env fuel mods).
Proof.
  unfold _update_mods. apply emits_bind; [|intros; apply emits_ret].
  unfold _update_mods_loop. apply emits_for_fold.
  intros [name id] acc Hin. now apply update_mod_emits.
Qed.

(** *** The layout normalizer *)

Lemma lower_case_entry_emits mods name id rest filename :
  In (name, id) mods ->
  emits (normalizer_event mods)
    (_lower_case_entry (A3_WORKSHOP_DIR ++ id :: rest) filename).
Proof.
  intros Hin. unfold _lower_case_entry.
  destruct (FS.path_eqb _ _) eqn:E; [apply emits_ret|].
  apply emits_try.
  - apply emits_bind; [|intros _; now apply emits_emit].
    apply emits_syscall. unfold normalizer_event.
    split; [reflexivity|]. split.
    + intros H. rewrite H, path_eqb_refl in E. discriminate.
    + exists name, id, (rest ++ [filename]). split; [exact Hin|].
      split; [now destruct rest|]. now rewrite <- app_assoc.
  - intros e. now apply emits_emit.
Qed.

Lemma lower_case_mods_emits fuel mods :
  emits (normalizer_event mods) (_lower_case_mods fuel mods).
Proof.
  unfold _lower_case_mods. apply emits_bind; [now apply emits_emit|].
  intros _. apply emits_for. intros value Hv.
  destruct (values_In _ _ Hv) as [name Hin].
  apply (emits_walk_below
           (fun p => exists rest, p = A3_WORKSHOP_DIR ++ value :: rest)).
  - intros p d [rest ->]. exists (rest ++ [d]). now rewrite <- app_assoc.
  - intros root dirs files s [rest ->]. apply emits_for.
    intros filename _. now apply lower_case_entry_emits with name.
  - now exists [].
Qed.

(** *** The link manager *)

Lemma create_mod_symlinks_emits mods :
  emits (link_event mods) (_create_mod_symlinks mods).
Proof.
  unfold _create_mod_symlinks. apply emits_bind; [now apply emits_emit|].
  intros _. apply emits_bind; [|intros _; now apply emits_emit].
  apply emits_for. intros [name id] Hin. unfold _create_mod_symlink.
  apply emits_bind; [apply emits_pure|].
  intros [|]; cbn [negb]; [|now apply emits_emit].
  apply emits_bind; [apply emits_pure|].
  intros [|]; [apply emits_ret|].
  apply emits_bind; [|intros _; now apply emits_emit].
  apply emits_syscall. unfold link_event. eauto.
Qed.

(** *** The key propagator *)

Lemma copy_key_file_emits mods name id rest file was_copied :
  In (name, id) mods ->
  emits (key_event mods)
    (_copy_key_file (A3_MOD_KEYS_SOURCE_DIRECTORY ++ id :: rest) file
       was_copied).
Proof.
  intros Hin. unfold _copy_key_file. fold (is_key file).
  destruct (is_key file) eqn:Hk; cbn [negb]; [|apply emits_ret].
  apply emits_bind; [now apply emits_emit|]. intros _.
  apply emits_bind; [|intros; apply emits_ret].
  apply emits_syscall. unfold key_event. exists name, id, rest, file.
  split; [exact Hin|]. split; [exact Hk|]. split; [|reflexivity].
  now rewrite <- app_assoc.
Qed.

Lemma copy_key_files_emits fuel mods :
  emits (key_event mods) (_copy_key_files fuel mods).
Proof.
  unfold _copy_key_files. apply emits_bind; [now apply emits_emit|].
  intros _. apply emits_bind.
  - apply emits_for_fold. intros value wc Hv.
    destruct (values_In _ _ Hv) as [name Hin].
    apply (emits_walk_below
             (fun p => exists rest,
                         p = A3_MOD_KEYS_SOURCE_DIRECTORY ++ value :: rest)).
    + intros p d [rest ->]. exists (rest ++ [d]). now rewrite <- app_assoc.
    + intros root dirs files s [rest ->]. apply emits_for_fold.
      intros file wc' _. now apply copy_key_file_emits with name.
    + now exists [].
  - intros [|]; cbn [negb]; now apply emits_emit.
Qed.

(** ** The normalizer catches what [os.rename] raises *)

Lemma never_raises_ret {A} (a : A) : never_raises (ret a).
Proof. intros w e w' H. discriminate. Qed.

Lemma never_raises_bind {A B} (m : M A) (k : A -> M B) :
  never_raises m -> (forall a, never_raises (k a)) -> never_raises (bind m k).
Proof.
  intros Hm Hk w e w' H. unfold bind in H.
  destruct (m w) as [a w1|e1 w1|] eqn:E; [| |discriminate].
  - exact (Hk a w1 e w' H).
  - exact (Hm w e1 w1 E).
Qed.

Lemma never_raises_emit e : never_raises (emit e).
Proof. intros w e' w' H. discriminate. Qed.

Lemma never_raises_for {A} (xs : list A) (body : A -> M unit) :
  (forall x, never_raises (body x)) -> never_raises (for_ xs body).
Proof.
  intros H. induction xs as [|x xs IH]; cbn [for_]; [apply never_raises_ret|].
  apply never_raises_bind; [apply H | intros _; exact IH].
Qed.

Lemma never_raises_for_fold {A St} (xs : list A) (body : A -> St -> M St) :
  (forall x s, never_raises (body x s)) ->
  forall s, never_raises (for_fold xs body s).
Proof.
  intros H. induction xs as [|x xs IH]; intros s; cbn [for_fold];
    [apply never_raises_ret|].
  apply never_raises_bind; [apply H | exact IH].
Qed.

Lemma never_raises_walk {St} depth
  (body : path -> list string -> list string -> St -> M St) :
  (forall root dirs files s, never_raises (body root dirs files s)) ->
  forall top s, never_raises (os_walk depth top body s).
Proof.
  intros H. induction depth as [|depth IH]; intros top s w e w' E;
    cbn [os_walk] in E;
    destruct (FS.scandir top (disk w)) as [[dirs files]|]; try discriminate.
  revert E.
  change ((s1 <- body top dirs files s ;;
           for_fold dirs (fun dirname s0 =>
             is_link <- os_path_islink (top ++ [dirname]) ;;
             if is_link then ret s0
             else os_walk depth (top ++ [dirname]) body s0) s1) w
          <> Raised e w').
  apply never_raises_bind; [apply H|]. intros s1. apply never_raises_for_fold.
  intros d s2. apply never_raises_bind; [intros w0 e0 w0' E0; discriminate|].
  intros [|]; [apply never_raises_ret | apply IH].
Qed.

Lemma lower_case_entry_never_raises root filename :
  never_raises (_lower_case_entry root filename).
Proof.
  unfold _lower_case_entry. destruct (FS.path_eqb _ _); [apply never_raises_ret|].
  intros w e w' H. unfold try_except_OSError in H.
  unfold bind, os_rename, syscall, bind, emit, print, emit in H.
  cbn [disk trace] in H.
  destruct (FS.rename _ _ (disk w)); discriminate.
Qed.

Lemma lower_case_mods_never_raises fuel mods :
  never_raises (_lower_case_mods fuel mods).
Proof.
  unfold _lower_case_mods.
  apply never_raises_bind; [apply never_raises_emit|]. intros _.
  apply never_raises_for. intros value. apply never_raises_walk.
  intros root dirs files s. apply never_raises_for.
  intros filename. apply lower_case_entry_never_raises.
Qed.

(** ** Edge cases of the link manager and of the key propagator *)

(** X8.  A link path that is taken stops the link manager: when the content
    directory of the first mod exists and something that is not a link (a
    directory, a regular file) stands at its link path,
    [_create_mod_symlinks] calls [os.symlink] once, which raises
    [FileExistsError]; the exception is not caught, the disk is as it was
    and the mods after it get no link. *)
Theorem link_path_taken_aborts mod_name mod_id rest w x :
  let link_path := A3_MODS_DIR ++ [mod_name] in
  let real_path := A3_WORKSHOP_DIR ++ [mod_id] in
  FS.isdir real_path (disk w) = true ->
  FS.lookup link_path (disk w) = Some x ->
  (forall target, x <> Symlink target) ->
  _create_mod_symlinks ((mod_name, mod_id) :: rest) w
  = Raised (OSError FS.EEXIST)
      (mkWorld (disk w)
         (trace w ++ [Log "Creating symlinks...";
                      MkSymlink real_path link_path])).
Proof.
  intros link_path real_path Hdir Hx Hnot.
  set (w0 := mkWorld (disk w) (trace w ++ [Log "Creating symlinks..."])).
  assert (Hturn : _create_mod_symlink mod_name mod_id w0
                  = Raised (OSError FS.EEXIST)
                      (mkWorld (disk w0)
                         (trace w0 ++ [MkSymlink real_path link_path]))).
  { destruct (create_mod_symlink_cases mod_name mod_id w0)
      as [[Hno _] | [[_ [Hl _]] | [_ [_ Hcall]]]].
    - unfold w0 in Hno. cbn [disk] in Hno. fold real_path in Hno. congruence.
    - unfold w0 in Hl. cbn [disk] in Hl. fold link_path in Hl.
      unfold FS.islink in Hl. rewrite Hx in Hl.
      destruct x; try discriminate. now destruct (Hnot target).
    - destruct Hcall as [[t' [line [Hnone _]]] | [_ Hrun]]; [|exact Hrun].
      unfold w0 in Hnone. cbn [disk] in Hnone. fold link_path in Hnone.
      congruence. }
  unfold _create_mod_symlinks, bind at 1, logger_log, emit. fold w0.
  cbn [for_]. unfold bind at 1 2. rewrite Hturn.
  unfold w0. cbn [disk trace]. now rewrite <- app_assoc.
Qed.

Lemma update_no_parent p : forall t n v,
  FS.lookup p t = None -> FS.update (p ++ [n]) v t = None.
Proof.
  induction p as [|m p IH]; intros t n v H; [discriminate|].
  change ((m :: p) ++ [n]) with (m :: (p ++ [n])).
  destruct (p ++ [n]) as [|a q] eqn:Hq; [now destruct p|].
  rewrite update_cons. simpl in H. destruct t as [| |c es]; try reflexivity.
  destruct (FS.assoc m es) as [child|]; [|reflexivity].
  rewrite <- Hq, (IH child n v H). reflexivity.
Qed.

Lemma first_key_raise_app wc w ks1 ks2 :
  first_key_raise wc w (ks1 ++ ks2)
  = match first_key_raise wc w ks1 with
    | Ok _ _ => first_key_raise wc w ks2
    | r => r
    end.
Proof. destruct ks1 as [|[d n] ks1]; reflexivity. Qed.

Lemma copy_key_file_no_destination root file wc w data :
  outside_keys root ->
  FS.lookup A3_MOD_KEYS_DESTINATION_DIRECTORY (disk w) = None ->
  is_key file = true ->
  FS.lookup (root ++ [file]) (disk w) = Some (File data) ->
  _copy_key_file root file wc w = first_key_raise wc w [(root, file)].
Proof.
  intros Hout Hdst Hk Hsrc. unfold _copy_key_file. fold (is_key file).
  rewrite Hk. cbv beta iota delta [negb].
  unfold bind, print, shutil_copy, syscall, bind, emit. cbn [disk trace].
  assert (Hnone : FS.lookup (A3_MOD_KEYS_DESTINATION_DIRECTORY ++ [file])
                    (disk w) = None) by now rewrite lookup_app, Hdst.
  unfold FS.copy, FS.isdir. rewrite Hnone.
  rewrite (outside_keys_not_destination _ file (outside_keys_app _ [file] Hout)),
    Hsrc, Hnone, (update_no_parent _ _ _ _ Hdst).
  cbn. now rewrite <- app_assoc.
Qed.

Lemma copy_files_no_destination root : forall files wc w,
  outside_keys root ->
  FS.lookup A3_MOD_KEYS_DESTINATION_DIRECTORY (disk w) = None ->
  (forall f, In f files -> is_key f = true ->
     exists data, FS.lookup (root ++ [f]) (disk w) = Some (File data)) ->
  for_fold files (_copy_key_file root) wc w
  = first_key_raise wc w (map (pair root) (filter is_key files)).
Proof.
  induction files as [|f files IH]; intros wc w Hout Hdst Hsrc; [reflexivity|].
  cbn [for_fold filter]. unfold bind at 1. destruct (is_key f) eqn:Hk.
  - destruct (Hsrc f (or_introl eq_refl) Hk) as [data Hdata].
    now rewrite (copy_key_file_no_destination root f wc w data Hout Hdst Hk
                   Hdata).
  - rewrite (copy_key_file_skips root f wc w Hk).
    apply IH; [exact Hout | exact Hdst |].
    intros g Hg. apply Hsrc. now right.
Qed.

(** Without a destination the walk ends at the first key file. *)
Lemma copy_walk_no_destination depth : forall top t wc w,
  outside_keys top ->
  FS.lookup top (disk w) = Some t ->
  well_formed t = true -> keys_regular t = true ->
  (height t <= depth)%nat ->
  FS.lookup A3_MOD_KEYS_DESTINATION_DIRECTORY (disk w) = None ->
  os_walk depth top
    (fun root_dir _ files was_copied =>
       for_fold files (_copy_key_file root_dir) was_copied) wc w
  = first_key_raise wc w (key_files top t).
Proof.
  induction depth as [|depth IH]; intros top t wc w Hout Hl Hwf Hreg Hh Hdst.
  - destruct t as [| |c es]; [| |simpl in Hh; lia];
      cbn [os_walk]; rewrite scandir_other; try reflexivity;
        intros c es; rewrite Hl; discriminate.
  - destruct t as [data|target|c es].
    1,2: cbn [os_walk]; rewrite scandir_other; try reflexivity;
      intros c es; rewrite Hl; discriminate.
    cbn [os_walk key_files]. rewrite (scandir_dir _ _ _ _ Hl).
    unfold bind at 1. rewrite first_key_raise_app.
    rewrite (copy_files_no_destination top (file_names es) wc w Hout Hdst).
    2:{ intros f Hf Hk. apply file_names_In in Hf as [x [Hx Hnd]].
        destruct (well_formed_child _ _ _ _ Hwf Hx) as [Ha _].
        destruct (keys_regular_child _ _ _ _ Hreg Hx) as [_ Hfile].
        destruct (Hfile Hnd Hk) as [data ->]. exists data.
        now rewrite (lookup_child _ _ _ _ f Hl). }
    destruct (map (pair top) (filter is_key (file_names es))) as [|[d n] ks];
      [|reflexivity].
    cbn [first_key_raise].
    assert (Hdirs : forall es',
      (forall e, In e es' -> In e es) ->
      for_fold (dir_names es')
        (fun dirname s =>
           is_link <- os_path_islink (top ++ [dirname]) ;;
           if is_link then ret s
           else os_walk depth (top ++ [dirname])
                  (fun root_dir _ files was_copied =>
                     for_fold files (_copy_key_file root_dir) was_copied) s)
        wc w
      = first_key_raise wc w
          (flat_map (fun e => key_files (top ++ [fst e]) (snd e)) es')).
    { induction es' as [|[m child] es' IHes]; intros Hincl; [reflexivity|].
      assert (Hm : In (m, child) es) by (apply Hincl; now left).
      destruct (well_formed_child _ _ _ _ Hwf Hm) as [Ha Hwf'].
      destruct (keys_regular_child _ _ _ _ Hreg Hm) as [Hreg' _].
      pose proof (height_child c _ _ _ Hm) as Hlt.
      assert (Hchild : FS.lookup (top ++ [m]) (disk w) = Some child)
        by now rewrite (lookup_child _ _ _ _ m Hl).
      assert (Hrest : forall e, In e es' -> In e es)
        by (intros e He; apply Hincl; now right).
      cbn [flat_map fst snd]. rewrite first_key_raise_app.
      destruct child as [data|target|c' es''].
      - change (dir_names ((m, File data) :: es')) with (dir_names es').
        cbn [key_files first_key_raise]. now apply IHes.
      - change (dir_names ((m, Symlink target) :: es')) with (dir_names es').
        cbn [key_files first_key_raise]. now apply IHes.
      - change (dir_names ((m, Dir c' es'') :: es')) with (m :: dir_names es').
        cbn [for_fold]. unfold bind at 1. unfold bind at 1.
        unfold os_path_islink at 1. unfold FS.islink. rewrite Hchild.
        cbv beta iota.
        rewrite (IH (top ++ [m]) (Dir c' es'') wc w);
          [| now apply outside_keys_app | exact Hchild | exact Hwf'
           | exact Hreg' | lia | exact Hdst].
        destruct (key_files (top ++ [m]) (Dir c' es'')) as [|[d n] ks];
          [|reflexivity].
        cbn [first_key_raise]. now apply IHes. }
    apply Hdirs. auto.
Qed.

Lemma copy_mods_no_destination fuel : forall updated_mods wc w,
  trees_ok fuel updated_mods (disk w) ->
  FS.lookup A3_MOD_KEYS_DESTINATION_DIRECTORY (disk w) = None ->
  for_fold (values updated_mods)
    (fun value was_copied =>
       os_walk fuel (A3_MOD_KEYS_SOURCE_DIRECTORY ++ [value])
         (fun root_dir _ files was_copied =>
            for_fold files (_copy_key_file root_dir) was_copied)
         was_copied) wc w
  = first_key_raise wc w (mods_key_files updated_mods (disk w)).
Proof.
  induction updated_mods as [|[mod_name value] mods IH]; intros wc w Hok Hdst;
    [reflexivity|].
  assert (Hok' : trees_ok fuel mods (disk w)).
  { intros v t Hv. apply Hok. now right. }
  change (values ((mod_name, value) :: mods)) with (value :: values mods).
  change (mods_key_files ((mod_name, value) :: mods) (disk w))
    with ((match FS.lookup (A3_MOD_KEYS_SOURCE_DIRECTORY ++ [value]) (disk w)
           with
           | Some sub => key_files (A3_MOD_KEYS_SOURCE_DIRECTORY ++ [value]) sub
           | None => []
           end) ++ mods_key_files mods (disk w)).
  cbn [for_fold]. unfold bind at 1. rewrite first_key_raise_app.
  destruct (FS.lookup (A3_MOD_KEYS_SOURCE_DIRECTORY ++ [value]) (disk w))
    as [sub|] eqn:Hsub.
  - destruct (Hok value sub (or_introl eq_refl) Hsub) as [Hwf [Hreg Hh]].
    rewrite (copy_walk_no_destination fuel _ sub wc w
               (source_outside_keys value) Hsub Hwf Hreg Hh Hdst).
    destruct (key_files _ sub) as [|[d n] ks]; [|reflexivity].
    cbn [first_key_raise]. now apply IH.
  - assert (Hwalk : os_walk fuel (A3_MOD_KEYS_SOURCE_DIRECTORY ++ [value])
                      (fun root_dir _ files was_copied =>
                         for_fold files (_copy_key_file root_dir) was_copied)
                      wc w = Ok wc w).
    { destruct fuel; cbn [os_walk]; rewrite scandir_other; try reflexivity;
        intros c es; rewrite Hsub; discriminate. }
    rewrite Hwalk. cbn [first_key_raise]. now apply IH.
Qed.

(** X9.  Without the keys directory the key propagator stops at the first
    key: when nothing is at the destination path and the content trees are
    well formed, [_copy_key_files] prints the nothing-to-copy line if no
    key file is reachable, and otherwise announces the first key file,
    calls [shutil.copy] on it once and lets its [FileNotFoundError]
    through, with the disk as it was. *)
Theorem missing_destination_aborts_key_copy fuel updated_mods w :
  FS.lookup A3_MOD_KEYS_DESTINATION_DIRECTORY (disk w) = None ->
  trees_ok fuel updated_mods (disk w) ->
  _copy_key_files fuel updated_mods w =
  match mods_key_files updated_mods (disk w) with
  | [] =>
      Ok tt
        (mkWorld (disk w)
           (trace w ++ [Log "Start copy of Mods sign key files...";
                        Stdout nothing_to_copy_line]))
  | (d, n) :: _ =>
      Raised (OSError FS.ENOENT)
        (mkWorld (disk w)
           (trace w ++ [Log "Start copy of Mods sign key files...";
                        Stdout ("Copy " ++ n ++ " file");
                        Copy (d ++ [n])
                             (A3_MOD_KEYS_DESTINATION_DIRECTORY ++ [n])]))
  end.
Proof.
  intros Hdst Hok.
  unfold _copy_key_files, bind at 1, logger_log, emit. unfold bind at 1.
  rewrite (copy_mods_no_destination fuel updated_mods false
             (mkWorld (disk w)
                (trace w ++ [Log "Start copy of Mods sign key files..."]))
             Hok Hdst).
  cbn [disk]. destruct (mods_key_files updated_mods (disk w)) as [|[d n] ks];
    cbn [first_key_raise negb]; unfold print, emit; cbn [disk trace];
    now rewrite <- app_assoc.
Qed.

(** ** What the stages of the mods-only operation may do *)

Lemma normalizer_event_subset d mods e :
  (forall n i, In (n, i) d -> In (n, i) mods) ->
  normalizer_event d e -> normalizer_event mods e.
Proof.
  intros Hsub. destruct e; cbn; try tauto.
  intros [H1 [H2 [name [id [rest [Hin H]]]]]]. split; [exact H1|].
  split; [exact H2|]. eauto 8.
Qed.

Lemma link_event_subset d mods e :
  (forall n i, In (n, i) d -> In (n, i) mods) ->
  link_event d e -> link_event mods e.
Proof.
  intros Hsub. destruct e; cbn; try tauto.
  intros [name [id [Hin H]]]. eauto.
Qed.

Lemma key_event_subset d mods e :
  (forall n i, In (n, i) d -> In (n, i) mods) ->
  key_event d e -> key_event mods e.
Proof.
  intros Hsub. destruct e; cbn; try tauto.
  intros [name [id [rest [file [Hin H]]]]]. eauto 8.
Qed.

Lemma emits_bind_result P {A B} (Q : A -> Prop) (m : M A) (k : A -> M B) :
  emits P m -> (forall w a w', m w = Ok a w' -> Q a) ->
  (forall a, Q a -> emits P (k a)) -> emits P (bind m k).
Proof.
  intros Hm HQ Hk w w' H. unfold bind in H.
  destruct (m w) as [a w1|e w1|] eqn:E; [| |discriminate].
  - destruct (Hm w w1) as [evs1 [T1 F1]]; [now rewrite E|].
    destruct (Hk a (HQ _ _ _ E) w1 w' H) as [evs2 [T2 F2]].
    exists (evs1 ++ evs2). split; [now rewrite T2, T1, app_assoc|].
    now apply Forall_app.
  - apply (Hm w w'). now rewrite E.
Qed.

Lemma update_mods_subset env fuel mods w r w' :
  _update_mods env fuel mods w = Ok r w' ->
  match r with
  | None => True
  | Some d => d <> [] /\ forall n i, In (n, i) d -> In (n, i) mods
  end.
Proof.
  unfold _update_mods, bind.
  destruct (_update_mods_loop env fuel mods [] w) as [d w1|e w1|] eqn:E;
    try discriminate.
  unfold ret. intros H. injection H as <- _.
  destruct d as [|x d]; [exact I|]. split; [discriminate|].
  intros n i Hin.
  destruct (update_mods_loop_subset env fuel mods [] w _ _ E n i Hin)
    as [[]|H]; exact H.
Qed.

Lemma update_mods_only_emits env fuel mods :
  emits (operation_event mods) (_update_mods_only env fuel mods).
Proof.
  unfold _update_mods_only.
  apply (emits_bind_result _
           (fun r => match r with
                     | None => True
                     | Some d => d <> [] /\
                                 forall n i, In (n, i) d -> In (n, i) mods
                     end)).
  - eapply emits_weaken; [|apply update_mods_emits].
    intros e He. now left.
  - intros w r w'. apply update_mods_subset.
  - intros [d|] Hd.
    + destruct Hd as [_ Hsub].
      apply emits_bind.
      { eapply emits_weaken; [|apply lower_case_mods_emits].
        intros e He. right. left. eapply normalizer_event_subset; eassumption. }
      intros _. apply emits_bind.
      { eapply emits_weaken; [|apply create_mod_symlinks_emits].
        intros e He. right. right. left.
        eapply link_event_subset; eassumption. }
      intros _. eapply emits_weaken; [|apply copy_key_files_emits].
      intros e He. right. right. right. eapply key_event_subset; eassumption.
    + apply emits_bind; [|intros _]; apply emits_emit; now left.
Qed.

(** ** The marker pattern *)

Lemma prefix_split p : forall s,
  String.prefix p s = true ->
  exists rest, s = (p ++ rest)%string /\ Str.drop (String.length p) s = rest.
Proof.
  induction p as [|a p IH]; intros s H.
  - exists s. split; reflexivity.
  - destruct s as [|b s]; [discriminate|]. simpl in H.
    destruct (ascii_dec a b) as [->|]; [|discriminate].
    destruct (IH s H) as [rest [-> Hd]]. exists rest. split; [reflexivity|].
    exact Hd.
Qed.

Lemma prefix_app p rest : String.prefix p (p ++ rest) = true.
Proof.
  induction p as [|a p IH]; [now destruct rest|]. simpl.
  destruct (ascii_dec a a); [exact IH | congruence].
Qed.

Lemma drop_app p rest : Str.drop (String.length p) (p ++ rest) = rest.
Proof. induction p as [|a p IH]; [reflexivity | exact IH]. Qed.

Lemma span_digits_split s : forall ds rest,
  Str.span_digits s = (ds, rest) -> s = (ds ++ rest)%string.
Proof.
  induction s as [|c s IH]; intros ds rest H; simpl in H.
  - injection H as <- <-. reflexivity.
  - destruct (Str.is_digit c).
    + destruct (Str.span_digits s) as [ds' rest'].
      injection H as <- <-. simpl. f_equal. now apply IH.
    + injection H as <- <-. reflexivity.
Qed.

Lemma span_digits_app ds : forall rest,
  Str.all_digits ds = true ->
  match rest with String c _ => Str.is_digit c = false | EmptyString => True end ->
  Str.span_digits (ds ++ rest) = (ds, rest).
Proof.
  induction ds as [|c ds IH]; intros rest Hd Hr.
  - simpl. destruct rest as [|c rest]; [reflexivity|]. simpl. now rewrite Hr.
  - simpl in Hd. apply andb_true_iff in Hd as [Hc Hd]. simpl. rewrite Hc.
    now rewrite (IH rest Hd Hr).
Qed.

Lemma p_tag_shape s g :
  p_tag s = Some g ->
  exists post, s = (p_open ++ g ++ p_close ++ post)%string.
Proof.
  unfold p_tag. destruct (String.prefix p_open s) eqn:Hp; [|discriminate].
  destruct (prefix_split _ _ Hp) as [rest [-> Hd]]. rewrite Hd.
  destruct (Str.span_digits rest) as [ds rest'] eqn:Hs.
  apply span_digits_split in Hs. subst rest.
  destruct ds as [|c ds]; [discriminate|].
  destruct (String.prefix p_close rest') eqn:Hc; [|discriminate].
  destruct (prefix_split _ _ Hc) as [post [-> _]].
  intros H. injection H as <-. now exists post.
Qed.

Lemma p_tag_found g post :
  g <> EmptyString -> Str.all_digits g = true ->
  p_tag (p_open ++ g ++ p_close ++ post) = Some g.
Proof.
  intros Hne Hd. unfold p_tag. rewrite prefix_app, drop_app.
  rewrite (span_digits_app g (p_close ++ post) Hd) by reflexivity.
  destruct g; [congruence|]. now rewrite prefix_app.
Qed.

Lemma lazy_p_tag_shape s g :
  lazy_p_tag s = Some g ->
  exists mid post, s = (mid ++ p_open ++ g ++ p_close ++ post)%string.
Proof.
  induction s as [|c s IH].
  - vm_compute. discriminate.
  - cbn [lazy_p_tag]. destruct (p_tag (String c s)) as [g'|] eqn:Ht.
    + intros H. injection H as ->. destruct (p_tag_shape _ _ Ht) as [post E].
      exists EmptyString, post. exact E.
    + intros H. destruct (IH H) as [mid [post ->]].
      now exists (String c mid), post.
Qed.

Lemma lazy_p_tag_unfold s :
  lazy_p_tag s =
  match p_tag s with
  | Some ds => Some ds
  | None => match s with
            | EmptyString => None
            | String _ s' => lazy_p_tag s'
            end
  end.
Proof. destruct s; reflexivity. Qed.

Lemma PATTERN_search_unfold s :
  PATTERN_search s =
  match (if String.prefix marker s
         then lazy_p_tag (Str.drop (String.length marker) s) else None) with
  | Some ds => Some ds
  | None => match s with
            | EmptyString => None
            | String _ s' => PATTERN_search s'
            end
  end.
Proof. destruct s; reflexivity. Qed.

Lemma lazy_p_tag_found mid : forall g post,
  g <> EmptyString -> Str.all_digits g = true ->
  lazy_p_tag (mid ++ p_open ++ g ++ p_close ++ post) <> None.
Proof.
  induction mid as [|c mid IH]; intros g post Hne Hd.
  - cbn [append]. rewrite lazy_p_tag_unfold, (p_tag_found g post Hne Hd).
    discriminate.
  - cbn [append lazy_p_tag].
    destruct (p_tag _); [discriminate|]. now apply IH.
Qed.

Lemma PATTERN_search_shape s g :
  PATTERN_search s = Some g ->
  exists pre mid post,
    s = (pre ++ marker ++ mid ++ p_open ++ g ++ p_close ++ post)%string.
Proof.
  induction s as [|c s IH]; intros H.
  - vm_compute in H. discriminate.
  - cbn [PATTERN_search] in H.
    destruct (String.prefix marker (String c s)) eqn:Hp.
    + destruct (lazy_p_tag _) as [g'|] eqn:Hl.
      * injection H as ->. destruct (prefix_split _ _ Hp) as [rest [E Hd]].
        rewrite Hd in Hl. destruct (lazy_p_tag_shape _ _ Hl) as [mid [post ->]].
        exists EmptyString, mid, post. exact E.
      * destruct (IH H) as [pre [mid [post ->]]].
        now exists (String c pre), mid, post.
    + destruct (IH H) as [pre [mid [post ->]]].
      now exists (String c pre), mid, post.
Qed.

Lemma PATTERN_search_found pre : forall mid g post,
  g <> EmptyString -> Str.all_digits g = true ->
  PATTERN_search (pre ++ marker ++ mid ++ p_open ++ g ++ p_close ++ post)
  <> None.
Proof.
  induction pre as [|c pre IH]; intros mid g post Hne Hd.
  - cbn [append]. rewrite PATTERN_search_unfold, prefix_app, drop_app.
    pose proof (lazy_p_tag_found mid g post Hne Hd) as Hl.
    destruct (lazy_p_tag _); [discriminate | congruence].
  - cbn [append PATTERN_search].
    destruct (if String.prefix marker _ then _ else None); [discriminate|].
    now apply IH.
Qed.

Lemma int_digits_nonneg s : forall b acc n,
  (0 <= acc)%Z -> Str.int_digits b acc s = Some n -> (0 <= n)%Z.
Proof.
  induction s as [|c s IH]; intros b acc n Hacc H; simpl in H.
  - destruct b; [|discriminate]. injection H as <-. exact Hacc.
  - destruct (Str.is_digit c).
    + apply (IH true (10 * acc + Str.digit_val c)%Z n); [|exact H].
      unfold Str.digit_val. lia.
    + destruct (_ && _); [|discriminate]. exact (IH false acc n Hacc H).
Qed.

(** X11.  What [PATTERN] finds: [PATTERN.search] succeeds exactly on the
    responses that hold the marker [workshopAnnouncement] followed,
    anywhere later, by a [p] tag whose [id] is a non-empty string of
    digits; group 1 is then such a string of digits, taken from a tag
    placed so, [int] accepts it with a value that is not negative, and the
    remote update time is that many seconds. *)
Theorem PATTERN_finds_a_time_stamp response :
  (PATTERN_search response <> None <->
   exists pre mid digits post,
     digits <> EmptyString /\ Str.all_digits digits = true /\
     response =
       (pre ++ marker ++ mid ++ p_open ++ digits ++ p_close ++ post)%string)
  /\
  (forall group1,
     PATTERN_search response = Some group1 ->
     (exists pre mid post,
        response =
          (pre ++ marker ++ mid ++ p_open ++ group1 ++ p_close ++ post)%string)
     /\ group1 <> EmptyString /\ Str.all_digits group1 = true
     /\ exists seconds,
          Str.int group1 = Some seconds /\ (0 <= seconds)%Z /\
          remote_updated_at response = Some (1000000 * seconds)%Z).
Proof.
  assert (Hsound : forall group1,
     PATTERN_search response = Some group1 ->
     (exists pre mid post,
        response =
          (pre ++ marker ++ mid ++ p_open ++ group1 ++ p_close ++ post)%string)
     /\ group1 <> EmptyString /\ Str.all_digits group1 = true
     /\ exists seconds,
          Str.int group1 = Some seconds /\ (0 <= seconds)%Z /\
          remote_updated_at response = Some (1000000 * seconds)%Z).
  { intros g Hg. split; [now apply PATTERN_search_shape|].
    destruct (PATTERN_search_digits _ _ Hg) as [Hne Hd].
    split; [exact Hne|]. split; [exact Hd|].
    destruct (remote_updated_at_found _ _ Hg) as [n [Hn Hr]].
    exists n. split; [exact Hn|]. split; [|exact Hr].
    unfold Str.int in Hn. rewrite (strip_digits _ Hd) in Hn.
    destruct g as [|c g]; [congruence|].
    pose proof Hd as Hd'. simpl in Hd'. apply andb_true_iff in Hd' as [Hc _].
    destruct (digit_not_sign _ Hc) as [E1 E2]. rewrite E1, E2 in Hn.
    eapply int_digits_nonneg; [|exact Hn]. lia. }
  split; [|exact Hsound]. split.
  - intros H. destruct (PATTERN_search response) as [g|] eqn:Hg; [|congruence].
    destruct (Hsound g eq_refl) as [[pre [mid [post E]]] [Hne [Hd _]]].
    now exists pre, mid, g, post.
  - intros [pre [mid [digits [post [Hne [Hd ->]]]]]].
    now apply PATTERN_search_found.
Qed.

(** ** What each stage is confined to *)

(** X4.  The staleness check only reads: however [_mod_needs_update] ends,
    with an answer or with an exception, the disk is as it was and the
    record has grown by exactly one read of the changelog of the mod when
    the path is a directory, and by nothing otherwise. *)
Theorem mod_needs_update_only_reads env mod_id p w w' :
  final_world (_mod_needs_update env mod_id p w) = Some w' ->
  disk w' = disk w /\
  trace w' =
    trace w ++ (if FS.isdir p (disk w)
                then [UrlOpen (WORKSHOP_CHANGELOG_URL ++ "/" ++ mod_id)]
                else []).
Proof.
  unfold _mod_needs_update, bind, os_path_isdir.
  destruct (FS.isdir p (disk w)); cbv beta iota delta [negb].
  - unfold urlopen_read, bind, emit.
    set (asked := mkWorld (disk w) (trace w ++ [UrlOpen _])).
    assert (Hdone : forall b, final_world (@Ok bool b asked) = Some w' ->
                    disk w' = disk w /\ trace w' = trace asked).
    { cbn. intros b H. injection H as <-. now split. }
    assert (Hfail : forall e, final_world (@Raised bool e asked) = Some w' ->
                    disk w' = disk w /\ trace w' = trace asked).
    { cbn. intros e H. injection H as <-. now split. }
    destruct (PATTERN_search _) as [g|]; [|apply Hdone].
    unfold int_. destruct (Str.int g) as [s|]; [|apply Hfail].
    unfold ret, datetime_fromtimestamp at 1. cbv zeta.
    destruct ((datetime_min <=? naive_local (utcoffset env) (1000000 * s))%Z
              && (naive_local (utcoffset env) (1000000 * s)
                  <=? datetime_max)%Z); [|apply Hfail].
    unfold ret, os_path_getctime. change (disk asked) with (disk w).
    destruct (FS.lookup p (disk w)) as [[ | |c es]|]; try apply Hfail.
    unfold datetime_fromtimestamp. cbv zeta.
    destruct ((datetime_min <=? naive_local (utcoffset env) c)%Z
              && (naive_local (utcoffset env) c <=? datetime_max)%Z);
      [apply Hdone|apply Hfail].
  - unfold ret. cbn. intros H. injection H as <-.
    now rewrite app_nil_r.
Qed.

(** X5.  A reconciliation pass is confined to its mods: however
    [_update_mods] ends, every event it adds is console output, a read of
    the changelog of a mod of [mods_to_update], the removal of the content
    directory of one, a fetch of kind MOD of the number that is the id of
    one, or a pause of 5 seconds; it renames, links and copies nothing.
    When it returns a dict, the dict is not empty and each of its items is
    an item of [mods_to_update]. *)
Theorem update_mods_confined env fuel mods w w' :
  final_world (_update_mods env fuel mods w) = Some w' ->
  (exists evs, trace w' = trace w ++ evs /\ Forall (pass_event mods) evs) /\
  (forall updated_mods,
     _update_mods env fuel mods w = Ok (Some updated_mods) w' ->
     updated_mods <> [] /\
     forall name id, In (name, id) updated_mods -> In (name, id) mods).
Proof.
  intros H. split; [exact (update_mods_emits env fuel mods w w' H)|].
  intros d Hd. exact (update_mods_subset env fuel mods w _ w' Hd).
Qed.

(** X6.  The layout normalizer never raises and only lowers: when
    [_lower_case_mods] ends it returns normally, every [OSError] of
    [os.rename] being caught, and every [os.rename] it called was to move
    an entry below the content directory of one of the mods to the
    lower-cased form of its whole path, which differs from the path. *)
Theorem lower_case_mods_only_lowers fuel mods w w' :
  final_world (_lower_case_mods fuel mods w) = Some w' ->
  _lower_case_mods fuel mods w = Ok tt w' /\
  exists evs, trace w' = trace w ++ evs /\ Forall (normalizer_event mods) evs.
Proof.
  intros H. split; [|exact (lower_case_mods_emits fuel mods w w' H)].
  destruct (_lower_case_mods fuel mods w) as [[] w1|e w1|] eqn:E.
  - cbn in H. now injection H as <-.
  - exfalso. exact (lower_case_mods_never_raises fuel mods w e w1 E).
  - discriminate.
Qed.

(** X10.  The key propagator copies key files only, into the keys directory
    only: however [_copy_key_files] ends, every [shutil.copy] it called has
    as source a file with a name ending in [.bikey] below the content
    directory of one of the mods, and as destination that name directly in
    the keys directory; it renames, links, removes and fetches nothing. *)
Theorem copy_key_files_confined fuel mods w w' :
  final_world (_copy_key_files fuel mods w) = Some w' ->
  exists evs, trace w' = trace w ++ evs /\ Forall (key_event mods) evs.
Proof.
  exact (copy_key_files_emits fuel mods w w').
Qed.

(** ** Grafting a sub-tree *)

Lemma set_entry_twice n a b : forall es,
  FS.set_entry n (Some b) (FS.set_entry n (Some a) es)
  = FS.set_entry n (Some b) es.
Proof.
  induction es as [|[m c] es IH]; cbn [FS.set_entry].
  - now rewrite String.eqb_refl.
  - destruct (String.eqb m n) eqn:E; cbn [FS.set_entry]; rewrite E;
      [reflexivity|now rewrite IH].
Qed.

Lemma set_entry_same n c : forall es,
  FS.assoc n es = Some c -> FS.set_entry n (Some c) es = es.
Proof.
  induction es as [|[m d] es IH]; cbn [FS.assoc FS.set_entry]; [discriminate|].
  destruct (String.eqb m n); intros H.
  - now injection H as ->.
  - now rewrite IH.
Qed.

Lemma graft_same p : forall t x, FS.lookup p t = Some x -> graft p x t = t.
Proof.
  induction p as [|n p IH]; intros t x H; cbn in *.
  - now injection H as ->.
  - destruct t as [| |c es]; try discriminate.
    destruct (FS.assoc n es) as [child|] eqn:Hn; [|discriminate].
    rewrite (IH _ _ H). now rewrite set_entry_same.
Qed.

Lemma lookup_graft p s : forall t x,
  FS.lookup p t = Some x -> FS.lookup p (graft p s t) = Some s.
Proof.
  induction p as [|n p IH]; intros t x H; cbn in *; [reflexivity|].
  destruct t as [| |c es]; try discriminate.
  destruct (FS.assoc n es) as [child|] eqn:Hn; [|discriminate].
  cbn. rewrite assoc_set_entry_same. eapply IH; eassumption.
Qed.

Lemma graft_graft p s1 s2 : forall t,
  graft p s2 (graft p s1 t) = graft p s2 t.
Proof.
  induction p as [|n p IH]; intros t; cbn; [reflexivity|].
  destruct t as [| |c es]; try reflexivity.
  destruct (FS.assoc n es) as [child|] eqn:Hn.
  - cbn. rewrite assoc_set_entry_same, set_entry_twice, IH. reflexivity.
  - cbn. now rewrite Hn.
Qed.

Lemma graft_app p q s : forall t x,
  FS.lookup p t = Some x -> graft (p ++ q) s t = graft p (graft q s x) t.
Proof.
  induction p as [|n p IH]; intros t x H; cbn in *.
  - now injection H as ->.
  - destruct t as [| |c es]; try discriminate.
    destruct (FS.assoc n es) as [child|] eqn:Hn; [|discriminate].
    now rewrite (IH _ _ H).
Qed.

Lemma update_graft p : forall t c es n v,
  FS.lookup p t = Some (Dir c es) ->
  FS.update (p ++ [n]) v t = Some (graft p (Dir c (FS.set_entry n v es)) t).
Proof.
  induction p as [|m p IH]; intros t c es n v H.
  - cbn in H. injection H as ->. reflexivity.
  - cbn in H. destruct t as [| |c0 es0]; try discriminate.
    destruct (FS.assoc m es0) as [child|] eqn:Hm; [|discriminate].
    change ((m :: p) ++ [n]) with (m :: (p ++ [n])).
    destruct (p ++ [n]) as [|a q] eqn:Hq; [now destruct p|].
    rewrite update_cons, Hm, <- Hq, (IH _ _ _ _ _ H).
    cbn. now rewrite Hm.
Qed.

Lemma lookup_graft_other pre : forall a b r1 r2 s t,
  a <> b ->
  FS.lookup (pre ++ b :: r2) (graft (pre ++ a :: r1) s t)
  = FS.lookup (pre ++ b :: r2) t.
Proof.
  induction pre as [|x pre IH]; intros a b r1 r2 s t Hab.
  - cbn. destruct t as [| |c es]; try reflexivity.
    destruct (FS.assoc a es) as [child|]; [|reflexivity].
    cbn. rewrite assoc_set_entry_other; congruence.
  - cbn. destruct t as [| |c es]; try reflexivity.
    destruct (FS.assoc x es) as [child|] eqn:Hx; [|cbn; now rewrite Hx].
    cbn. rewrite assoc_set_entry_same. now apply IH.
Qed.

(** ** Entries of a directory *)

Lemma existsb_eqb_In n l : existsb (String.eqb n) l = true <-> In n l.
Proof.
  rewrite existsb_exists. split.
  - intros [x [Hin E]]. apply String.eqb_eq in E. now subst.
  - intros H. exists n. split; [exact H|apply String.eqb_refl].
Qed.

Lemma unique_NoDup l : unique l = true -> NoDup l.
Proof.
  induction l as [|n l IH]; cbn [unique]; intros H; [constructor|].
  apply andb_true_iff in H as [Hn Hu]. constructor; [|now apply IH].
  intros Hin. apply existsb_eqb_In in Hin. rewrite Hin in Hn. discriminate.
Qed.

Lemma NoDup_unique l : NoDup l -> unique l = true.
Proof.
  induction 1 as [|n l Hn Hl IH]; cbn [unique]; [reflexivity|].
  rewrite IH, andb_true_r. apply negb_true_iff.
  destruct (existsb (String.eqb n) l) eqn:E; [|reflexivity].
  apply existsb_eqb_In in E. contradiction.
Qed.

Lemma NoDup_filtered_names (f : string * node -> bool) : forall es,
  NoDup (map fst es) -> NoDup (map fst (filter f es)).
Proof.
  induction es as [|[n x] es IH]; cbn; intros H; [constructor|].
  inversion H as [|? ? Hn Hes]; subst.
  destruct (f (n, x)); [|now apply IH].
  cbn. constructor; [|now apply IH].
  intros Hin. apply Hn. apply In_filtered_name in Hin as [t [Hin _]].
  apply in_map_iff. now exists (n, t).
Qed.

Lemma In_set_entry n x k v : forall es,
  In (n, x) (FS.set_entry k v es) -> (n = k /\ v = Some x) \/ In (n, x) es.
Proof.
  induction es as [|[m c] es IH]; cbn [FS.set_entry].
  - destruct v as [c|]; [|intros []].
    intros [H|[]]. injection H as <- <-. now left.
  - destruct (String.eqb m k) eqn:E.
    + apply String.eqb_eq in E. subst m. destruct v as [c'|].
      * intros [H|H]; [injection H as <- <-; now left|right; now right].
      * intros H. right. now right.
    + intros [H|H]; [right; now left|].
      destruct (IH H) as [H'|H']; [now left|right; now right].
Qed.

Lemma names_set_entry n k v es :
  In n (map fst (FS.set_entry k v es)) -> n = k \/ In n (map fst es).
Proof.
  intros H. apply in_map_iff in H as [[m x] [E H]]. cbn in E. subst m.
  destruct (In_set_entry _ _ _ _ _ H) as [[-> _]|H']; [now left|right].
  apply in_map_iff. now exists (n, x).
Qed.

Lemma NoDup_set_entry k v : forall es,
  NoDup (map fst es) -> NoDup (map fst (FS.set_entry k v es)).
Proof.
  induction es as [|[m c] es IH]; cbn [FS.set_entry map fst]; intros H.
  - destruct v; cbn; repeat constructor. intros [].
  - inversion H as [|? ? Hm Hes]; subst.
    destruct (String.eqb m k) eqn:E.
    + destruct v; [exact H|exact Hes].
    + cbn [map fst]. constructor; [|now apply IH].
      intros Hin. destruct (names_set_entry _ _ _ _ Hin) as [->|Hin'];
        [|contradiction].
      now rewrite String.eqb_refl in E.
Qed.

Lemma unique_set_entry k v es :
  unique (map fst es) = true -> unique (map fst (FS.set_entry k v es)) = true.
Proof.
  intros H. apply NoDup_unique, NoDup_set_entry, unique_NoDup, H.
Qed.

Lemma removed_entry_gone n x k es :
  unique (map fst es) = true -> In (n, x) (FS.set_entry k None es) -> n <> k.
Proof.
  intros Hu Hin ->.
  pose proof (assoc_set_entry_removed k es Hu) as Hr.
  rewrite (unique_assoc k x _ (unique_set_entry k None es Hu) Hin) in Hr.
  discriminate.
Qed.

(** ** Names in lower case *)

Lemma lower_ascii_idempotent c :
  Str.lower_ascii (Str.lower_ascii c) = Str.lower_ascii c.
Proof.
  destruct c as [[ | ] [ | ] [ | ] [ | ] [ | ] [ | ] [ | ] [ | ]]; reflexivity.
Qed.

Lemma lower_idempotent s : Str.lower (Str.lower s) = Str.lower s.
Proof.
  induction s as [|c s IH]; cbn; [reflexivity|].
  now rewrite lower_ascii_idempotent, IH.
Qed.

Lemma is_lower_lower s : is_lower (Str.lower s) = true.
Proof. unfold is_lower. rewrite lower_idempotent. apply String.eqb_refl. Qed.

Lemma is_prefix_last top a b :
  FS.is_prefix (top ++ [a]) (top ++ [b]) = String.eqb a b.
Proof.
  induction top as [|x top IH]; cbn.
  - apply andb_true_r.
  - now rewrite String.eqb_refl, IH.
Qed.

Lemma path_eqb_last top a b :
  FS.path_eqb (top ++ [a]) (top ++ [b]) = String.eqb a b.
Proof.
  unfold FS.path_eqb. rewrite !is_prefix_last, (String.eqb_sym b a).
  apply andb_diag.
Qed.

(** ** The layout normalizer on tidy trees *)

Lemma for_app {A} (xs ys : list A) (body : A -> M unit) w :
  for_ (xs ++ ys) body w = (for_ xs body ;; for_ ys body) w.
Proof.
  revert w. induction xs as [|x xs IH]; intros w; cbn [app for_].
  - reflexivity.
  - unfold bind. destruct (body x w) as [[] w1|e w1|]; try reflexivity.
    rewrite IH. reflexivity.
Qed.

Lemma os_walk_not_dir {St} depth top
  (body : path -> list string -> list string -> St -> M St) s w :
  FS.scandir top (disk w) = None -> os_walk depth top body s w = Ok s w.
Proof. intros H. destruct depth; cbn [os_walk]; now rewrite H. Qed.

Lemma os_walk_dir {St} depth top
  (body : path -> list string -> list string -> St -> M St) s w dirs files :
  FS.scandir top (disk w) = Some (dirs, files) ->
  os_walk (S depth) top body s w
  = (s1 <- body top dirs files s ;;
     for_fold dirs (fun dirname s =>
       let new_path := top ++ [dirname] in
       is_link <- os_path_islink new_path ;;
       if is_link then ret s else os_walk depth new_path body s) s1) w.
Proof. intros H. cbn [os_walk]. now rewrite H. Qed.

Lemma height_bound c es k :
  (forall n x, In (n, x) es -> (height x <= k)%nat) ->
  (height (Dir c es) <= S k)%nat.
Proof.
  intros H. cbn [height]. apply le_n_S.
  induction es as [|[n x] es IH]; cbn [fold_right snd]; [lia|].
  apply Nat.max_lub.
  - apply (H n x). now left.
  - apply IH. intros m y Hin. apply (H m y). now right.
Qed.

Lemma tidy_child c es n x :
  tidy (Dir c es) = true -> In (n, x) es ->
  match x with
  | Dir _ _ => is_lower n = true /\ tidy x = true
  | _ => forall y, In (Str.lower n, y) es -> FS.is_dir_node y = false
  end.
Proof.
  cbn [tidy]. intros H Hin. apply andb_true_iff in H as [_ H].
  rewrite forallb_forall in H. specialize (H _ Hin). cbn [fst snd] in H.
  assert (Hfree : negb (existsb (String.eqb (Str.lower n)) (dir_names es))
                  = true ->
                  forall y, In (Str.lower n, y) es -> FS.is_dir_node y = false).
  { intros Hn y Hy. destruct (FS.is_dir_node y) eqn:E; [|reflexivity].
    apply negb_true_iff in Hn.
    assert (Hd : In (Str.lower n) (dir_names es)).
    { unfold dir_names. apply in_map_iff. exists (Str.lower n, y).
      split; [reflexivity|]. apply filter_In. now split. }
    apply existsb_eqb_In in Hd. congruence. }
  destruct x as [data|target|cx ex].
  - exact (Hfree H).
  - exact (Hfree H).
  - now apply andb_true_iff in H.
Qed.

Lemma lower_case_entry_renames top f w c es s :
  FS.lookup top (disk w) = Some (Dir c es) ->
  lower_path top = top ->
  is_lower f = false ->
  FS.assoc f es = Some s ->
  FS.is_dir_node s = false ->
  (forall x, FS.assoc (Str.lower f) es = Some x -> FS.is_dir_node x = false) ->
  exists w',
    _lower_case_entry top f w = Ok tt w' /\
    disk w' =
      graft top
        (Dir c (FS.set_entry (Str.lower f) (Some s) (FS.set_entry f None es)))
        (disk w).
Proof.
  intros Hl Htop Hf Hs Hfile Hfree. unfold is_lower in Hf.
  unfold _lower_case_entry. rewrite lower_path_app, Htop.
  cbn [lower_path map]. rewrite path_eqb_last, Hf.
  unfold try_except_OSError, os_rename, syscall, bind, emit.
  cbn [disk trace]. unfold FS.rename.
  rewrite (lookup_child _ _ _ _ f Hl), Hs.
  rewrite path_eqb_last, is_prefix_last, (String.eqb_sym f), Hf.
  rewrite (lookup_child _ _ _ _ (Str.lower f) Hl).
  rewrite (update_graft _ _ _ _ f None Hl).
  rewrite (update_graft top _ c (FS.set_entry f None es) (Str.lower f)
             (Some s) (lookup_graft _ _ _ _ Hl)).
  rewrite graft_graft.
  destruct (FS.assoc (Str.lower f) es) as [x|] eqn:Hx.
  - specialize (Hfree x eq_refl).
    destruct x as [data|target|cx ex]; [| |discriminate];
      destruct s as [ds|ts|cs es']; try discriminate;
      cbn [FS.commit disk trace]; unfold print, emit; cbn [disk trace];
      eexists; split; reflexivity.
  - destruct s as [ds|ts|cs es']; try discriminate;
      cbn [FS.commit disk trace]; unfold print, emit; cbn [disk trace];
      eexists; split; reflexivity.
Qed.

Lemma lower_files_phase top c es0 :
  lower_path top = top ->
  unique (map fst es0) = true ->
  (forall f x, In (f, x) es0 -> FS.is_dir_node x = false ->
     forall y, In (Str.lower f, y) es0 -> FS.is_dir_node y = false) ->
  forall fs es w,
    NoDup fs ->
    (forall f, In f fs -> exists x, In (f, x) es0 /\ FS.is_dir_node x = false) ->
    FS.lookup top (disk w) = Some (Dir c es) ->
    unique (map fst es) = true ->
    (forall n x, In (n, x) es -> FS.is_dir_node x = true -> In (n, x) es0) ->
    (forall n x, In (n, x) es0 -> FS.is_dir_node x = true ->
       FS.assoc n es = Some x) ->
    (forall f, In f fs -> is_lower f = false ->
       exists s, FS.assoc f es = Some s /\ FS.is_dir_node s = false) ->
    exists es' w',
      for_ fs (_lower_case_entry top) w = Ok tt w' /\
      disk w' = graft top (Dir c es') (disk w) /\
      unique (map fst es') = true /\
      (forall n x, In (n, x) es' -> FS.is_dir_node x = true -> In (n, x) es0) /\
      (forall n x, In (n, x) es0 -> FS.is_dir_node x = true ->
         FS.assoc n es' = Some x) /\
      (forall n x, In (n, x) es' -> FS.is_dir_node x = false ->
         is_lower n = true \/ (In (n, x) es /\ ~ In n fs)).
Proof.
  intros Htop Hu0 Hclash.
  induction fs as [|f fs IH]; intros es w Hnd Hfs Hl Hu Hdirs Hkept Hrest.
  - exists es, w. cbn [for_]. unfold ret.
    split; [reflexivity|]. split; [now rewrite (graft_same _ _ _ Hl)|].
    split; [exact Hu|]. split; [exact Hdirs|]. split; [exact Hkept|].
    intros n x Hin _. right. split; [exact Hin|intros []].
  - inversion Hnd as [|? ? Hf Hnd']; subst.
    cbn [for_]. unfold bind at 1.
    destruct (is_lower f) eqn:Hlow.
    + rewrite (lower_case_entry_skips top f w Htop Hlow).
      destruct (IH es w Hnd') as [es' [w' [Hrun [Hd [Hu' [Hd' [Hk' Hf']]]]]]];
        try assumption.
      * intros g Hg. apply Hfs. now right.
      * intros g Hg. apply Hrest. now right.
      * exists es', w'. repeat (split; [assumption|]).
        intros n x Hin Hx. destruct (Hf' n x Hin Hx) as [H|[H1 H2]];
          [now left|].
        destruct (string_dec n f) as [->|Hne]; [now left|].
        right. split; [exact H1|]. intros [E|E]; [now subst|contradiction].
    + destruct (Hrest f (or_introl eq_refl) Hlow) as [s [Hs Hsfile]].
      destruct (Hfs f (or_introl eq_refl)) as [x0 [Hx0 Hx0file]].
      assert (Hfree : forall x, FS.assoc (Str.lower f) es = Some x ->
                                FS.is_dir_node x = false).
      { intros x Hx. destruct (FS.is_dir_node x) eqn:E; [|reflexivity].
        apply assoc_In in Hx.
        pose proof (Hclash f x0 Hx0 Hx0file x (Hdirs _ _ Hx E)). congruence. }
      destruct (lower_case_entry_renames top f w c es s Hl Htop Hlow Hs Hsfile
                  Hfree) as [w1 [Hstep Hd1]].
      rewrite Hstep.
      set (es1 := FS.set_entry (Str.lower f) (Some s) (FS.set_entry f None es))
        in *.
      assert (Hl1 : FS.lookup top (disk w1) = Some (Dir c es1)).
      { rewrite Hd1. exact (lookup_graft _ _ _ _ Hl). }
      assert (Hin1 : forall n x, In (n, x) es1 ->
                (n = Str.lower f /\ x = s) \/ (In (n, x) es /\ n <> f)).
      { intros n x Hin. unfold es1 in Hin.
        destruct (In_set_entry _ _ _ _ _ Hin) as [[-> E]|Hin'].
        - left. split; [reflexivity|]. now injection E.
        - right. split.
          + destruct (In_set_entry _ _ _ _ _ Hin') as [[_ E]|H];
              [discriminate|exact H].
          + exact (removed_entry_gone _ _ _ _ Hu Hin'). }
      destruct (IH es1 w1 Hnd') as [es' [w' [Hrun [Hd [Hu' [Hd' [Hk' Hf']]]]]]].
      * intros g Hg. apply Hfs. now right.
      * exact Hl1.
      * unfold es1. now do 2 apply unique_set_entry.
      * intros n x Hin Hx. destruct (Hin1 n x Hin) as [[_ ->]|[H _]];
          [congruence|now apply Hdirs].
      * intros n x Hin Hx. unfold es1.
        assert (Hn1 : n <> Str.lower f).
        { intros ->. rewrite (Hclash f x0 Hx0 Hx0file x Hin) in Hx.
          discriminate. }
        assert (Hn2 : n <> f).
        { intros ->. rewrite (Hkept _ _ Hin Hx) in Hs. injection Hs as ->.
          congruence. }
        rewrite !assoc_set_entry_other by assumption. now apply Hkept.
      * intros g Hg Hglow.
        destruct (Hrest g (or_intror Hg) Hglow) as [sg [Hsg Hsgfile]].
        exists sg. split; [|exact Hsgfile]. unfold es1.
        assert (Hg1 : g <> Str.lower f).
        { intros ->. rewrite is_lower_lower in Hglow. discriminate. }
        assert (Hg2 : g <> f) by (intros ->; contradiction).
        now rewrite !assoc_set_entry_other by assumption.
      * exists es', w'. split; [exact Hrun|].
        split; [now rewrite Hd, Hd1, graft_graft|].
        split; [exact Hu'|]. split; [exact Hd'|]. split; [exact Hk'|].
        intros n x Hin Hx. destruct (Hf' n x Hin Hx) as [H|[H1 H2]];
          [now left|].
        destruct (Hin1 n x H1) as [[-> _]|[H3 H4]];
          [left; apply is_lower_lower|].
        right. split; [exact H3|]. intros [E|E]; [now subst|contradiction].
Qed.

Lemma lower_dirs_phase depth top c :
  (forall top t w,
     FS.lookup top (disk w) = Some t ->
     lower_path top = top -> tidy t = true -> (height t <= depth)%nat ->
     exists t' w',
       os_walk depth top
         (fun root dirs files _ =>
            for_ (files ++ dirs) (_lower_case_entry root)) tt w = Ok tt w' /\
       disk w' = graft top t' (disk w) /\
       names_lower t' = true /\ tidy t' = true /\ (height t' <= depth)%nat) ->
  lower_path top = top ->
  forall ds es w,
    FS.lookup top (disk w) = Some (Dir c es) ->
    unique (map fst es) = true ->
    (forall n x, In (n, x) es ->
       is_lower n = true /\ tidy x = true /\ (height x <= depth)%nat /\
       (names_lower x = true \/ In n ds)) ->
    exists es' w',
      for_fold ds (fun dirname s =>
        let new_path := top ++ [dirname] in
        is_link <- os_path_islink new_path ;;
        if is_link then ret s
        else os_walk depth new_path
               (fun root dirs files _ =>
                  for_ (files ++ dirs) (_lower_case_entry root)) s) tt w
      = Ok tt w' /\
      disk w' = graft top (Dir c es') (disk w) /\
      unique (map fst es') = true /\
      (forall n x, In (n, x) es' ->
         is_lower n = true /\ tidy x = true /\ (height x <= depth)%nat /\
         names_lower x = true).
Proof.
  intros Hwalk Htop.
  induction ds as [|d ds IH]; intros es w Hl Hu Hes.
  - exists es, w. cbn [for_fold]. unfold ret.
    split; [reflexivity|]. split; [now rewrite (graft_same _ _ _ Hl)|].
    split; [exact Hu|]. intros n x Hin.
    destruct (Hes n x Hin) as [H1 [H2 [H3 [H4|[]]]]]. auto.
  - cbn [for_fold]. unfold bind at 1. cbv zeta.
    unfold bind at 1, os_path_islink at 1, FS.islink.
    rewrite (lookup_child _ _ _ _ d Hl).
    assert (Hsame : forall x,
      FS.assoc d es = x ->
      (forall y, x = Some y -> names_lower y = true) ->
      exists es' w',
        for_fold ds (fun dirname s =>
          let new_path := top ++ [dirname] in
          is_link <- os_path_islink new_path ;;
          if is_link then ret s
          else os_walk depth new_path
                 (fun root dirs files _ =>
                    for_ (files ++ dirs) (_lower_case_entry root)) s) tt w
        = Ok tt w' /\
        disk w' = graft top (Dir c es') (disk w) /\
        unique (map fst es') = true /\
        (forall n x, In (n, x) es' ->
           is_lower n = true /\ tidy x = true /\ (height x <= depth)%nat /\
           names_lower x = true)).
    { intros x Hx Hlow. apply (IH es w Hl Hu). intros n y Hin.
      destruct (Hes n y Hin) as [H1 [H2 [H3 H4]]].
      repeat (split; [assumption|]).
      destruct H4 as [H4|[<-|H4]]; [now left| |now right].
      left. apply Hlow. rewrite <- Hx. now apply unique_assoc. }
    destruct (FS.assoc d es) as [[data|target|cx ex]|] eqn:Hd.
    + rewrite os_walk_not_dir.
      * apply (Hsame _ eq_refl). intros y E. now injection E as <-.
      * unfold FS.scandir. now rewrite (lookup_child _ _ _ _ d Hl), Hd.
    + unfold ret. apply (Hsame _ eq_refl). intros y E. now injection E as <-.
    + clear Hsame. pose proof (assoc_In _ _ _ Hd) as Hin.
      destruct (Hes _ _ Hin) as [Hdlow [Hdtidy [Hdh _]]].
      assert (Htop' : lower_path (top ++ [d]) = top ++ [d]).
      { rewrite lower_path_app, Htop. cbn [lower_path map].
        apply String.eqb_eq in Hdlow. now rewrite Hdlow. }
      assert (Hl' : FS.lookup (top ++ [d]) (disk w) = Some (Dir cx ex))
        by now rewrite (lookup_child _ _ _ _ d Hl).
      destruct (Hwalk _ _ w Hl' Htop' Hdtidy Hdh)
        as [t' [w1 [Hrun [Hd1 [Hlow' [Htidy' Hh']]]]]].
      rewrite Hrun.
      assert (Hd1' : disk w1
                     = graft top (Dir c (FS.set_entry d (Some t') es)) (disk w)).
      { rewrite Hd1, (graft_app _ _ _ _ _ Hl). cbn [graft]. now rewrite Hd. }
      destruct (IH (FS.set_entry d (Some t') es) w1)
        as [es' [w' [Hrun' [Hd' [Hu' Hes']]]]].
      * rewrite Hd1'. exact (lookup_graft _ _ _ _ Hl).
      * now apply unique_set_entry.
      * intros n y Hy.
        assert (Hnew : y = t' ->
                  is_lower n = true -> 
                  is_lower n = true /\ tidy y = true /\
                  (height y <= depth)%nat /\ (names_lower y = true \/ In n ds)).
        { intros -> Hn. auto. }
        destruct (In_set_entry _ _ _ _ _ Hy) as [[-> E]|Hy'].
        -- injection E as <-. now apply Hnew.
        -- destruct (Hes n y Hy') as [H1 [H2 [H3 H4]]].
           destruct H4 as [H4|[<-|H4]]; [auto| |auto].
           apply Hnew; [|exact H1].
           pose proof (unique_assoc d y _
                         (unique_set_entry d (Some t') es Hu) Hy) as Ha.
           rewrite assoc_set_entry_same in Ha. now injection Ha.
      * exists es', w'. split; [exact Hrun'|].
        split; [now rewrite Hd', Hd1', graft_graft|].
        split; [exact Hu'|exact Hes'].
    + rewrite os_walk_not_dir.
      * apply (Hsame _ eq_refl). discriminate.
      * unfold FS.scandir. now rewrite (lookup_child _ _ _ _ d Hl), Hd.
Qed.

Lemma lower_case_walk_tidy depth : forall top t w,
  FS.lookup top (disk w) = Some t ->
  lower_path top = top -> tidy t = true -> (height t <= depth)%nat ->
  exists t' w',
    os_walk depth top
      (fun root dirs files _ =>
         for_ (files ++ dirs) (_lower_case_entry root)) tt w = Ok tt w' /\
    disk w' = graft top t' (disk w) /\
    names_lower t' = true /\ tidy t' = true /\ (height t' <= depth)%nat.
Proof.
  induction depth as [|depth IH]; intros top t w Hl Htop Htidy Hh.
  - assert (Hs : FS.scandir top (disk w) = None).
    { unfold FS.scandir. rewrite Hl.
      destruct t as [| |c es]; try reflexivity. cbn in Hh. lia. }
    exists t, w. rewrite (os_walk_not_dir _ _ _ _ _ Hs).
    split; [reflexivity|]. split; [now rewrite (graft_same _ _ _ Hl)|].
    destruct t as [| |c es]; [now cbn|now cbn|cbn in Hh; lia].
  - destruct t as [data|target|c es0].
    + exists (File data), w. rewrite os_walk_not_dir.
      * split; [reflexivity|]. split; [now rewrite (graft_same _ _ _ Hl)|].
        cbn. repeat split; lia.
      * unfold FS.scandir. now rewrite Hl.
    + exists (Symlink target), w. rewrite os_walk_not_dir.
      * split; [reflexivity|]. split; [now rewrite (graft_same _ _ _ Hl)|].
        cbn. repeat split; lia.
      * unfold FS.scandir. now rewrite Hl.
    + rewrite (os_walk_dir _ _ _ _ _ _ _ (scandir_dir _ _ _ _ Hl)).
      assert (Hu0 : unique (map fst es0) = true).
      { cbn [tidy] in Htidy. now apply andb_true_iff in Htidy. }
      assert (Hclash : forall f x, In (f, x) es0 -> FS.is_dir_node x = false ->
                forall y, In (Str.lower f, y) es0 -> FS.is_dir_node y = false).
      { intros f x Hin Hx. pose proof (tidy_child _ _ _ _ Htidy Hin) as H.
        destruct x; [exact H|exact H|discriminate]. }
      destruct (lower_files_phase top c es0 Htop Hu0 Hclash (file_names es0)
                  es0 w)
        as [es1 [w1 [Hrun1 [Hd1 [Hu1 [Hdirs1 [Hkept1 Hfiles1]]]]]]].
      * apply NoDup_filtered_names, unique_NoDup, Hu0.
      * intros f Hf. exact (file_names_In _ _ Hf).
      * exact Hl.
      * exact Hu0.
      * auto.
      * intros n x Hin _. now apply unique_assoc.
      * intros f Hf _. destruct (file_names_In _ _ Hf) as [x [Hin Hx]].
        exists x. split; [now apply unique_assoc|exact Hx].
      * assert (Hbody : for_ (file_names es0 ++ dir_names es0)
                          (_lower_case_entry top) w = Ok tt w1).
        { rewrite for_app. unfold bind. rewrite Hrun1.
          apply for_unchanged. intros d Hd.
          apply lower_case_entry_skips; [exact Htop|].
          apply In_filtered_name in Hd as [x [Hin Hx]]. cbn [snd] in Hx.
          pose proof (tidy_child _ _ _ _ Htidy Hin) as H.
          destruct x; try discriminate. apply H. }
        assert (Hl1 : FS.lookup top (disk w1) = Some (Dir c es1)).
        { rewrite Hd1. exact (lookup_graft _ _ _ _ Hl). }
        destruct (lower_dirs_phase depth top c IH Htop (dir_names es0) es1 w1
                    Hl1 Hu1)
          as [es2 [w2 [Hrun2 [Hd2 [Hu2 Hes2]]]]].
        { intros n x Hin. destruct (FS.is_dir_node x) eqn:Hx.
          - pose proof (Hdirs1 _ _ Hin Hx) as Hin0.
            pose proof (tidy_child _ _ _ _ Htidy Hin0) as H.
            pose proof (height_child c _ _ _ Hin0) as Hc.
            destruct x as [| |cx ex]; try discriminate.
            destruct H as [H1 H2].
            split; [exact H1|]. split; [exact H2|]. split; [lia|].
            right. unfold dir_names. apply in_map_iff.
            exists (n, Dir cx ex). split; [reflexivity|].
            apply filter_In. now split.
          - assert (Hn : is_lower n = true).
            { destruct (Hfiles1 _ _ Hin Hx) as [H|[H1 H2]]; [exact H|].
              exfalso. apply H2. unfold file_names. apply in_map_iff.
              exists (n, x). split; [reflexivity|].
              apply filter_In. split; [exact H1|]. cbn [snd]. now rewrite Hx. }
            destruct x as [| |cx ex]; try discriminate;
              cbn; repeat split; auto; lia. }
        exists (Dir c es2), w2.
        split.
        { unfold bind at 1. cbv beta. rewrite Hbody. exact Hrun2. }
        split; [now rewrite Hd2, Hd1, graft_graft|].
        split; [|split].
        -- cbn [names_lower]. apply forallb_forall. intros [n x] Hin.
           destruct (Hes2 _ _ Hin) as [H1 [_ [_ H4]]]. cbn [fst snd].
           now rewrite H1, H4.
        -- cbn [tidy]. rewrite Hu2. cbn [andb].
           apply forallb_forall. intros [n x] Hin.
           destruct (Hes2 _ _ Hin) as [H1 [H2 _]]. cbn [fst snd].
           destruct x as [data|target|cx ex]; [| |now rewrite H1, H2];
             apply negb_true_iff;
             (destruct (existsb (String.eqb (Str.lower n)) (dir_names es2))
                eqn:E; [|reflexivity]);
             apply existsb_eqb_In in E;
             apply In_filtered_name in E as [y [Hy Hydir]];
             apply String.eqb_eq in H1; rewrite H1 in Hy;
             pose proof (unique_assoc _ _ _ Hu2 Hy) as Ha;
             rewrite (unique_assoc _ _ _ Hu2 Hin) in Ha;
             injection Ha as <-; discriminate.
        -- apply height_bound. intros n x Hin. now apply (Hes2 n x Hin).
Qed.

Lemma lower_mods_loop fuel (all : list string) : forall vs w,
  (forall value, In value vs -> In value all) ->
  (forall value t,
     In value all ->
     FS.lookup (A3_WORKSHOP_DIR ++ [value]) (disk w) = Some t ->
     is_lower value = true /\ tidy t = true /\ (height t <= fuel)%nat /\
     (names_lower t = true \/ In value vs)) ->
  exists w',
    for_ vs (fun value =>
      let directory_path := A3_WORKSHOP_DIR ++ [value] in
      os_walk fuel directory_path (fun root dirs files _ =>
        for_ (files ++ dirs) (_lower_case_entry root)) tt) w = Ok tt w' /\
    forall value t,
      In value all ->
      FS.lookup (A3_WORKSHOP_DIR ++ [value]) (disk w') = Some t ->
      names_lower t = true.
Proof.
  induction vs as [|v vs IH]; intros w Hsub Hall.
  - exists w. split; [reflexivity|]. intros value t Hin Hl.
    destruct (Hall _ _ Hin Hl) as [_ [_ [_ [H|[]]]]]. exact H.
  - assert (Hsub' : forall value, In value vs -> In value all)
      by (intros value H; apply Hsub; now right).
    cbn [for_]. unfold bind at 1. cbv zeta.
    destruct (FS.lookup (A3_WORKSHOP_DIR ++ [v]) (disk w)) as [t|] eqn:Hl.
    + destruct (Hall _ _ (Hsub v (or_introl eq_refl)) Hl)
        as [Hvlow [Htidy [Hh _]]].
      assert (Htop : lower_path (A3_WORKSHOP_DIR ++ [v])
                     = A3_WORKSHOP_DIR ++ [v]).
      { rewrite lower_path_app. cbn [lower_path map].
        apply String.eqb_eq in Hvlow. rewrite Hvlow. reflexivity. }
      destruct (lower_case_walk_tidy fuel _ _ w Hl Htop Htidy Hh)
        as [t' [w1 [Hrun [Hd1 [Hlow' [Htidy' Hh']]]]]].
      rewrite Hrun.
      apply (IH w1 Hsub'). intros value t1 Hval Hl1.
      destruct (string_dec value v) as [->|Hne].
      * rewrite Hd1, (lookup_graft _ _ _ _ Hl) in Hl1. injection Hl1 as <-.
        auto.
      * rewrite Hd1 in Hl1.
        rewrite (lookup_graft_other A3_WORKSHOP_DIR v value [] []) in Hl1
          by congruence.
        destruct (Hall _ _ Hval Hl1) as [H1 [H2 [H3 [H4|[H4|H4]]]]];
          [auto|congruence|auto].
    + rewrite os_walk_not_dir by (unfold FS.scandir; now rewrite Hl).
      apply (IH w Hsub'). intros value t Hval Hlv.
      destruct (Hall _ _ Hval Hlv) as [H1 [H2 [H3 [H4|[H4|H4]]]]];
        [auto| |auto].
      subst. congruence.
Qed.

(** X7.  On tidy trees the layout normalizer achieves lower case: when the
    id of each mod is lower case and its content tree binds names once, has
    directories with lower case names and no other entry whose lower-cased
    name is that of a directory beside it, and the fuel is at least the
    height of the trees, [_lower_case_mods] returns and every name in the
    content tree of every mod is lower case afterwards. *)
Theorem lower_case_mods_lowers_tidy_trees fuel updated_mods w :
  (forall value t,
     In value (values updated_mods) ->
     FS.lookup (A3_WORKSHOP_DIR ++ [value]) (disk w) = Some t ->
     is_lower value = true /\ tidy t = true /\ (height t <= fuel)%nat) ->
  exists w',
    _lower_case_mods fuel updated_mods w = Ok tt w' /\
    forall value t',
      In value (values updated_mods) ->
      FS.lookup (A3_WORKSHOP_DIR ++ [value]) (disk w') = Some t' ->
      names_lower t' = true.
Proof.
  intros H. unfold _lower_case_mods, bind, logger_log, emit.
  apply (lower_mods_loop fuel (values updated_mods)); [auto|].
  cbn [disk]. intros value t Hin Hl.
  destruct (H _ _ Hin Hl) as [H1 [H2 H3]]. auto.
Qed.

(** ** The menu *)

Lemma getitem_None key : forall d,
  ~ In key (map fst d) -> getitem key d = None.
Proof.
  induction d as [|[k m] d IH]; intros H; [reflexivity|].
  cbn [getitem]. destruct (String.eqb k key) eqn:E.
  - apply String.eqb_eq in E. exfalso. apply H. now left.
  - apply IH. intros Hin. apply H. now right.
Qed.

Lemma options_to_print env host fuel server mods_list_name :
  Menu._get_options_to_print env host fuel server mods_list_name
  = match server with
    | A3 => "A, B, C, D, E, F or Q"
    | REFORGER => "A, B, C or Q"
    end.
Proof. destruct server; reflexivity. Qed.

Lemma unknown_choice_step env host fuel server mods_list_name
  selected turns stdin w :
  ~ In (Str.lower selected)
       (map fst (Menu._get_choices env host fuel server mods_list_name)) ->
  Menu.run env host fuel server mods_list_name (S turns) (selected :: stdin) w
  = Menu.run env host fuel server mods_list_name turns stdin
      (mkWorld (disk w) (trace w ++ rejection server)).
Proof.
  intros H. cbn [Menu.run Menu._input].
  unfold Menu.run_choice. rewrite (getitem_None _ _ H).
  unfold Menu._default. rewrite options_to_print.
  unfold bind, print, time_sleep, emit, rejection. cbn [disk trace].
  now rewrite <- !app_assoc.
Qed.

(** X12.  An unknown choice is rejected and the menu prompts again: for
    answers that, lower-cased, are no key of the menu of the server, [run]
    adds for each the prompt, an empty line, the line that names the
    options ([A, B, C, D, E, F or Q] for Arma 3, [A, B, C or Q] for
    Reforger), [Please try again] and a pause of one second, leaves the
    disk as it was and goes on with the rest of the input; when the input
    ends there, the next prompt ends the run with [EOFError]. *)
Theorem unknown_choices_prompt_again env host fuel server mods_list_name
  bad turns stdin w :
  Forall (fun selected =>
            ~ In (Str.lower selected)
                 (map fst (Menu._get_choices env host fuel server
                             mods_list_name))) bad ->
  Menu.run env host fuel server mods_list_name (length bad + turns)
    (bad ++ stdin) w
  = Menu.run env host fuel server mods_list_name turns stdin
      (mkWorld (disk w) (trace w ++ flat_map (fun _ => rejection server) bad))
  /\
  Menu.run env host fuel server mods_list_name (length bad + 1) bad w
  = Some (EOFError,
          mkWorld (disk w)
            (trace w ++ flat_map (fun _ => rejection server) bad
             ++ [Stdout (Menu._get_input_choices server)]),
          []).
Proof.
  intros Hbad.
  assert (Hgo : forall turns stdin w,
    Menu.run env host fuel server mods_list_name (length bad + turns)
      (bad ++ stdin) w
    = Menu.run env host fuel server mods_list_name turns stdin
        (mkWorld (disk w)
           (trace w ++ flat_map (fun _ => rejection server) bad))).
  { clear turns stdin w.
    induction Hbad as [|selected bad Hsel Hbad IH]; intros turns stdin w.
    - cbn. rewrite app_nil_r. now destruct w.
    - cbn [length Nat.add app flat_map].
      rewrite (unknown_choice_step _ _ _ _ _ _ _ _ _ Hsel), IH.
      cbn [disk trace]. now rewrite <- app_assoc. }
  split; [apply Hgo|].
  rewrite <- (app_nil_r bad) at 2. rewrite Hgo.
  cbn [Menu.run Menu._input disk trace]. now rewrite <- app_assoc.
Qed.

(** X13.  The entries D, E and F of the Arma 3 menu end the run:
    [_get_choices] binds them to [_create_mod_symlinks], [_lower_case_mods]
    and [_copy_key_files], which need the argument [updated_mods];
    [run_choice] calls them without one, and the [TypeError], which is no
    [KeyError], leaves [run] with the disk as it was and the rest of the
    input unread. *)
Theorem choice_without_updated_mods_ends_run env host fuel mods_list_name
  turns selected name stdin w :
  In (Str.lower selected, name)
     [("d", "_create_mod_symlinks"); ("e", "_lower_case_mods");
      ("f", "_copy_key_files")] ->
  Menu.run env host fuel A3 mods_list_name (S turns) (selected :: stdin) w
  = Some (TypeError (missing_argument name),
          mkWorld (disk w) (trace w ++ [Stdout (Menu._get_input_choices A3)]),
          stdin).
Proof.
  intros [H|[H|[H|[]]]]; injection H as Hl <-;
    cbn [Menu.run Menu._input]; unfold Menu.run_choice; rewrite <- Hl;
    reflexivity.
Qed.

(** X14.  The choice Q, in either case and for either server, prints the
    closing line and ends the run with [SystemExit], with the disk as it
    was and the rest of the input unread. *)
Theorem quit_choice_ends_run env host fuel server mods_list_name
  turns selected stdin w :
  Str.lower selected = "q" ->
  Menu.run env host fuel server mods_list_name (S turns) (selected :: stdin) w
  = Some (SystemExit,
          mkWorld (disk w)
            (trace w ++ [Stdout (Menu._get_input_choices server);
                         Stdout (Str.nl ++ "Closing Program now" ++ Str.nl)]),
          stdin).
Proof.
  intros Hl. cbn [Menu.run Menu._input]. unfold Menu.run_choice. rewrite Hl.
  destruct server; cbn [Menu._get_choices getitem String.eqb Ascii.eqb
                          Bool.eqb call_];
    unfold Menu._quit, and_then, lift, print, emit; cbn [disk trace];
    now rewrite <- app_assoc.
Qed.

(** X15.  A mods list that cannot be loaded stops the mods-only choice
    before it does anything: when the file of the list ([arga.json] unless
    a list name was given) cannot be read, or its text is not JSON, choice
    B of Arma 3 ends with the [OSError] of [open], or with the [ValueError]
    of [json.load], and the world is as it was: nothing is logged, read,
    fetched or removed. *)
Theorem unloadable_mods_list_aborts env host fuel mods_list_name selected w :
  Str.lower selected = "b" ->
  match read_text (Menu.mods_list_file mods_list_name) (disk w) with
  | inl text => json_load host text = None
  | inr _ => True
  end ->
  Menu.run_choice env host fuel A3 mods_list_name selected w
  = Uncaught
      (Exn match read_text (Menu.mods_list_file mods_list_name) (disk w) with
           | inl _ => ValueError "Expecting value"
           | inr e => OSError e
           end) w.
Proof.
  intros Hl H. unfold Menu.run_choice. rewrite Hl.
  cbn [Menu._get_choices getitem String.eqb Ascii.eqb Bool.eqb call_].
  unfold Menu._update_mods_only, Menu._get_mods.
  destruct (read_text _ (disk w)) as [text|e]; [|reflexivity].
  now rewrite H.
Qed.

(** X16.  The mods-only choice is the operation on the loaded list: when
    the file of the mods list holds a JSON text, choice B of Arma 3 is
    [_update_mods] and then, unless nothing was updated, [_lower_case_mods],
    [_create_mod_symlinks] and [_copy_key_files], on the mods of that list;
    however it ends, every event it adds is one that a stage may add for a
    mod of the list: console output, a read of its changelog, the removal
    of its content directory or a fetch of it, a pause of 5 seconds, a
    rename to lower case below its content directory, a link from the
    server root to its content directory, or the copy of one of its key
    files into the keys directory. *)
Theorem mods_only_choice_confined env host fuel mods_list_name selected w
  text mods :
  Str.lower selected = "b" ->
  read_text (Menu.mods_list_file mods_list_name) (disk w) = inl text ->
  json_load host text = Some mods ->
  Menu.run_choice env host fuel A3 mods_list_name selected w
  = lift (_update_mods_only env fuel mods) w /\
  forall w',
    (Menu.run_choice env host fuel A3 mods_list_name selected w = Returned w'
     \/ exists e,
          Menu.run_choice env host fuel A3 mods_list_name selected w
          = Uncaught e w') ->
    exists evs,
      trace w' = trace w ++ evs /\ Forall (operation_event mods) evs.
Proof.
  intros Hl Hread Hjson.
  assert (E : Menu.run_choice env host fuel A3 mods_list_name selected w
              = lift (_update_mods_only env fuel mods) w).
  { unfold Menu.run_choice. rewrite Hl.
    cbn [Menu._get_choices getitem String.eqb Ascii.eqb Bool.eqb call_].
    unfold Menu._update_mods_only, Menu._get_mods.
    now rewrite Hread, Hjson. }
  split; [exact E|]. rewrite E. intros w' H.
  apply (update_mods_only_emits env fuel mods w w').
  unfold lift in H.
  destruct (_update_mods_only env fuel mods w) as [[] w1|e w1|].
  - destruct H as [H|[e H]]; [|discriminate]. now injection H as <-.
  - destruct H as [H|[e' H]]; [discriminate|]. now injection H as _ <-.
  - destruct H as [H|[e H]]; discriminate.
Qed.

(** ** The further properties on the scenarios *)

Lemma fresh_mod_is_skipped_witness :
  _update_mod Scenario.env 10 "@cba" "450814997" [] Scenario.fresh
  = Ok []
      (mkWorld (disk Scenario.fresh)
         [UrlOpen (WORKSHOP_CHANGELOG_URL ++ "/450814997");
          UrlOpen (WORKSHOP_CHANGELOG_URL ++ "/450814997");
          Stdout (skipping_line "@cba" "450814997")]) /\
  _update_mod Fold.env 10 "@cba" "450814997" [] Fold.world
  = Ok []
      (mkWorld (disk Fold.world)
         [UrlOpen (WORKSHOP_CHANGELOG_URL ++ "/450814997");
          UrlOpen (WORKSHOP_CHANGELOG_URL ++ "/450814997");
          Stdout (skipping_line "@cba" "450814997")]).
Proof.
  split.
  - refine (fresh_mod_is_skipped Scenario.env 10 "@cba" "450814997" []
              Scenario.fresh 1800000000000000 _ Scenario.changelog
              (fun _ => eq_refl) eq_refl _ _ eq_refl).
    + unfold in_datetime_range, naive_local, datetime_min, datetime_max; cbn;
        lia.
    + intros u Hu. vm_compute in Hu. injection Hu as <-.
      unfold in_datetime_range, naive_local, datetime_min, datetime_max; cbn;
        lia.
  - refine (fresh_mod_is_skipped Fold.env 10 "@cba" "450814997" []
              Fold.world 1698539400000000 _ Fold.changelog
              (fun _ => eq_refl) eq_refl _ _ eq_refl).
    + vm_compute. split; discriminate.
    + intros u Hu. vm_compute in Hu. injection Hu as <-.
      vm_compute. split; discriminate.
Defined.

Lemma stale_mod_is_removed_not_fetched_witness :
  (exists t',
     _update_mod Scenario.env 10 "@cba" "450814997" [] Scenario.stale
     = Ok [("@cba", "450814997")]
         (mkWorld t'
            [UrlOpen (WORKSHOP_CHANGELOG_URL ++ "/450814997");
             UrlOpen (WORKSHOP_CHANGELOG_URL ++ "/450814997");
             Rmtree Scenario.mod_path]) /\
     FS.lookup Scenario.mod_path t' = None) /\
  (exists t',
     _update_mod Fold.mirror_env 10 "@cba" "450814997" [] Fold.mirror_world
     = Ok [("@cba", "450814997")]
         (mkWorld t'
            [UrlOpen (WORKSHOP_CHANGELOG_URL ++ "/450814997");
             UrlOpen (WORKSHOP_CHANGELOG_URL ++ "/450814997");
             Rmtree Scenario.mod_path]) /\
     FS.lookup Scenario.mod_path t' = None).
Proof.
  split.
  - assert (Hc : in_datetime_range
                   (naive_local (utcoffset Scenario.env) 1600000000000000)).
    { unfold in_datetime_range, naive_local, datetime_min, datetime_max; cbn;
        lia. }
    assert (Hu : forall u, remote_updated_at Scenario.changelog = Some u ->
                           in_datetime_range
                             (naive_local (utcoffset Scenario.env) u)).
    { intros u Hu. vm_compute in Hu. injection Hu as <-.
      unfold in_datetime_range, naive_local, datetime_min, datetime_max; cbn;
        lia. }
    destruct (stale_mod_is_removed_not_fetched Scenario.env 10 "@cba"
                "450814997" [] Scenario.stale 1600000000000000 _ 0 _
                Scenario.changelog (fun _ => eq_refl) eq_refl eq_refl eq_refl
                Hc Hu eq_refl) as [t' [Hrun [Hgone _]]].
    exists t'. split; [exact Hrun|exact Hgone].
  - assert (Hc : in_datetime_range
                   (naive_local (utcoffset Fold.mirror_env)
                      1698541200000000)).
    { vm_compute. split; discriminate. }
    assert (Hu : forall u,
               remote_updated_at Fold.earlier_changelog = Some u ->
               in_datetime_range (naive_local (utcoffset Fold.mirror_env) u)).
    { intros u Hu. vm_compute in Hu. injection Hu as <-.
      vm_compute. split; discriminate. }
    destruct (stale_mod_is_removed_not_fetched Fold.mirror_env 10 "@cba"
                "450814997" [] Fold.mirror_world 1698541200000000 _ 0 _
                Fold.earlier_changelog (fun _ => eq_refl) eq_refl eq_refl
                eq_refl Hc Hu eq_refl) as [t' [Hrun [Hgone _]]].
    exists t'. split; [exact Hrun|exact Hgone].
Defined.

Lemma non_numeric_id_aborts_pass_witness :
  _update_mods Scenario.env 10 Cases.misspelled Scenario.absent
  = Raised (ValueError "invalid literal for int() with base 10")
      (mkWorld (disk Scenario.absent)
         [Log (updating_line "@cba" "45o814997" 1)]).
Proof.
  refine (non_numeric_id_aborts_pass Scenario.env 10 "@cba" "45o814997" []
            Scenario.absent eq_refl eq_refl _).
  lia.
Defined.

Lemma mod_needs_update_only_reads_witness :
  exists w',
    final_world
      (_mod_needs_update Scenario.env "450814997" Scenario.mod_path
         Scenario.stale) = Some w' /\
    disk w' = disk Scenario.stale /\
    trace w' = [UrlOpen (WORKSHOP_CHANGELOG_URL ++ "/450814997")].
Proof.
  assert (R : exists w',
    final_world
      (_mod_needs_update Scenario.env "450814997" Scenario.mod_path
         Scenario.stale) = Some w')
    by (vm_compute; eexists; reflexivity).
  destruct R as [w' R]. exists w'. split; [exact R|].
  exact (mod_needs_update_only_reads Scenario.env "450814997"
           Scenario.mod_path Scenario.stale w' R).
Defined.

Lemma update_mods_confined_witness :
  exists w',
    final_world (_update_mods Scenario.env 10 Scenario.desired Scenario.stale)
    = Some w' /\
    exists evs,
      trace w' = trace Scenario.stale ++ evs /\
      Forall (pass_event Scenario.desired) evs.
Proof.
  assert (R : exists w',
    final_world (_update_mods Scenario.env 10 Scenario.desired Scenario.stale)
    = Some w')
    by (vm_compute; eexists; reflexivity).
  destruct R as [w' R]. exists w'. split; [exact R|].
  exact (proj1 (update_mods_confined Scenario.env 10 Scenario.desired
                  Scenario.stale w' R)).
Defined.

Lemma lower_case_mods_only_lowers_witness :
  exists w',
    _lower_case_mods 10 Scenario.desired Scenario.mixed_case = Ok tt w' /\
    exists evs,
      trace w' = trace Scenario.mixed_case ++ evs /\
      Forall (normalizer_event Scenario.desired) evs.
Proof.
  assert (R : exists w',
    final_world (_lower_case_mods 10 Scenario.desired Scenario.mixed_case)
    = Some w')
    by (vm_compute; eexists; reflexivity).
  destruct R as [w' R]. exists w'.
  exact (lower_case_mods_only_lowers 10 Scenario.desired Scenario.mixed_case
           w' R).
Defined.

Lemma copy_key_files_confined_witness :
  exists w',
    final_world (_copy_key_files 10 Scenario.desired Scenario.fresh)
    = Some w' /\
    exists evs,
      trace w' = trace Scenario.fresh ++ evs /\
      Forall (key_event Scenario.desired) evs.
Proof.
  assert (R : exists w',
    final_world (_copy_key_files 10 Scenario.desired Scenario.fresh)
    = Some w')
    by (vm_compute; eexists; reflexivity).
  destruct R as [w' R]. exists w'. split; [exact R|].
  exact (copy_key_files_confined 10 Scenario.desired Scenario.fresh w' R).
Defined.

Lemma link_path_taken_aborts_witness :
  _create_mod_symlinks Scenario.desired Cases.link_path_taken
  = Raised (OSError FS.EEXIST)
      (mkWorld (disk Cases.link_path_taken)
         [Log "Creating symlinks...";
          MkSymlink Scenario.mod_path (A3_MODS_DIR ++ ["@cba"])]).
Proof.
  refine (link_path_taken_aborts "@cba" "450814997" [] Cases.link_path_taken
            (Dir 0 []) eq_refl eq_refl _).
  intros target. discriminate.
Defined.

Lemma missing_destination_aborts_key_copy_witness :
  _copy_key_files 3 Scenario.desired Cases.no_keys_directory
  = Raised (OSError FS.ENOENT)
      (mkWorld (disk Cases.no_keys_directory)
         [Log "Start copy of Mods sign key files...";
          Stdout "Copy cba.bikey file";
          Copy (Scenario.mod_path ++ ["keys"; "cba.bikey"])
               (A3_MOD_KEYS_DESTINATION_DIRECTORY ++ ["cba.bikey"])]).
Proof.
  assert (Hok : trees_ok 3 Scenario.desired (disk Cases.no_keys_directory)).
  { intros value t [<-|[]] Ht. vm_compute in Ht. injection Ht as <-.
    split; [reflexivity|]. split; [reflexivity|].
    apply Nat.leb_le. reflexivity. }
  exact (missing_destination_aborts_key_copy 3 Scenario.desired
           Cases.no_keys_directory eq_refl Hok).
Defined.

Lemma PATTERN_finds_a_time_stamp_witness :
  PATTERN_search Scenario.changelog = Some "1700000000" /\
  exists seconds,
    Str.int "1700000000" = Some seconds /\ (0 <= seconds)%Z /\
    remote_updated_at Scenario.changelog = Some (1000000 * seconds)%Z.
Proof.
  assert (H : PATTERN_search Scenario.changelog = Some "1700000000")
    by reflexivity.
  split; [exact H|].
  exact (proj2 (proj2 (proj2
           (proj2 (PATTERN_finds_a_time_stamp Scenario.changelog) _ H)))).
Defined.

Lemma unknown_choices_prompt_again_witness :
  Menu.run Scenario.env Cases.host 10 REFORGER None 3 ["d"; "x"] Scenario.absent
  = Some (EOFError,
          mkWorld (disk Scenario.absent)
            (rejection REFORGER ++ rejection REFORGER
             ++ [Stdout (Menu._get_input_choices REFORGER)]),
          []).
Proof.
  refine (proj2 (unknown_choices_prompt_again Scenario.env Cases.host 10
                   REFORGER None ["d"; "x"] 0 [] Scenario.absent _)).
  repeat constructor; vm_compute; intuition discriminate.
Defined.

Lemma choice_without_updated_mods_ends_run_witness :
  Menu.run Scenario.env Cases.host 10 A3 None 5 ["E"; "q"] Scenario.fresh
  = Some (TypeError (missing_argument "_lower_case_mods"),
          mkWorld (disk Scenario.fresh) [Stdout (Menu._get_input_choices A3)],
          ["q"]).
Proof.
  refine (choice_without_updated_mods_ends_run Scenario.env Cases.host 10 None
            4 "E" "_lower_case_mods" ["q"] Scenario.fresh _).
  right. left. reflexivity.
Defined.

Lemma quit_choice_ends_run_witness :
  Menu.run Scenario.env Cases.host 10 A3 None 1 ["Q"] Scenario.fresh
  = Some (SystemExit,
          mkWorld (disk Scenario.fresh)
            [Stdout (Menu._get_input_choices A3);
             Stdout (Str.nl ++ "Closing Program now" ++ Str.nl)],
          []).
Proof.
  exact (quit_choice_ends_run Scenario.env Cases.host 10 A3 None 0 "Q" []
           Scenario.fresh eq_refl).
Defined.

Lemma unloadable_mods_list_aborts_witness :
  Menu.run_choice Scenario.env Cases.host 10 A3 None "b" Scenario.stale
  = Uncaught (Exn (OSError FS.ENOENT)) Scenario.stale.
Proof.
  exact (unloadable_mods_list_aborts Scenario.env Cases.host 10 None "b"
           Scenario.stale eq_refl I).
Defined.

Lemma mods_only_choice_confined_witness :
  exists w',
    Menu.run_choice Scenario.env Cases.host 10 A3 None "B"
      Cases.with_mods_list = Returned w' /\
    exists evs,
      trace w' = trace Cases.with_mods_list ++ evs /\
      Forall (operation_event Scenario.desired) evs.
Proof.
  destruct (mods_only_choice_confined Scenario.env Cases.host 10 None "B"
              Cases.with_mods_list Cases.mods_list_text Scenario.desired
              eq_refl eq_refl eq_refl) as [_ H].
  assert (R : exists w',
    Menu.run_choice Scenario.env Cases.host 10 A3 None "B"
      Cases.with_mods_list = Returned w')
    by (vm_compute; eexists; reflexivity).
  destruct R as [w' R]. exists w'. split; [exact R|].
  apply H. left. exact R.
Defined.

Lemma lower_case_mods_lowers_tidy_trees_witness :
  exists w',
    _lower_case_mods 3 Scenario.desired Cases.upper_case_files = Ok tt w' /\
    FS.lookup (Scenario.mod_path ++ ["addons"; "cba_main.pbo"]) (disk w')
    = Some (File "pbo") /\
    forall value t',
      In value (values Scenario.desired) ->
      FS.lookup (A3_WORKSHOP_DIR ++ [value]) (disk w') = Some t' ->
      names_lower t' = true.
Proof.
  assert (H : forall value t,
     In value (values Scenario.desired) ->
     FS.lookup (A3_WORKSHOP_DIR ++ [value]) (disk Cases.upper_case_files)
     = Some t ->
     is_lower value = true /\ tidy t = true /\ (height t <= 3)%nat).
  { intros value t [<-|[]] Ht. vm_compute in Ht. injection Ht as <-.
    split; [reflexivity|]. split; [reflexivity|].
    apply Nat.leb_le. reflexivity. }
  destruct (lower_case_mods_lowers_tidy_trees 3 Scenario.desired
              Cases.upper_case_files H) as [w' [Hrun Hlow]].
  exists w'. split; [exact Hrun|]. split; [|exact Hlow].
  vm_compute in Hrun. injection Hrun as <-. reflexivity.
Defined.

(** ** A pass over an installation that is up to date *)

Lemma update_mods_loop_fresh env fuel : forall mods acc w,
  (forall name id, In (name, id) mods -> installed_fresh env (disk w) id) ->
  _update_mods_loop env fuel mods acc w
  = Ok acc (mkWorld (disk w) (trace w ++ skipped_events mods)).
Proof.
  induction mods as [|[name id] mods IH]; intros acc w H.
  - cbn. rewrite app_nil_r. now destruct w.
  - unfold _update_mods_loop. cbn [for_fold]. unfold bind at 1.
    destruct (H name id (or_introl eq_refl))
      as [c [es [body [Hbody [Hl [Hc [Hu Hfresh]]]]]]].
    assert (Hturn : _update_mod env fuel name id acc w
                    = Ok acc
                        (mkWorld (disk w)
                           (trace w ++ skipped_events [(name, id)]))).
    { unfold _update_mod, bind at 1.
      rewrite (delete_mod_if_needed_run env id w c es body Hbody Hl Hc Hu).
      rewrite Hfresh. cbv beta iota delta [negb andb].
      unfold bind, print, emit, ret. cbn [disk trace].
      cbn [skipped_events flat_map fst snd app].
      now rewrite <- app_assoc. }
    rewrite Hturn.
    change (for_fold mods
              (fun '(mod_name, mod_id) updated_mods =>
                 _update_mod env fuel mod_name mod_id updated_mods) acc)
      with (_update_mods_loop env fuel mods acc).
    rewrite IH.
    + cbn [disk trace skipped_events flat_map fst snd app].
      rewrite <- !app_assoc. reflexivity.
    + cbn [disk]. intros n i Hin. apply (H n i). now right.
Qed.

(** X17.  A pass over an installation that the staleness check finds up to
    date changes nothing: when the content directory of every mod of the
    list is installed and the check, as the code makes it on the clock of
    the host, answers false for it, the mods-only operation reads the
    changelog of each mod twice and prints its SKIPPING line, in the order
    of the list, then logs [All MODs are updated] and prints an empty
    line; it fetches, removes, renames, links and copies nothing, and the
    disk is as it was. *)
Theorem fresh_mods_are_all_skipped env fuel mods w :
  (forall name id, In (name, id) mods -> installed_fresh env (disk w) id) ->
  _update_mods env fuel mods w
  = Ok None (mkWorld (disk w) (trace w ++ skipped_events mods)) /\
  _update_mods_only env fuel mods w
  = Ok tt
      (mkWorld (disk w)
         (trace w ++ skipped_events mods
          ++ [Log "All MODs are updated"; Stdout EmptyString])).
Proof.
  intros H.
  assert (E : _update_mods env fuel mods w
              = Ok None (mkWorld (disk w) (trace w ++ skipped_events mods))).
  { unfold _update_mods, bind.
    now rewrite (update_mods_loop_fresh env fuel mods [] w H). }
  split; [exact E|].
  unfold _update_mods_only, bind at 1. rewrite E.
  unfold bind, logger_log, print, emit. cbn [disk trace].
  now rewrite <- !app_assoc.
Qed.

Lemma fresh_mods_are_all_skipped_witness :
  _update_mods_only Scenario.env 10 Scenario.desired Scenario.fresh
  = Ok tt
      (mkWorld (disk Scenario.fresh)
         [UrlOpen (WORKSHOP_CHANGELOG_URL ++ "/450814997");
          UrlOpen (WORKSHOP_CHANGELOG_URL ++ "/450814997");
          Stdout (skipping_line "@cba" "450814997");
          Log "All MODs are updated"; Stdout EmptyString]).
Proof.
  refine (proj2 (fresh_mods_are_all_skipped Scenario.env 10 Scenario.desired
                   Scenario.fresh _)).
  intros name id [E|[]]. injection E as <- <-.
  do 2 eexists. exists Scenario.changelog.
  split; [reflexivity|]. split; [reflexivity|].
  split; [unfold in_datetime_range, naive_local, datetime_min, datetime_max; cbn; lia|].
  split; [|reflexivity].
  intros u Hu. vm_compute in Hu. injection Hu as <-.
  unfold in_datetime_range, naive_local, datetime_min, datetime_max; cbn;
      lia.
Defined.

(** X18.  Choice A is choice C followed by choice B, for either server:
    choice C logs the update of the server with the id of the configured
    server ([233780] for Arma 3, [1874900] for Reforger), runs the fetch
    tool once with kind SERVER and no mod id, and returns; choice A does
    the same and then what choice B does in the world the fetch has
    left. *)
Theorem choice_a_is_choice_c_then_b env host fuel server mods_list_name
  sa sb sc w :
  Str.lower sa = "a" -> Str.lower sb = "b" -> Str.lower sc = "c" ->
  let line :=
    ("Updating " ++ server_value host server ++ " server ("
     ++ match server with A3 => "233780" | REFORGER => "1874900" end
     ++ ")")%string in
  let logged := mkWorld (disk w) (trace w ++ [Log line; SteamCmdRun SERVER None]) in
  let fetched :=
    mkWorld (steamcmd_effect env SERVER None logged) (trace logged) in
  Menu.run_choice env host fuel server mods_list_name sc w = Returned fetched
  /\
  Menu.run_choice env host fuel server mods_list_name sa w
  = Menu.run_choice env host fuel server mods_list_name sb fetched.
Proof.
  intros Ha Hb Hc line logged fetched.
  assert (Hrun : Menu._update_server env host server w = Ok tt fetched).
  { unfold Menu._update_server, bind, logger_log, steamcmd_run, bind, emit.
    cbn [disk trace]. unfold fetched, logged, line.
    rewrite <- !app_assoc. cbn [app].
    destruct server; reflexivity. }
  unfold Menu.run_choice. rewrite Ha, Hb, Hc.
  destruct server;
    cbn [Menu._get_choices getitem String.eqb Ascii.eqb Bool.eqb call_].
  - split.
    + unfold lift. now rewrite Hrun.
    + unfold Menu._update_server_and_mods, and_then, lift. now rewrite Hrun.
  - split.
    + unfold lift. now rewrite Hrun.
    + unfold Menu._update_server_and_run_reforger, lift, bind.
      now rewrite Hrun.
Qed.

Lemma choice_a_is_choice_c_then_b_witness :
  exists fetched,
    Menu.run_choice Scenario.env Cases.host 10 REFORGER None "C"
      Scenario.absent = Returned fetched /\
    trace fetched = [Log "Updating reforger server (1874900)";
                     SteamCmdRun SERVER None] /\
    Menu.run_choice Scenario.env Cases.host 10 REFORGER None "A"
      Scenario.absent
    = Menu.run_choice Scenario.env Cases.host 10 REFORGER None "b" fetched.
Proof.
  destruct (choice_a_is_choice_c_then_b Scenario.env Cases.host 10 REFORGER
              None "A" "b" "C" Scenario.absent eq_refl eq_refl eq_refl)
    as [Hc Ha].
  eexists. split; [exact Hc|]. split; [reflexivity|exact Ha].
Defined.

Lemma mod_needs_update_compares_local_times_witness :
  _mod_needs_update Scenario.env "450814997" Scenario.mod_path Scenario.stale
  = Ok true
      (mkWorld (disk Scenario.stale)
         [UrlOpen (WORKSHOP_CHANGELOG_URL ++ "/450814997")]) /\
  _mod_needs_update Fold.mirror_env "450814997" Scenario.mod_path
    Fold.mirror_world
  = Ok true
      (mkWorld (disk Fold.mirror_world)
         [UrlOpen (WORKSHOP_CHANGELOG_URL ++ "/450814997")]).
Proof.
  split.
  - refine (proj1 (mod_needs_update_compares_local_times Scenario.env
                     "450814997" Scenario.mod_path Scenario.stale
                     1600000000000000 _ eq_refl _ _)).
    + vm_compute. split; discriminate.
    + intros u Hu. vm_compute in Hu. injection Hu as <-.
      vm_compute. split; discriminate.
  - refine (proj1 (mod_needs_update_compares_local_times Fold.mirror_env
                     "450814997" Scenario.mod_path Fold.mirror_world
                     1698541200000000 _ eq_refl _ _)).
    + vm_compute. split; discriminate.
    + intros u Hu. vm_compute in Hu. injection Hu as <-.
      vm_compute. split; discriminate.
Defined.
